(** * SalesBoostAI: webhook signing, dispatch and the in-memory store

    A shallow embedding of
      - server/services/webhook.ts  (WebhookService),
      - server/storage.ts           (MemStorage),
      - server/routes.ts            (the POST /api/webhook/chat handler),
    together with the parts of the Node runtime these files call
    (crypto.createHmac, crypto.timingSafeEqual, Buffer.from).

    Conventions.
      - A JavaScript string is represented by the bytes of its UTF-8
        encoding, held in a Rocq [string]; [Buffer.from(s)] is then the list
        of those bytes and [===] on strings is equality.
      - Numbers used as identifiers and counters are [nat]; amounts and
        rates are exact rationals ([Q]), so the rounding of IEEE doubles is
        not part of the model.
      - Records follow the TypeScript types of shared/schema.ts; a column
        that may be [undefined] or [null] at run time is a [Nullable], an
        optional property of a draft is an [option].
      - [new Date()] is an explicit argument (milliseconds as [nat]).
      - The network (axios) and the language model are oracles passed as
        arguments. *)

From Stdlib Require Import String Ascii Arith NArith ZArith QArith Bool Lia List.
From Stdlib Require Import Permutation Sorted DecimalString DecimalNat.
Import ListNotations.
Close Scope Q_scope.

Set Implicit Arguments.
Set Warnings "-register-all".

(* ===================================================================== *)
(** ** Node runtime: exceptions                                           *)
(* ===================================================================== *)

(** What a JavaScript call can raise, as far as this code is concerned. *)
Inductive JsError : Type :=
| RangeError        (* ERR_CRYPTO_TIMING_SAFE_EQUAL_LENGTH *)
| TypeError
| AxiosError        (* timeout, transport failure, rejected status *)
| UpstreamError.    (* the language-model collaborator failed *)

(** A call either returns a value or throws. *)
Inductive Completion (A : Type) : Type :=
| Returns (a : A)
| Throws (e : JsError).

Arguments Throws {A} e.

Definition bindC {A B} (c : Completion A) (k : A -> Completion B) : Completion B :=
  match c with
  | Returns a => k a
  | Throws e => Throws e
  end.

(** [try { c } catch (error) { h }] *)
Definition tryCatch {A} (c : Completion A) (h : JsError -> Completion A) : Completion A :=
  match c with
  | Returns a => Returns a
  | Throws e => h e
  end.

Declare Scope js_scope.
Delimit Scope js_scope with js.
Notation "x <- c ;; k" := (bindC c (fun x => k))
  (at level 61, c at next level, right associativity) : js_scope.

(* ===================================================================== *)
(** ** Node runtime: crypto                                               *)
(* ===================================================================== *)

Module Crypto.

Local Open Scope N_scope.

Definition Bytes := list N.

(** [Buffer.from(s)]: the UTF-8 bytes of the string. *)
Definition Buffer_from (s : string) : Bytes :=
  map N_of_ascii (list_ascii_of_string s).

(** *** SHA-256 (FIPS 180-4) on 32-bit words held in [N] *)

Definition mask32 : N := 0xFFFFFFFF.
Definition wrap (x : N) : N := N.land x mask32.
Definition plus32 (x y : N) : N := wrap (x + y).
Definition rotr (n x : N) : N :=
  N.lor (N.shiftr x n) (wrap (N.shiftl x (32 - n))).
Definition not32 (x : N) : N := N.lxor x mask32.

Definition choose (x y z : N) : N := N.lxor (N.land x y) (N.land (not32 x) z).
Definition majority (x y z : N) : N :=
  N.lxor (N.lxor (N.land x y) (N.land x z)) (N.land y z).
Definition bsig0 (x : N) : N := N.lxor (N.lxor (rotr 2 x) (rotr 13 x)) (rotr 22 x).
Definition bsig1 (x : N) : N := N.lxor (N.lxor (rotr 6 x) (rotr 11 x)) (rotr 25 x).
Definition ssig0 (x : N) : N := N.lxor (N.lxor (rotr 7 x) (rotr 18 x)) (N.shiftr x 3).
Definition ssig1 (x : N) : N := N.lxor (N.lxor (rotr 17 x) (rotr 19 x)) (N.shiftr x 10).

Definition round_constants : list N :=
  [0x428A2F98; 0x71374491; 0xB5C0FBCF; 0xE9B5DBA5;
   0x3956C25B; 0x59F111F1; 0x923F82A4; 0xAB1C5ED5;
   0xD807AA98; 0x12835B01; 0x243185BE; 0x550C7DC3;
   0x72BE5D74; 0x80DEB1FE; 0x9BDC06A7; 0xC19BF174;
   0xE49B69C1; 0xEFBE4786; 0x0FC19DC6; 0x240CA1CC;
   0x2DE92C6F; 0x4A7484AA; 0x5CB0A9DC; 0x76F988DA;
   0x983E5152; 0xA831C66D; 0xB00327C8; 0xBF597FC7;
   0xC6E00BF3; 0xD5A79147; 0x06CA6351; 0x14292967;
   0x27B70A85; 0x2E1B2138; 0x4D2C6DFC; 0x53380D13;
   0x650A7354; 0x766A0ABB; 0x81C2C92E; 0x92722C85;
   0xA2BFE8A1; 0xA81A664B; 0xC24B8B70; 0xC76C51A3;
   0xD192E819; 0xD6990624; 0xF40E3585; 0x106AA070;
   0x19A4C116; 0x1E376C08; 0x2748774C; 0x34B0BCB5;
   0x391C0CB3; 0x4ED8AA4A; 0x5B9CCA4F; 0x682E6FF3;
   0x748F82EE; 0x78A5636F; 0x84C87814; 0x8CC70208;
   0x90BEFFFA; 0xA4506CEB; 0xBEF9A3F7; 0xC67178F2].

(** The eight working variables / the chaining value. *)
Record HashState : Type := mkHash {
  ha : N; hb : N; hc : N; hd : N; he : N; hf : N; hg : N; hh : N
}.

Definition initial_hash : HashState :=
  mkHash 0x6A09E667 0xBB67AE85 0x3C6EF372 0xA54FF53A
         0x510E527F 0x9B05688C 0x1F83D9AB 0x5BE0CD19.

(** Big-endian packing. *)
Definition word_of_bytes (b3 b2 b1 b0 : N) : N :=
  N.lor (N.lor (N.shiftl b3 24) (N.shiftl b2 16)) (N.lor (N.shiftl b1 8) b0).

Definition bytes_of_word (w : N) : Bytes :=
  [N.land (N.shiftr w 24) 0xFF; N.land (N.shiftr w 16) 0xFF;
   N.land (N.shiftr w 8) 0xFF; N.land w 0xFF].

Fixpoint words_of_bytes (fuel : nat) (bs : Bytes) : list N :=
  match fuel with
  | O => []
  | S fuel' =>
      match bs with
      | b3 :: b2 :: b1 :: b0 :: rest =>
          word_of_bytes b3 b2 b1 b0 :: words_of_bytes fuel' rest
      | _ => []
      end
  end.

(** Padding: a 1 bit, zeros up to 56 mod 64, then the bit length on 8 bytes. *)
Definition bytes_of_length (bits : N) : Bytes :=
  bytes_of_word (wrap (N.shiftr bits 32)) ++ bytes_of_word (wrap bits).

Definition pad (msg : Bytes) : Bytes :=
  let len := N.of_nat (length msg) in
  let zeros := N.to_nat ((119 - len mod 64) mod 64) in
  msg ++ [0x80] ++ repeat 0 zeros ++ bytes_of_length (8 * len).

Fixpoint blocks (fuel : nat) (bs : Bytes) : list Bytes :=
  match fuel with
  | O => []
  | S fuel' =>
      match bs with
      | [] => []
      | _ => firstn 64 bs :: blocks fuel' (skipn 64 bs)
      end
  end.

(** Message schedule: sixteen words of the block, extended to sixty-four. *)
Fixpoint extend (n : nat) (w : list N) : list N :=
  match n with
  | O => w
  | S n' =>
      let t := length w in
      let at_ k := nth (t - k) w 0 in
      extend n' (w ++ [plus32 (plus32 (ssig1 (at_ 2%nat)) (at_ 7%nat))
                               (plus32 (ssig0 (at_ 15%nat)) (at_ 16%nat))])
  end.

Definition schedule (block : Bytes) : list N :=
  extend 48 (words_of_bytes 16 block).

Definition round (s : HashState) (kw : N * N) : HashState :=
  let t1 := plus32 (plus32 (plus32 (hh s) (bsig1 (he s)))
                           (plus32 (choose (he s) (hf s) (hg s)) (fst kw)))
                   (snd kw) in
  let t2 := plus32 (bsig0 (ha s)) (majority (ha s) (hb s) (hc s)) in
  mkHash (plus32 t1 t2) (ha s) (hb s) (hc s) (plus32 (hd s) t1) (he s) (hf s) (hg s).

Definition compress (h : HashState) (block : Bytes) : HashState :=
  let s := fold_left round (combine round_constants (schedule block)) h in
  mkHash (plus32 (ha h) (ha s)) (plus32 (hb h) (hb s))
         (plus32 (hc h) (hc s)) (plus32 (hd h) (hd s))
         (plus32 (he h) (he s)) (plus32 (hf h) (hf s))
         (plus32 (hg h) (hg s)) (plus32 (hh h) (hh s)).

Definition bytes_of_hash (h : HashState) : Bytes :=
  bytes_of_word (ha h) ++ bytes_of_word (hb h) ++ bytes_of_word (hc h) ++
  bytes_of_word (hd h) ++ bytes_of_word (he h) ++ bytes_of_word (hf h) ++
  bytes_of_word (hg h) ++ bytes_of_word (hh h).

Definition sha256 (msg : Bytes) : Bytes :=
  let padded := pad msg in
  bytes_of_hash (fold_left compress (blocks (length padded) padded) initial_hash).

(** *** HMAC (RFC 2104) with SHA-256, block size 64 *)

Definition hmac_key (key : Bytes) : Bytes :=
  let k := if (64 <? length key)%nat then sha256 key else key in
  k ++ repeat 0 (64 - length k)%nat.

Definition hmac_sha256 (key msg : Bytes) : Bytes :=
  let k := hmac_key key in
  sha256 (map (N.lxor 0x5C) k ++ sha256 (map (N.lxor 0x36) k ++ msg)).

(** *** [digest('hex')]: two lowercase hexadecimal digits per byte *)

Definition hex_digit (n : N) : ascii :=
  if n <? 10 then ascii_of_N (48 + n) else ascii_of_N (87 + n).

Fixpoint hex (bs : Bytes) : string :=
  match bs with
  | [] => EmptyString
  | b :: rest =>
      String (hex_digit (N.shiftr b 4)) (String (hex_digit (N.land b 0xF)) (hex rest))
  end.

(** The digits of [digest('hex')]. *)
Definition lowercase_hex (c : ascii) : Prop :=
  In c (list_ascii_of_string "0123456789abcdef").

(** [crypto.createHmac('sha256', key).update(data).digest('hex')] *)
Definition createHmac_sha256_hex (key data : string) : string :=
  hex (hmac_sha256 (Buffer_from key) (Buffer_from data)).

(** *** [crypto.timingSafeEqual(a, b)]

    Node throws a RangeError when the two buffers differ in byte length;
    otherwise every byte pair is examined and the accumulated difference
    decides the result. *)

Fixpoint accumulate_diff (acc : N) (a b : Bytes) : N :=
  match a, b with
  | x :: a', y :: b' => accumulate_diff (N.lor acc (N.lxor x y)) a' b'
  | _, _ => acc
  end.

Definition timingSafeEqual (a b : Bytes) : Completion bool :=
  if (length a =? length b)%nat
  then Returns (accumulate_diff 0 a b =? 0)
  else Throws RangeError.

End Crypto.

(* ===================================================================== *)
(** ** JSON values held in [jsonb] columns and payloads                   *)
(* ===================================================================== *)

Inductive Json : Type :=
| JNull
| JBool (b : bool)
| JNum (z : Z)
| JStr (s : string)
| JArr (items : list Json)
| JObj (props : list (string * Json)).

(** A column that may hold [undefined] (property never set: MemStorage
    applies no column defaults), [null], or a value. *)
Inductive Nullable (A : Type) : Type :=
| Undefined
| Null
| Val (a : A).

Arguments Undefined {A}.
Arguments Null {A}.

(** JavaScript truthiness of the column types that occur. *)
Definition truthy_bool (v : Nullable bool) : bool :=
  match v with Val true => true | _ => false end.

Definition truthy_string (v : Nullable string) : bool :=
  match v with Val s => negb (String.eqb s "") | _ => false end.

Definition truthy_nat (v : Nullable nat) : bool :=
  match v with Val n => negb (n =? 0) | _ => false end.

(** [v || undefined] *)
Definition or_undefined_string (v : Nullable string) : option string :=
  match v with Val s => if String.eqb s "" then None else Some s | _ => None end.

Definition or_undefined_nat (v : Nullable nat) : option nat :=
  match v with Val n => if n =? 0 then None else Some n | _ => None end.

(** [Array.isArray(events) && events.includes(name)] *)
Definition is_string (name : string) (j : Json) : bool :=
  match j with JStr s => String.eqb s name | _ => false end.

Definition array_includes (events : Json) (name : string) : bool :=
  match events with
  | JArr items => existsb (is_string name) items
  | _ => false
  end.

Definition Date := nat.

(** One property of an object spread [{...old, ...updates}]: a property
    present in [updates] replaces the old one, an absent one leaves it. *)
Definition spread {A} (update : option A) (old : A) : A :=
  match update with
  | Some v => v
  | None => old
  end.

(** An optional property of a draft read from the created record. *)
Definition prop {A} (p : option (Nullable A)) : Nullable A :=
  match p with
  | Some v => v
  | None => Undefined
  end.

Definition eqb_nullable {A} (eqb : A -> A -> bool) (x y : Nullable A) : bool :=
  match x, y with
  | Undefined, Undefined => true
  | Null, Null => true
  | Val a, Val b => eqb a b
  | _, _ => false
  end.

(* ===================================================================== *)
(** ** shared/schema.ts: the entity types                                 *)
(* ===================================================================== *)

Module User.
Record t : Type := mk {
  id : nat; username : string; password : string; role : string; createdAt : Date
}.
End User.

Module InsertUser.
Record t : Type := mk { username : string; password : string }.
End InsertUser.

Module Conversation.
Record t : Type := mk {
  id : nat;
  sessionId : string;
  customerId : Nullable string;
  customerName : Nullable string;
  status : Nullable string;
  lastMessage : Nullable string;
  context : Nullable Json;
  createdAt : Date;
  updatedAt : Date
}.
End Conversation.

Module InsertConversation.
Record t : Type := mk {
  sessionId : string;
  customerId : option (Nullable string);
  customerName : option (Nullable string);
  status : option (Nullable string);
  lastMessage : option (Nullable string);
  context : option (Nullable Json)
}.
End InsertConversation.

(** [Partial<Conversation>] *)
Module PartialConversation.
Record t : Type := mk {
  id : option nat;
  sessionId : option string;
  customerId : option (Nullable string);
  customerName : option (Nullable string);
  status : option (Nullable string);
  lastMessage : option (Nullable string);
  context : option (Nullable Json);
  createdAt : option Date;
  updatedAt : option Date
}.
End PartialConversation.

Module Message.
Record t : Type := mk {
  id : nat;
  conversationId : nat;
  role : string;
  content : string;
  metadata : Nullable Json;
  timestamp : Date
}.
End Message.

Module InsertMessage.
Record t : Type := mk {
  conversationId : nat;
  role : string;
  content : string;
  metadata : option (Nullable Json)
}.
End InsertMessage.

Module Product.
Record t : Type := mk {
  id : nat;
  shopifyId : Nullable string;
  title : string;
  description : Nullable string;
  price : string;
  compareAtPrice : Nullable string;
  category : Nullable string;
  tags : Nullable Json;
  inventory : Nullable Z;
  imageUrl : Nullable string;
  isActive : Nullable bool;
  syncedAt : Date
}.
End Product.

Module InsertProduct.
Record t : Type := mk {
  shopifyId : option (Nullable string);
  title : string;
  description : option (Nullable string);
  price : string;
  compareAtPrice : option (Nullable string);
  category : option (Nullable string);
  tags : option (Nullable Json);
  inventory : option (Nullable Z);
  imageUrl : option (Nullable string);
  isActive : option (Nullable bool)
}.
End InsertProduct.

(** [Partial<Product>] *)
Module PartialProduct.
Record t : Type := mk {
  id : option nat;
  shopifyId : option (Nullable string);
  title : option string;
  description : option (Nullable string);
  price : option string;
  compareAtPrice : option (Nullable string);
  category : option (Nullable string);
  tags : option (Nullable Json);
  inventory : option (Nullable Z);
  imageUrl : option (Nullable string);
  isActive : option (Nullable bool);
  syncedAt : option Date
}.
End PartialProduct.

Module Order.
Record t : Type := mk {
  id : nat;
  shopifyId : Nullable string;
  conversationId : Nullable nat;
  customerId : Nullable string;
  customerEmail : Nullable string;
  status : string;
  totalAmount : string;
  currency : Nullable string;
  lineItems : Nullable Json;
  source : Nullable string;
  createdAt : Date;
  updatedAt : Date
}.
End Order.

Module InsertOrder.
Record t : Type := mk {
  shopifyId : option (Nullable string);
  conversationId : option (Nullable nat);
  customerId : option (Nullable string);
  customerEmail : option (Nullable string);
  status : string;
  totalAmount : string;
  currency : option (Nullable string);
  lineItems : option (Nullable Json);
  source : option (Nullable string)
}.
End InsertOrder.

(** [Partial<Order>] *)
Module PartialOrder.
Record t : Type := mk {
  id : option nat;
  shopifyId : option (Nullable string);
  conversationId : option (Nullable nat);
  customerId : option (Nullable string);
  customerEmail : option (Nullable string);
  status : option string;
  totalAmount : option string;
  currency : option (Nullable string);
  lineItems : option (Nullable Json);
  source : option (Nullable string);
  createdAt : option Date;
  updatedAt : option Date
}.
End PartialOrder.

Module Recommendation.
Record t : Type := mk {
  id : nat;
  conversationId : nat;
  productId : nat;
  type : string;
  confidence : string;
  reason : Nullable string;
  presented : Nullable bool;
  accepted : Nullable bool;
  createdAt : Date
}.
End Recommendation.

Module InsertRecommendation.
Record t : Type := mk {
  conversationId : nat;
  productId : nat;
  type : string;
  confidence : string;
  reason : option (Nullable string);
  presented : option (Nullable bool);
  accepted : option (Nullable bool)
}.
End InsertRecommendation.

(** [Partial<Recommendation>] *)
Module PartialRecommendation.
Record t : Type := mk {
  id : option nat;
  conversationId : option nat;
  productId : option nat;
  type : option string;
  confidence : option string;
  reason : option (Nullable string);
  presented : option (Nullable bool);
  accepted : option (Nullable bool);
  createdAt : option Date
}.
End PartialRecommendation.

Module Webhook.
Record t : Type := mk {
  id : nat;
  url : string;
  events : Json;
  secret : string;
  isActive : Nullable bool;
  description : Nullable string;
  lastTriggered : Nullable Date;
  createdAt : Date
}.
End Webhook.

Module InsertWebhook.
Record t : Type := mk {
  url : string;
  events : Json;
  secret : string;
  isActive : option (Nullable bool);
  description : option (Nullable string)
}.
End InsertWebhook.

(** [Partial<Webhook>] *)
Module PartialWebhook.
Record t : Type := mk {
  id : option nat;
  url : option string;
  events : option Json;
  secret : option string;
  isActive : option (Nullable bool);
  description : option (Nullable string);
  lastTriggered : option (Nullable Date);
  createdAt : option Date
}.
End PartialWebhook.

(* ===================================================================== *)
(** ** Effects of the webhook service: requests sent, lines logged        *)
(* ===================================================================== *)

(** [data] of the envelope, per event kind. *)
Inductive PayloadData : Type :=
| OrderCreatedData
    (orderId : nat) (shopifyId customerId customerEmail : Nullable string)
    (totalAmount : string) (currency source : Nullable string)
    (lineItems : Nullable Json).

Record WebhookPayload : Type := mkPayload {
  event : string;
  timestamp : string;
  data : PayloadData;
  conversationId : option nat;
  customerId : option string
}.

(** One call [axios.post(url, body, {headers, timeout})]. *)
Record HttpRequest : Type := mkRequest {
  req_url : string;
  req_body : WebhookPayload;
  req_headers : list (string * string);
  req_timeout : N
}.

Inductive Event : Type :=
| Posted (r : HttpRequest)
| ConsoleLog (webhookId : nat) (eventName : string)
| ConsoleErrorStatus (webhookId : nat) (status : nat)
| ConsoleErrorThrown (webhookId : nat) (e : JsError).

(** A computation with a trace of observable events and a completion. *)
Definition IO (A : Type) : Type := list Event * Completion A.

Definition retIO {A} (a : A) : IO A := ([], Returns a).

Definition bindIO {A B} (c : IO A) (k : A -> IO B) : IO B :=
  match snd c with
  | Returns a => (fst c ++ fst (k a), snd (k a))
  | Throws e => (fst c, Throws e)
  end.

Definition emit (e : Event) : IO unit := ([e], Returns tt).

Definition tryCatchIO {A} (c : IO A) (h : JsError -> IO A) : IO A :=
  match snd c with
  | Returns a => c
  | Throws e => (fst c ++ fst (h e), snd (h e))
  end.

Notation "x <~ c ;; k" := (bindIO c (fun x => k))
  (at level 61, c at next level, right associativity) : js_scope.
Notation "c ;;; k" := (bindIO c (fun _ => k))
  (at level 61, right associativity) : js_scope.

(** [Promise.all(cs)]: every computation of the list has been started (its
    events are there whatever the others do); the result is the list of
    values, or the first rejection.  Events are listed target by target. *)
Fixpoint Promise_all {A} (cs : list (IO A)) : IO (list A) :=
  match cs with
  | [] => retIO []
  | c :: rest =>
      let r := Promise_all rest in
      (fst c ++ fst r,
       match snd c with
       | Returns a =>
           match snd r with
           | Returns l => Returns (a :: l)
           | Throws e => Throws e
           end
       | Throws e => Throws e
       end)
  end.

(** The elements of a list with their positions, as [Array.prototype.map]
    hands them to its callback. *)
Definition indexed {A} (l : list A) : list (nat * A) :=
  combine (seq 0 (length l)) l.

(* ===================================================================== *)
(** ** server/services/webhook.ts                                         *)
(* ===================================================================== *)

Section WebhookService.

(** [JSON.stringify] on envelopes. *)
Variable JSON_stringify : WebhookPayload -> string.

(** The network: what the [n]-th request of a batch comes back with, a
    status when axios resolves, an exception when it rejects (timeout,
    transport error, refused status). *)
Variable axios_post : nat -> HttpRequest -> Completion nat.

Definition generateSignature (payload secret : string) : string :=
  Crypto.createHmac_sha256_hex secret payload.

Definition verifySignature (payload signature secret : string) : Completion bool :=
  let expectedSignature := generateSignature payload secret in
  Crypto.timingSafeEqual (Crypto.Buffer_from signature)
                         (Crypto.Buffer_from expectedSignature).

Definition webhookRequest (webhook : Webhook.t) (payload : WebhookPayload) : HttpRequest :=
  let payloadString := JSON_stringify payload in
  let signature := generateSignature payloadString (Webhook.secret webhook) in
  mkRequest (Webhook.url webhook) payload
    [("Content-Type", "application/json");
     ("X-Webhook-Signature", signature);
     ("X-Webhook-Event", event payload);
     ("User-Agent", "SalesBot-AI-Webhook/1.0")]%string
    30000%N.

Definition triggerWebhook (n : nat) (webhook : Webhook.t) (payload : WebhookPayload)
  : IO bool :=
  tryCatchIO
    (let request := webhookRequest webhook payload in
     (status <~ ([Posted request], axios_post n request) ;;
      if (200 <=? status) && (status <? 300)
      then emit (ConsoleLog (Webhook.id webhook) (event payload)) ;;; retIO true
      else emit (ConsoleErrorStatus (Webhook.id webhook) status) ;;; retIO false)%js)
    (fun error =>
       (emit (ConsoleErrorThrown (Webhook.id webhook) error) ;;; retIO false)%js).

Definition orderCreatedPayload (order : Order.t) (now : string) : WebhookPayload :=
  mkPayload "order.created" now
    (OrderCreatedData (Order.id order) (Order.shopifyId order)
       (Order.customerId order) (Order.customerEmail order)
       (Order.totalAmount order) (Order.currency order)
       (Order.source order) (Order.lineItems order))
    (or_undefined_nat (Order.conversationId order))
    (or_undefined_string (Order.customerId order)).

(** The filter of [triggerOrderCreated]. *)
Definition relevant (name : string) (webhook : Webhook.t) : bool :=
  truthy_bool (Webhook.isActive webhook) &&
  array_includes (Webhook.events webhook) name.

(** [Promise.all(relevantWebhooks.map(webhook => this.triggerWebhook(webhook, payload)))] *)
Definition deliverAll (relevantWebhooks : list Webhook.t) (payload : WebhookPayload)
  : IO (list bool) :=
  Promise_all
    (map (fun iw => triggerWebhook (fst iw) (snd iw) payload) (indexed relevantWebhooks)).

Definition triggerOrderCreated (order : Order.t) (now : string) (webhooks : list Webhook.t)
  : IO unit :=
  let payload := orderCreatedPayload order now in
  let relevantWebhooks := filter (relevant "order.created") webhooks in
  (_ <~ deliverAll relevantWebhooks payload ;; retIO tt)%js.

Definition verifyIncomingWebhook (body signature secret : string) : Completion bool :=
  verifySignature body signature secret.

End WebhookService.

(** *** Reading a trace *)

(** The requests of a trace, in the order they were issued. *)
Fixpoint posted (trace : list Event) : list HttpRequest :=
  match trace with
  | [] => []
  | Posted r :: rest => r :: posted rest
  | _ :: rest => posted rest
  end.

Definition header (name : string) (r : HttpRequest) : option string :=
  match find (fun h => String.eqb (fst h) name) (req_headers r) with
  | Some h => Some (snd h)
  | None => None
  end.

(** What a delivery is recorded as, given what the network answered. *)
Definition succeeded (answer : Completion nat) : bool :=
  match answer with
  | Returns status => (200 <=? status) && (status <? 300)
  | Throws _ => false
  end.

(** A subscription that is active and declares the event name. *)
Definition subscribed (name : string) (w : Webhook.t) : Prop :=
  Webhook.isActive w = Val true /\
  exists items, Webhook.events w = JArr items /\ In (JStr name) items.

(* ===================================================================== *)
(** ** JavaScript [Map<number, V>]: insertion-ordered, one entry per key  *)
(* ===================================================================== *)

Module JsMap.

Definition t (V : Type) : Type := list (nat * V).

Definition empty {V} : t V := [].

Definition get {V} (k : nat) (m : t V) : option V :=
  match find (fun e => fst e =? k) m with
  | Some e => Some (snd e)
  | None => None
  end.

(** [set] keeps the position of a key that is already there and appends a
    new one. *)
Fixpoint set {V} (k : nat) (v : V) (m : t V) : t V :=
  match m with
  | [] => [(k, v)]
  | e :: rest => if fst e =? k then (k, v) :: rest else e :: set k v rest
  end.

Definition has {V} (k : nat) (m : t V) : bool :=
  existsb (fun e => fst e =? k) m.

Fixpoint remove {V} (k : nat) (m : t V) : t V :=
  match m with
  | [] => []
  | e :: rest => if fst e =? k then rest else e :: remove k rest
  end.

Definition keys {V} (m : t V) : list nat := map fst m.
Definition values {V} (m : t V) : list V := map snd m.
Definition size {V} (m : t V) : nat := length m.

End JsMap.

(** [Array.prototype.sort(compare)] is stable; insertion from the right
    gives the same result as any stable sort with the same comparator. *)
Fixpoint insert_sorted {A} (compare : A -> A -> Z) (x : A) (l : list A) : list A :=
  match l with
  | [] => [x]
  | y :: rest =>
      if (compare x y <=? 0)%Z then x :: l else y :: insert_sorted compare x rest
  end.

Fixpoint sort {A} (compare : A -> A -> Z) (l : list A) : list A :=
  match l with
  | [] => []
  | x :: rest => insert_sorted compare x (sort compare rest)
  end.

(** The size of [new Set(values)]. *)
Fixpoint distinct {A} (eqb : A -> A -> bool) (l : list A) : list A :=
  match l with
  | [] => []
  | x :: rest =>
      x :: filter (fun y => negb (eqb x y)) (distinct eqb rest)
  end.

(* ===================================================================== *)
(** ** server/storage.ts: MemStorage                                      *)
(* ===================================================================== *)

Record MemStorage : Type := mkStore {
  users : JsMap.t User.t;
  conversations : JsMap.t Conversation.t;
  messages : JsMap.t Message.t;
  products : JsMap.t Product.t;
  orders : JsMap.t Order.t;
  recommendations : JsMap.t Recommendation.t;
  webhooks : JsMap.t Webhook.t;
  currentId : nat;
  (** history variable, not in the class: the values [nextId] has returned *)
  issued : list nat
}.

(** [new MemStorage()] *)
Definition newMemStorage : MemStorage :=
  mkStore JsMap.empty JsMap.empty JsMap.empty JsMap.empty JsMap.empty
          JsMap.empty JsMap.empty 1 [].

Definition with_users f (s : MemStorage) : MemStorage :=
  mkStore (f (users s)) (conversations s) (messages s) (products s) (orders s)
          (recommendations s) (webhooks s) (currentId s) (issued s).
Definition with_conversations f (s : MemStorage) : MemStorage :=
  mkStore (users s) (f (conversations s)) (messages s) (products s) (orders s)
          (recommendations s) (webhooks s) (currentId s) (issued s).
Definition with_messages f (s : MemStorage) : MemStorage :=
  mkStore (users s) (conversations s) (f (messages s)) (products s) (orders s)
          (recommendations s) (webhooks s) (currentId s) (issued s).
Definition with_products f (s : MemStorage) : MemStorage :=
  mkStore (users s) (conversations s) (messages s) (f (products s)) (orders s)
          (recommendations s) (webhooks s) (currentId s) (issued s).
Definition with_orders f (s : MemStorage) : MemStorage :=
  mkStore (users s) (conversations s) (messages s) (products s) (f (orders s))
          (recommendations s) (webhooks s) (currentId s) (issued s).
Definition with_recommendations f (s : MemStorage) : MemStorage :=
  mkStore (users s) (conversations s) (messages s) (products s) (orders s)
          (f (recommendations s)) (webhooks s) (currentId s) (issued s).
Definition with_webhooks f (s : MemStorage) : MemStorage :=
  mkStore (users s) (conversations s) (messages s) (products s) (orders s)
          (recommendations s) (f (webhooks s)) (currentId s) (issued s).

(** A method of the class: the store before, the value returned and the
    store after. *)
Definition Method (A : Type) : Type := MemStorage -> A * MemStorage.

Definition ret {A} (a : A) : Method A := fun s => (a, s).

Definition bind {A B} (m : Method A) (k : A -> Method B) : Method B :=
  fun s => let (a, s') := m s in k a s'.

Definition read {A} (f : MemStorage -> A) : Method A := fun s => (f s, s).

Definition update (f : MemStorage -> MemStorage) : Method unit := fun s => (tt, f s).

Declare Scope method_scope.
Delimit Scope method_scope with method.
Notation "x <- m ;; k" := (bind m (fun x => k))
  (at level 61, m at next level, right associativity) : method_scope.
Notation "m ;;; k" := (bind m (fun _ => k))
  (at level 61, right associativity) : method_scope.
Local Open Scope method_scope.

(** [return this.currentId++] *)
Definition nextId : Method nat :=
  fun s =>
    (currentId s,
     mkStore (users s) (conversations s) (messages s) (products s) (orders s)
             (recommendations s) (webhooks s) (S (currentId s))
             (issued s ++ [currentId s])).

(** *** Users *)

Definition getUser (id : nat) : Method (option User.t) :=
  read (fun s => JsMap.get id (users s)).

Definition createUser (insertUser : InsertUser.t) (now : Date) : Method User.t :=
  id <- nextId ;;
  let user :=
    User.mk id (InsertUser.username insertUser) (InsertUser.password insertUser)
            "admin" now in
  update (with_users (JsMap.set id user)) ;;;
  ret user.

(** *** Conversations *)

Definition getConversation (id : nat) : Method (option Conversation.t) :=
  read (fun s => JsMap.get id (conversations s)).

Definition getConversationBySessionId (sessionId : string)
  : Method (option Conversation.t) :=
  read (fun s =>
    find (fun conv => String.eqb (Conversation.sessionId conv) sessionId)
         (JsMap.values (conversations s))).

Definition createConversation (insertConversation : InsertConversation.t) (now : Date)
  : Method Conversation.t :=
  id <- nextId ;;
  let conversation :=
    Conversation.mk id
      (InsertConversation.sessionId insertConversation)
      (prop (InsertConversation.customerId insertConversation))
      (prop (InsertConversation.customerName insertConversation))
      (prop (InsertConversation.status insertConversation))
      (prop (InsertConversation.lastMessage insertConversation))
      (prop (InsertConversation.context insertConversation))
      now now in
  update (with_conversations (JsMap.set id conversation)) ;;;
  ret conversation.

(** [{ ...conversation, ...updates, updatedAt: new Date() }] *)
Definition mergeConversation (conversation : Conversation.t)
    (updates : PartialConversation.t) (now : Date) : Conversation.t :=
  Conversation.mk
    (spread (PartialConversation.id updates) (Conversation.id conversation))
    (spread (PartialConversation.sessionId updates) (Conversation.sessionId conversation))
    (spread (PartialConversation.customerId updates) (Conversation.customerId conversation))
    (spread (PartialConversation.customerName updates) (Conversation.customerName conversation))
    (spread (PartialConversation.status updates) (Conversation.status conversation))
    (spread (PartialConversation.lastMessage updates) (Conversation.lastMessage conversation))
    (spread (PartialConversation.context updates) (Conversation.context conversation))
    (spread (PartialConversation.createdAt updates) (Conversation.createdAt conversation))
    now.

Definition updateConversation (id : nat) (updates : PartialConversation.t) (now : Date)
  : Method (option Conversation.t) :=
  conversation <- read (fun s => JsMap.get id (conversations s)) ;;
  match conversation with
  | None => ret None
  | Some conversation =>
      let updated := mergeConversation conversation updates now in
      update (with_conversations (JsMap.set id updated)) ;;;
      ret (Some updated)
  end.

Definition is_active (conv : Conversation.t) : bool :=
  eqb_nullable String.eqb (Conversation.status conv) (Val "active"%string).

Definition getActiveConversations : Method (list Conversation.t) :=
  read (fun s => filter is_active (JsMap.values (conversations s))).

(** *** Messages *)

Definition getMessage (id : nat) : Method (option Message.t) :=
  read (fun s => JsMap.get id (messages s)).

Definition getMessagesByConversation (conversationId : nat) : Method (list Message.t) :=
  read (fun s =>
    sort (fun a b => (Z.of_nat (Message.timestamp a) - Z.of_nat (Message.timestamp b))%Z)
      (filter (fun msg => Message.conversationId msg =? conversationId)
              (JsMap.values (messages s)))).

Definition createMessage (insertMessage : InsertMessage.t) (now : Date)
  : Method Message.t :=
  id <- nextId ;;
  let message :=
    Message.mk id
      (InsertMessage.conversationId insertMessage)
      (InsertMessage.role insertMessage)
      (InsertMessage.content insertMessage)
      (prop (InsertMessage.metadata insertMessage))
      now in
  update (with_messages (JsMap.set id message)) ;;;
  ret message.

(** *** Products *)

Definition getProduct (id : nat) : Method (option Product.t) :=
  read (fun s => JsMap.get id (products s)).

Definition same_shopifyId (shopifyId : Nullable string) (product : Product.t) : bool :=
  eqb_nullable String.eqb (Product.shopifyId product) shopifyId.

Definition getProductByShopifyId (shopifyId : Nullable string)
  : Method (option Product.t) :=
  read (fun s => find (same_shopifyId shopifyId) (JsMap.values (products s))).

Definition getActiveProducts : Method (list Product.t) :=
  read (fun s =>
    filter (fun product => truthy_bool (Product.isActive product))
           (JsMap.values (products s))).

Definition createProduct (insertProduct : InsertProduct.t) (now : Date)
  : Method Product.t :=
  id <- nextId ;;
  let product :=
    Product.mk id
      (prop (InsertProduct.shopifyId insertProduct))
      (InsertProduct.title insertProduct)
      (prop (InsertProduct.description insertProduct))
      (InsertProduct.price insertProduct)
      (prop (InsertProduct.compareAtPrice insertProduct))
      (prop (InsertProduct.category insertProduct))
      (prop (InsertProduct.tags insertProduct))
      (prop (InsertProduct.inventory insertProduct))
      (prop (InsertProduct.imageUrl insertProduct))
      (prop (InsertProduct.isActive insertProduct))
      now in
  update (with_products (JsMap.set id product)) ;;;
  ret product.

(** [{ ...product, ...updates, syncedAt: new Date() }] *)
Definition mergeProduct (product : Product.t) (updates : PartialProduct.t) (now : Date)
  : Product.t :=
  Product.mk
    (spread (PartialProduct.id updates) (Product.id product))
    (spread (PartialProduct.shopifyId updates) (Product.shopifyId product))
    (spread (PartialProduct.title updates) (Product.title product))
    (spread (PartialProduct.description updates) (Product.description product))
    (spread (PartialProduct.price updates) (Product.price product))
    (spread (PartialProduct.compareAtPrice updates) (Product.compareAtPrice product))
    (spread (PartialProduct.category updates) (Product.category product))
    (spread (PartialProduct.tags updates) (Product.tags product))
    (spread (PartialProduct.inventory updates) (Product.inventory product))
    (spread (PartialProduct.imageUrl updates) (Product.imageUrl product))
    (spread (PartialProduct.isActive updates) (Product.isActive product))
    now.

Definition updateProduct (id : nat) (updates : PartialProduct.t) (now : Date)
  : Method (option Product.t) :=
  product <- read (fun s => JsMap.get id (products s)) ;;
  match product with
  | None => ret None
  | Some product =>
      let updated := mergeProduct product updates now in
      update (with_products (JsMap.set id updated)) ;;;
      ret (Some updated)
  end.

(** An [InsertProduct] passed where a [Partial<Product>] is expected: the
    same object, which has no [id] and no [syncedAt] property. *)
Definition asPartialProduct (insertProduct : InsertProduct.t) : PartialProduct.t :=
  PartialProduct.mk None
    (InsertProduct.shopifyId insertProduct)
    (Some (InsertProduct.title insertProduct))
    (InsertProduct.description insertProduct)
    (Some (InsertProduct.price insertProduct))
    (InsertProduct.compareAtPrice insertProduct)
    (InsertProduct.category insertProduct)
    (InsertProduct.tags insertProduct)
    (InsertProduct.inventory insertProduct)
    (InsertProduct.imageUrl insertProduct)
    (InsertProduct.isActive insertProduct)
    None.

(** One turn of the loop of [syncProducts]; [None] when nothing is pushed. *)
Definition syncOne (insertProduct : InsertProduct.t) (now : Date)
  : Method (option Product.t) :=
  existing <- getProductByShopifyId (prop (InsertProduct.shopifyId insertProduct)) ;;
  match existing with
  | Some existing =>
      updateProduct (Product.id existing) (asPartialProduct insertProduct) now
  | None =>
      created <- createProduct insertProduct now ;;
      ret (Some created)
  end.

Fixpoint syncLoop (timed : list (Date * InsertProduct.t)) (pushed : list Product.t)
  : Method (list Product.t) :=
  match timed with
  | [] => ret pushed
  | (now, insertProduct) :: rest =>
      r <- syncOne insertProduct now ;;
      syncLoop rest (match r with Some p => pushed ++ [p] | None => pushed end)
  end.

(** [clock i] is what [new Date()] gives during the [i]-th turn. *)
Definition timed (clock : nat -> Date) (insertProducts : list InsertProduct.t)
  : list (Date * InsertProduct.t) :=
  combine (map clock (seq 0 (length insertProducts))) insertProducts.

Definition syncProducts (clock : nat -> Date) (insertProducts : list InsertProduct.t)
  : Method (list Product.t) :=
  syncLoop (timed clock insertProducts) [].

(** *** Orders *)

Definition getOrder (id : nat) : Method (option Order.t) :=
  read (fun s => JsMap.get id (orders s)).

Definition createOrder (insertOrder : InsertOrder.t) (now : Date) : Method Order.t :=
  id <- nextId ;;
  let order :=
    Order.mk id
      (prop (InsertOrder.shopifyId insertOrder))
      (prop (InsertOrder.conversationId insertOrder))
      (prop (InsertOrder.customerId insertOrder))
      (prop (InsertOrder.customerEmail insertOrder))
      (InsertOrder.status insertOrder)
      (InsertOrder.totalAmount insertOrder)
      (prop (InsertOrder.currency insertOrder))
      (prop (InsertOrder.lineItems insertOrder))
      (prop (InsertOrder.source insertOrder))
      now now in
  update (with_orders (JsMap.set id order)) ;;;
  ret order.

(** [{ ...order, ...updates, updatedAt: new Date() }] *)
Definition mergeOrder (order : Order.t) (updates : PartialOrder.t) (now : Date)
  : Order.t :=
  Order.mk
    (spread (PartialOrder.id updates) (Order.id order))
    (spread (PartialOrder.shopifyId updates) (Order.shopifyId order))
    (spread (PartialOrder.conversationId updates) (Order.conversationId order))
    (spread (PartialOrder.customerId updates) (Order.customerId order))
    (spread (PartialOrder.customerEmail updates) (Order.customerEmail order))
    (spread (PartialOrder.status updates) (Order.status order))
    (spread (PartialOrder.totalAmount updates) (Order.totalAmount order))
    (spread (PartialOrder.currency updates) (Order.currency order))
    (spread (PartialOrder.lineItems updates) (Order.lineItems order))
    (spread (PartialOrder.source updates) (Order.source order))
    (spread (PartialOrder.createdAt updates) (Order.createdAt order))
    now.

Definition updateOrder (id : nat) (updates : PartialOrder.t) (now : Date)
  : Method (option Order.t) :=
  order <- read (fun s => JsMap.get id (orders s)) ;;
  match order with
  | None => ret None
  | Some order =>
      let updated := mergeOrder order updates now in
      update (with_orders (JsMap.set id updated)) ;;;
      ret (Some updated)
  end.

(** *** Recommendations *)

Definition getRecommendation (id : nat) : Method (option Recommendation.t) :=
  read (fun s => JsMap.get id (recommendations s)).

Definition createRecommendation (insertRecommendation : InsertRecommendation.t)
    (now : Date) : Method Recommendation.t :=
  id <- nextId ;;
  let recommendation :=
    Recommendation.mk id
      (InsertRecommendation.conversationId insertRecommendation)
      (InsertRecommendation.productId insertRecommendation)
      (InsertRecommendation.type insertRecommendation)
      (InsertRecommendation.confidence insertRecommendation)
      (prop (InsertRecommendation.reason insertRecommendation))
      (prop (InsertRecommendation.presented insertRecommendation))
      (prop (InsertRecommendation.accepted insertRecommendation))
      now in
  update (with_recommendations (JsMap.set id recommendation)) ;;;
  ret recommendation.

(** [{ ...recommendation, ...updates }] *)
Definition mergeRecommendation (recommendation : Recommendation.t)
    (updates : PartialRecommendation.t) : Recommendation.t :=
  Recommendation.mk
    (spread (PartialRecommendation.id updates) (Recommendation.id recommendation))
    (spread (PartialRecommendation.conversationId updates)
            (Recommendation.conversationId recommendation))
    (spread (PartialRecommendation.productId updates)
            (Recommendation.productId recommendation))
    (spread (PartialRecommendation.type updates) (Recommendation.type recommendation))
    (spread (PartialRecommendation.confidence updates)
            (Recommendation.confidence recommendation))
    (spread (PartialRecommendation.reason updates) (Recommendation.reason recommendation))
    (spread (PartialRecommendation.presented updates)
            (Recommendation.presented recommendation))
    (spread (PartialRecommendation.accepted updates)
            (Recommendation.accepted recommendation))
    (spread (PartialRecommendation.createdAt updates)
            (Recommendation.createdAt recommendation)).

Definition updateRecommendation (id : nat) (updates : PartialRecommendation.t)
  : Method (option Recommendation.t) :=
  recommendation <- read (fun s => JsMap.get id (recommendations s)) ;;
  match recommendation with
  | None => ret None
  | Some recommendation =>
      let updated := mergeRecommendation recommendation updates in
      update (with_recommendations (JsMap.set id updated)) ;;;
      ret (Some updated)
  end.

Module Stats.
Record t : Type := mk { recommendations : nat; accepted : nat }.
End Stats.

Module TopProduct.
Record t : Type := mk {
  product : Product.t;
  recommendations : nat;
  successRate : Q
}.
End TopProduct.

Definition ratio (n d : nat) : Q := (inject_Z (Z.of_nat n) / inject_Z (Z.of_nat d))%Q.

(** The first loop of [getTopRecommendedProducts]: one turn. *)
Definition countRecommendation (productStats : JsMap.t Stats.t) (rec : Recommendation.t)
  : JsMap.t Stats.t :=
  let stats :=
    match JsMap.get (Recommendation.productId rec) productStats with
    | Some stats => stats
    | None => Stats.mk 0 0
    end in
  let stats := Stats.mk (S (Stats.recommendations stats)) (Stats.accepted stats) in
  let stats :=
    if truthy_bool (Recommendation.accepted rec)
    then Stats.mk (Stats.recommendations stats) (S (Stats.accepted stats))
    else stats in
  JsMap.set (Recommendation.productId rec) stats productStats.

Definition productStatsOf (recs : list Recommendation.t) : JsMap.t Stats.t :=
  fold_left countRecommendation recs JsMap.empty.

(** The second loop: one turn, pushing one result or none. *)
Definition joinProduct (catalog : JsMap.t Product.t) (results : list TopProduct.t)
    (entry : nat * Stats.t) : list TopProduct.t :=
  let (productId, stats) := entry in
  match JsMap.get productId catalog with
  | Some product =>
      results ++
      [TopProduct.mk product (Stats.recommendations stats)
         (if 0 <? Stats.recommendations stats
          then ratio (Stats.accepted stats) (Stats.recommendations stats)
          else 0%Q)]
  | None => results
  end.

Definition getTopRecommendedProducts (limit : nat) : Method (list TopProduct.t) :=
  read (fun s =>
    let productStats := productStatsOf (JsMap.values (recommendations s)) in
    let results := fold_left (joinProduct (products s)) productStats [] in
    firstn limit
      (sort (fun a b => (Z.of_nat (TopProduct.recommendations b)
                         - Z.of_nat (TopProduct.recommendations a))%Z)
            results)).

(** *** Webhooks *)

Definition getWebhook (id : nat) : Method (option Webhook.t) :=
  read (fun s => JsMap.get id (webhooks s)).

Definition getAllWebhooks : Method (list Webhook.t) :=
  read (fun s => JsMap.values (webhooks s)).

Definition getActiveWebhooks : Method (list Webhook.t) :=
  read (fun s =>
    filter (fun webhook => truthy_bool (Webhook.isActive webhook))
           (JsMap.values (webhooks s))).

Definition createWebhook (insertWebhook : InsertWebhook.t) (now : Date)
  : Method Webhook.t :=
  id <- nextId ;;
  let webhook :=
    Webhook.mk id
      (InsertWebhook.url insertWebhook)
      (InsertWebhook.events insertWebhook)
      (InsertWebhook.secret insertWebhook)
      (prop (InsertWebhook.isActive insertWebhook))
      (prop (InsertWebhook.description insertWebhook))
      Undefined
      now in
  update (with_webhooks (JsMap.set id webhook)) ;;;
  ret webhook.

(** [{ ...webhook, ...updates }] *)
Definition mergeWebhook (webhook : Webhook.t) (updates : PartialWebhook.t) : Webhook.t :=
  Webhook.mk
    (spread (PartialWebhook.id updates) (Webhook.id webhook))
    (spread (PartialWebhook.url updates) (Webhook.url webhook))
    (spread (PartialWebhook.events updates) (Webhook.events webhook))
    (spread (PartialWebhook.secret updates) (Webhook.secret webhook))
    (spread (PartialWebhook.isActive updates) (Webhook.isActive webhook))
    (spread (PartialWebhook.description updates) (Webhook.description webhook))
    (spread (PartialWebhook.lastTriggered updates) (Webhook.lastTriggered webhook))
    (spread (PartialWebhook.createdAt updates) (Webhook.createdAt webhook)).

Definition updateWebhook (id : nat) (updates : PartialWebhook.t)
  : Method (option Webhook.t) :=
  webhook <- read (fun s => JsMap.get id (webhooks s)) ;;
  match webhook with
  | None => ret None
  | Some webhook =>
      let updated := mergeWebhook webhook updates in
      update (with_webhooks (JsMap.set id updated)) ;;;
      ret (Some updated)
  end.

Definition deleteWebhook (id : nat) : Method bool :=
  present <- read (fun s => JsMap.has id (webhooks s)) ;;
  update (with_webhooks (JsMap.remove id)) ;;;
  ret present.

(** *** Analytics *)

Module Metrics.
Record t : Type := mk {
  activeConversations : nat;
  totalConversations : nat;
  conversionRate : Q;
  totalRevenue : Q;
  averageOrderValue : Q;
  totalOrders : nat
}.
End Metrics.

Definition eqb_conversationId : Nullable nat -> Nullable nat -> bool :=
  eqb_nullable Nat.eqb.

Section Analytics.

(** [Number(order.totalAmount)] on the decimal text of the column. *)
Variable Number_ : string -> Q.

Definition getMetrics : Method Metrics.t :=
  read (fun s =>
    let activeConversations :=
      length (filter is_active (JsMap.values (conversations s))) in
    let totalConversations := JsMap.size (conversations s) in
    let orders := JsMap.values (orders s) in
    let totalOrders := length orders in
    let completedOrders :=
      filter (fun order => String.eqb (Order.status order) "completed") orders in
    let totalRevenue :=
      fold_left (fun sum order => (sum + Number_ (Order.totalAmount order))%Q)
                completedOrders 0%Q in
    let averageOrderValue :=
      if 0 <? length completedOrders
      then (totalRevenue / inject_Z (Z.of_nat (length completedOrders)))%Q
      else 0%Q in
    let conversationsWithOrders :=
      length (distinct eqb_conversationId (map Order.conversationId orders)) in
    let conversionRate :=
      if 0 <? totalConversations
      then ratio conversationsWithOrders totalConversations
      else 0%Q in
    Metrics.mk activeConversations totalConversations conversionRate
               totalRevenue averageOrderValue totalOrders).

End Analytics.

(** [recordApiMetric] only writes a line to the console. *)
Definition recordApiMetric (service : string) (endpoint : option string) : Method unit :=
  ret tt.

(* ===================================================================== *)
(** ** server/routes.ts: POST /api/webhook/chat                           *)
(* ===================================================================== *)

(** [req.body] as the endpoint reads it: the four properties it
    destructures, at the types the endpoint documents (text, and any JSON
    for [context]); each may be missing or [null]. *)
Record ChatBody : Type := mkChatBody {
  customer_id : Nullable string;
  message : Nullable string;
  context : Nullable Json;
  session_id : Nullable string
}.

Record ChatRequest : Type := mkChatRequest {
  x_webhook_signature : option string;   (* req.headers['x-webhook-signature'] *)
  x_webhook_secret : option string;      (* req.headers['x-webhook-secret'] *)
  body : ChatBody
}.

Inductive ResponseJson : Type :=
| ErrorText (error : string)
| ErrorThrown (error : JsError)
| ChatReply (response : string) (recommendations : Nullable Json)
            (session_id : string) (conversation_id : nat).

Record Response : Type := mkResponse { status : nat; json : ResponseJson }.

Record AiContext : Type := mkAiContext {
  ctx_conversation : Conversation.t;
  ctx_messages : list Message.t;
  ctx_customerContext : Nullable Json;
  ctx_availableProducts : list Product.t
}.

Record AiResponse : Type := mkAiResponse {
  ai_message : string;
  ai_intent : string;
  ai_urgency : string;
  ai_recommendations : Nullable Json
}.

(** A handler body: store in, completion and store out.  What was written
    to the store before an exception stays written. *)
Definition Handler (A : Type) : Type := MemStorage -> Completion A * MemStorage.

Definition retH {A} (a : A) : Handler A := fun s => (Returns a, s).

Definition bindH {A B} (h : Handler A) (k : A -> Handler B) : Handler B :=
  fun s =>
    match h s with
    | (Returns a, s') => k a s'
    | (Throws e, s') => (Throws e, s')
    end.

(** [await storage.method(...)] *)
Definition await {A} (m : Method A) : Handler A :=
  fun s => let (a, s') := m s in (Returns a, s').

(** A call that touches no store. *)
Definition call {A} (c : Completion A) : Handler A := fun s => (c, s).

Declare Scope handler_scope.
Delimit Scope handler_scope with handler.
Notation "x <- h ;; k" := (bindH h (fun x => k))
  (at level 61, h at next level, right associativity) : handler_scope.
Notation "h ;;; k" := (bindH h (fun _ => k))
  (at level 61, right associativity) : handler_scope.

Definition present (header : option string) : bool :=
  match header with
  | Some v => negb (String.eqb v "")
  | None => false
  end.

Definition header_text (header : option string) : string :=
  match header with
  | Some v => v
  | None => ""
  end.

Definition metadataOf (r : AiResponse) : Json :=
  JObj (("intent"%string, JStr (ai_intent r))
        :: ("urgency"%string, JStr (ai_urgency r))
        :: match ai_recommendations r with
           | Undefined => []
           | Null => [("recommendations"%string, JNull)]
           | Val j => [("recommendations"%string, j)]
           end).

Section Routes.

(** [JSON.stringify(req.body)] *)
Variable JSON_stringify_body : ChatBody -> string.

(** [openaiService.processMessage], which may reject. *)
Variable processMessage : string -> AiContext -> Completion AiResponse.

(** The statements of the [try] block after the two checks on the body
    have passed. *)
Definition processChat (req : ChatRequest) (clock : nat -> Date)
    (message session_id : string) : Handler Response :=
  (found <- await (getConversationBySessionId session_id) ;;
   conversation <-
     match found with
     | Some conversation => retH conversation
     | None =>
         await (createConversation
                  (InsertConversation.mk session_id
                     (Some (customer_id (body req)))
                     None
                     (Some (Val "active"%string))
                     (Some (Val message))
                     (Some (context (body req))))
                  (clock 0))
     end ;;
   await (createMessage
            (InsertMessage.mk (Conversation.id conversation) "user" message None)
            (clock 1)) ;;;
   messages <- await (getMessagesByConversation (Conversation.id conversation)) ;;
   availableProducts <- await getActiveProducts ;;
   aiResponse <-
     call (processMessage message
             (mkAiContext conversation messages (context (body req))
                          availableProducts)) ;;
   await (createMessage
            (InsertMessage.mk (Conversation.id conversation) "assistant"
               (ai_message aiResponse) (Some (Val (metadataOf aiResponse))))
            (clock 2)) ;;;
   await (recordApiMetric "webhook" (Some "/chat"%string)) ;;;
   retH (mkResponse 200
           (ChatReply (ai_message aiResponse) (ai_recommendations aiResponse)
                      session_id (Conversation.id conversation))))%handler.

(** The [try] block of the handler. *)
Definition webhookChatBody (req : ChatRequest) (clock : nat -> Date) : Handler Response :=
  let signature := x_webhook_signature req in
  let secret := x_webhook_secret req in
  if negb (present signature) || negb (present secret)
  then retH (mkResponse 401 (ErrorText "Missing webhook signature or secret"))
  else
    (let body_text := JSON_stringify_body (body req) in
     isValid <- call (verifyIncomingWebhook body_text (header_text signature)
                                            (header_text secret)) ;;
     if negb isValid
     then retH (mkResponse 401 (ErrorText "Invalid webhook signature"))
     else
       match or_undefined_string (message (body req)),
             or_undefined_string (session_id (body req)) with
       | Some message, Some session_id => processChat req clock message session_id
       | _, _ =>
           retH (mkResponse 400
                   (ErrorText "Missing required fields: message, session_id"))
       end)%handler.

(** The handler: [try { ... } catch (error) { res.status(500)... }]. *)
Definition webhookChat (req : ChatRequest) (clock : nat -> Date)
  : MemStorage -> Response * MemStorage :=
  fun s =>
    match webhookChatBody req clock s with
    | (Returns response, s') => (response, s')
    | (Throws error, s') => (mkResponse 500 (ErrorThrown error), s')
    end.

End Routes.

(* ===================================================================== *)
(** ** Histories of the store                                             *)
(* ===================================================================== *)

(** The mutating methods of [IStorage]; the other methods return the store
    as they found it. *)
Inductive Call : Type :=
| CreateUser (insertUser : InsertUser.t) (now : Date)
| CreateConversation (insertConversation : InsertConversation.t) (now : Date)
| UpdateConversation (id : nat) (updates : PartialConversation.t) (now : Date)
| CreateMessage (insertMessage : InsertMessage.t) (now : Date)
| CreateProduct (insertProduct : InsertProduct.t) (now : Date)
| UpdateProduct (id : nat) (updates : PartialProduct.t) (now : Date)
| SyncProducts (clock : nat -> Date) (insertProducts : list InsertProduct.t)
| CreateOrder (insertOrder : InsertOrder.t) (now : Date)
| UpdateOrder (id : nat) (updates : PartialOrder.t) (now : Date)
| CreateRecommendation (insertRecommendation : InsertRecommendation.t) (now : Date)
| UpdateRecommendation (id : nat) (updates : PartialRecommendation.t)
| CreateWebhook (insertWebhook : InsertWebhook.t) (now : Date)
| UpdateWebhook (id : nat) (updates : PartialWebhook.t)
| DeleteWebhook (id : nat).

Definition exec (c : Call) (s : MemStorage) : MemStorage :=
  match c with
  | CreateUser d now => snd (createUser d now s)
  | CreateConversation d now => snd (createConversation d now s)
  | UpdateConversation id u now => snd (updateConversation id u now s)
  | CreateMessage d now => snd (createMessage d now s)
  | CreateProduct d now => snd (createProduct d now s)
  | UpdateProduct id u now => snd (updateProduct id u now s)
  | SyncProducts clock ds => snd (syncProducts clock ds s)
  | CreateOrder d now => snd (createOrder d now s)
  | UpdateOrder id u now => snd (updateOrder id u now s)
  | CreateRecommendation d now => snd (createRecommendation d now s)
  | UpdateRecommendation id u => snd (updateRecommendation id u s)
  | CreateWebhook d now => snd (createWebhook d now s)
  | UpdateWebhook id u => snd (updateWebhook id u s)
  | DeleteWebhook id => snd (deleteWebhook id s)
  end.

Definition run (calls : list Call) (s : MemStorage) : MemStorage :=
  fold_left (fun s c => exec c s) calls s.

(** Every key of every map of the store. *)
Definition all_keys (s : MemStorage) : list nat :=
  JsMap.keys (users s) ++ JsMap.keys (conversations s) ++ JsMap.keys (messages s) ++
  JsMap.keys (products s) ++ JsMap.keys (orders s) ++
  JsMap.keys (recommendations s) ++ JsMap.keys (webhooks s).

(** *** Referential integrity of messages *)

Definition references_conversation (s : MemStorage) (m : Message.t) : bool :=
  JsMap.has (Message.conversationId m) (conversations s).

Definition message_integrity (s : MemStorage) : bool :=
  forallb (references_conversation s) (JsMap.values (messages s)).

(** The caller's obligation: a message is created for a conversation that
    is in the store at that moment. *)
Definition well_referenced (c : Call) (s : MemStorage) : bool :=
  match c with
  | CreateMessage d _ => JsMap.has (InsertMessage.conversationId d) (conversations s)
  | _ => true
  end.

Fixpoint all_well_referenced (calls : list Call) (s : MemStorage) : bool :=
  match calls with
  | [] => true
  | c :: rest => well_referenced c s && all_well_referenced rest (exec c s)
  end.

(** *** Product maps as [syncProducts] expects them *)

(** Every product is stored under its own [id], ids are pairwise different
    and all below the counter. *)
Definition products_wf (c : nat) (m : JsMap.t Product.t) : Prop :=
  NoDup (JsMap.keys m) /\
  Forall (fun e => Product.id (snd e) = fst e /\ fst e < c) m.

(** A product with its [syncedAt] stamp blanked. *)
Definition unstamped (p : Product.t) : Product.t :=
  Product.mk (Product.id p) (Product.shopifyId p) (Product.title p)
    (Product.description p) (Product.price p) (Product.compareAtPrice p)
    (Product.category p) (Product.tags p) (Product.inventory p)
    (Product.imageUrl p) (Product.isActive p) 0.

Definition unstamped_map (m : JsMap.t Product.t) : JsMap.t Product.t :=
  map (fun e => (fst e, unstamped (snd e))) m.

(** Two stores that differ at most in the [syncedAt] of their products. *)
Definition same_but_syncedAt (s1 s2 : MemStorage) : Prop :=
  users s1 = users s2 /\ conversations s1 = conversations s2 /\
  messages s1 = messages s2 /\
  unstamped_map (products s1) = unstamped_map (products s2) /\
  orders s1 = orders s2 /\ recommendations s1 = recommendations s2 /\
  webhooks s1 = webhooks s2 /\ currentId s1 = currentId s2 /\
  issued s1 = issued s2.

(** *** The figures of [getMetrics] as the specification words them *)

Definition conversation_ids_of_orders (os : list Order.t) : list nat :=
  distinct Nat.eqb
    (flat_map (fun o => match Order.conversationId o with
                        | Val c => [c]
                        | _ => []
                        end) os).

Definition spec_conversionRate (s : MemStorage) : Q :=
  match JsMap.size (conversations s) with
  | O => 0%Q
  | S _ =>
      ratio (length (conversation_ids_of_orders (JsMap.values (orders s))))
            (JsMap.size (conversations s))
  end.

(** *** Identifier allocation *)

(** [id] was handed out by [nextId] in [s], leading to [s']: it is the
    counter of [s], above every identifier handed out before and every key
    in use, and it is the one identifier added to the history. *)
Definition fresh_id (s : MemStorage) (id : nat) (s' : MemStorage) : Prop :=
  id = currentId s /\
  Forall (fun i => i < id) (issued s) /\
  Forall (fun k => k < id) (all_keys s) /\
  issued s' = issued s ++ [id] /\
  currentId s' = S id.

(** The identifiers handed out so far are 1, 2, ... up to the counter, and
    the keys in use, over all seven maps, are below the counter and
    pairwise different. *)
Definition ids_inv (s : MemStorage) : Prop :=
  issued s = seq 1 (currentId s - 1) /\
  1 <= currentId s /\
  Forall (fun k => k < currentId s) (all_keys s) /\
  NoDup (all_keys s).

(** A step that hands out no identifier and adds no key. *)
Definition keeps_ids (s s' : MemStorage) : Prop :=
  currentId s' = currentId s /\
  issued s' = issued s /\
  forall x, count_occ Nat.eq_dec (all_keys s') x <= count_occ Nat.eq_dec (all_keys s) x.

(** A step that hands out the counter and stores one entity under it. *)
Definition allocates_id (s s' : MemStorage) : Prop :=
  currentId s' = S (currentId s) /\
  issued s' = issued s ++ [currentId s] /\
  forall x, count_occ Nat.eq_dec (all_keys s') x
            = count_occ Nat.eq_dec (all_keys s) x
              + (if Nat.eq_dec (currentId s) x then 1 else 0).

(** A step that leaves the messages alone and removes no conversation. *)
Definition spares_messages (s s' : MemStorage) : Prop :=
  messages s' = messages s /\
  forall k, JsMap.has k (conversations s) = true ->
            JsMap.has k (conversations s') = true.

(** *** Stores used as examples *)

(** One active conversation and one order that belongs to no
    conversation. *)
Definition store_with_unattached_order : MemStorage :=
  run [CreateConversation
         (InsertConversation.mk "s1" None None (Some (Val "active"%string)) None None) 10;
       CreateOrder
         (InsertOrder.mk None None None None "pending" "10.00" None None None) 20]
      newMemStorage.

(** Two recommendations, for products 1 and 7; only product 1 exists. *)
Definition store_with_missing_product : MemStorage :=
  run [CreateProduct
         (InsertProduct.mk (Some (Val "sku-1"%string)) "Mug" None "4.00"
                           None None None None None None) 10;
       CreateRecommendation
         (InsertRecommendation.mk 5 1 "primary" "0.90" None None None) 20;
       CreateRecommendation
         (InsertRecommendation.mk 5 7 "upsell" "0.80" None None None) 30]
      newMemStorage.

(** An order that belongs to a conversation: its [conversationId] is a
    number, neither [null] nor [undefined]. *)
Definition attached (o : Order.t) : Prop :=
  exists c, Order.conversationId o = Val c.

(** The distinct product ids among the recommendations that have a product
    record. *)
Definition recommended_products_on_record (s : MemStorage) : list nat :=
  filter (fun productId => JsMap.has productId (products s))
         (distinct Nat.eqb
            (map Recommendation.productId (JsMap.values (recommendations s)))).

(** *** [syncProducts] seen from the product map *)

(** Two spreads in a row, as one: a property of the later object wins. *)
Definition later {A} (a b : option A) : option A :=
  match b with
  | Some _ => b
  | None => a
  end.

Definition composePartial (a b : PartialProduct.t) : PartialProduct.t :=
  PartialProduct.mk
    (later (PartialProduct.id a) (PartialProduct.id b))
    (later (PartialProduct.shopifyId a) (PartialProduct.shopifyId b))
    (later (PartialProduct.title a) (PartialProduct.title b))
    (later (PartialProduct.description a) (PartialProduct.description b))
    (later (PartialProduct.price a) (PartialProduct.price b))
    (later (PartialProduct.compareAtPrice a) (PartialProduct.compareAtPrice b))
    (later (PartialProduct.category a) (PartialProduct.category b))
    (later (PartialProduct.tags a) (PartialProduct.tags b))
    (later (PartialProduct.inventory a) (PartialProduct.inventory b))
    (later (PartialProduct.imageUrl a) (PartialProduct.imageUrl b))
    (later (PartialProduct.isActive a) (PartialProduct.isActive b))
    (later (PartialProduct.syncedAt a) (PartialProduct.syncedAt b)).

Definition emptyPartial : PartialProduct.t :=
  PartialProduct.mk None None None None None None None None None None None None.

Definition composeDrafts (a : PartialProduct.t) (ds : list InsertProduct.t)
  : PartialProduct.t :=
  fold_left (fun a d => composePartial a (asPartialProduct d)) ds a.

(** The external id a draft is looked up by: [insertProduct.shopifyId!]. *)
Definition lookup_key (d : InsertProduct.t) : Nullable string :=
  prop (InsertProduct.shopifyId d).

(** The drafts of a list that are looked up by a given external id. *)
Definition hits (shopifyId : Nullable string) (d : InsertProduct.t) : bool :=
  eqb_nullable String.eqb shopifyId (lookup_key d).

(** A product after a run of updates. *)
Definition applyTimed (tds : list (Date * InsertProduct.t)) (p : Product.t) : Product.t :=
  fold_left (fun p td => mergeProduct p (asPartialProduct (snd td)) (fst td)) tds p.

Definition applyDrafts (ds : list InsertProduct.t) (p : Product.t) : Product.t :=
  fold_left (fun p d => mergeProduct p (asPartialProduct d) 0) ds p.

(** The loop of [syncProducts] on the product map and the counter. *)
Definition syncStep (td : Date * InsertProduct.t) (st : JsMap.t Product.t * nat)
  : JsMap.t Product.t * nat :=
  let (now, d) := td in
  let (m, c) := st in
  match find (same_shopifyId (lookup_key d)) (JsMap.values m) with
  | Some existing =>
      match JsMap.get (Product.id existing) m with
      | Some product =>
          (JsMap.set (Product.id existing)
                     (mergeProduct product (asPartialProduct d) now) m, c)
      | None => (m, c)
      end
  | None =>
      (JsMap.set c
         (Product.mk c
            (prop (InsertProduct.shopifyId d)) (InsertProduct.title d)
            (prop (InsertProduct.description d)) (InsertProduct.price d)
            (prop (InsertProduct.compareAtPrice d)) (prop (InsertProduct.category d))
            (prop (InsertProduct.tags d)) (prop (InsertProduct.inventory d))
            (prop (InsertProduct.imageUrl d)) (prop (InsertProduct.isActive d))
            now) m,
       S c)
  end.

Definition syncSteps (tds : list (Date * InsertProduct.t))
    (st : JsMap.t Product.t * nat) : JsMap.t Product.t * nat :=
  fold_left (fun st td => syncStep td st) tds st.

(** A product map on which a list of drafts has nothing left to change:
    going down the map, each product already holds what the drafts looked
    up by its external id would write, and no draft is left over at the
    end. *)
Fixpoint settled (ds : list InsertProduct.t) (m : JsMap.t Product.t) : Prop :=
  match m with
  | [] => ds = []
  | (_, p) :: rest =>
      unstamped (applyDrafts (filter (hits (Product.shopifyId p)) ds) p) = unstamped p
      /\ settled (filter (fun d => negb (hits (Product.shopifyId p) d)) ds) rest
  end.

(** The tail of a product map below an entry with key [k]. *)
Definition below (k : nat) (st : JsMap.t Product.t * nat) : Prop :=
  k < snd st /\
  ~ In k (JsMap.keys (fst st)) /\
  Forall (fun e => Product.id (snd e) <> k) (fst st).

(** An [updateProduct] that leaves the [id] of the product alone. *)
Definition keeps_product_id (c : Call) : Prop :=
  match c with
  | UpdateProduct _ updates _ => PartialProduct.id updates = None
  | _ => True
  end.

(** The store after the loop of [syncProducts] has brought the product map
    and the counter to [st]. *)
Definition install (s : MemStorage) (st : JsMap.t Product.t * nat) : MemStorage :=
  mkStore (users s) (conversations s) (messages s) (fst st) (orders s)
          (recommendations s) (webhooks s) (snd st)
          (issued s ++ seq (currentId s) (snd st - currentId s)).

(** Three drafts, two of them for the same external id. *)
Definition example_drafts : list InsertProduct.t :=
  [InsertProduct.mk (Some (Val "sku-1"%string)) "Mug" (Some (Val "blue"%string)) "4.00"
                    None None None (Some (Val 3%Z)) None (Some (Val true));
   InsertProduct.mk (Some (Val "sku-2"%string)) "Cap" None "9.50"
                    None None None None None None;
   InsertProduct.mk (Some (Val "sku-1"%string)) "Mug, large" None "5.00"
                    None None None None None None].

(** *** What a list of drafts writes *)

(** What a run of spreads leaves in a property: the value of the last
    object that has the property, if one has it. *)
Definition last_set {A} (l : list (option A)) : option A := fold_left later l None.

(** [v] is the value written, when one was written. *)
Definition holds {A} (written : option A) (v : A) : Prop :=
  match written with
  | Some x => v = x
  | None => True
  end.

(** A product that holds, in every property that some draft of the list
    sets, the value of the last draft that sets it; the title and the
    price are set by every draft. *)
Definition written_by (drafts : list InsertProduct.t) (p : Product.t) : Prop :=
  holds (last_set (map InsertProduct.shopifyId drafts)) (Product.shopifyId p)
  /\ holds (last_set (map (fun d => Some (InsertProduct.title d)) drafts))
           (Product.title p)
  /\ holds (last_set (map InsertProduct.description drafts)) (Product.description p)
  /\ holds (last_set (map (fun d => Some (InsertProduct.price d)) drafts))
           (Product.price p)
  /\ holds (last_set (map InsertProduct.compareAtPrice drafts))
           (Product.compareAtPrice p)
  /\ holds (last_set (map InsertProduct.category drafts)) (Product.category p)
  /\ holds (last_set (map InsertProduct.tags drafts)) (Product.tags p)
  /\ holds (last_set (map InsertProduct.inventory drafts)) (Product.inventory p)
  /\ holds (last_set (map InsertProduct.imageUrl drafts)) (Product.imageUrl p)
  /\ holds (last_set (map InsertProduct.isActive drafts)) (Product.isActive p).

(** *** A store in which a product is not filed under its id *)

Definition two_drafts : list InsertProduct.t :=
  [InsertProduct.mk (Some (Val "sku-1"%string)) "Mug" None "4.00"
                    None None None None None None;
   InsertProduct.mk (Some (Val "sku-2"%string)) "Cap" None "9.50"
                    None None None None None None].

(** [createProduct(mug)], then [updateProduct(1, { id: 2 })]: the product
    stays under key 1 and now says its id is 2. *)
Definition store_with_patched_id : MemStorage :=
  run [CreateProduct
         (InsertProduct.mk (Some (Val "sku-1"%string)) "Mug" None "4.00"
                           None None None None None None) 10;
       UpdateProduct 1
         (PartialProduct.mk (Some 2) None None None None None None None None None
                            None None) 20]
      newMemStorage.

Definition patched_once : MemStorage :=
  snd (syncProducts (fun i => 100 + i) two_drafts store_with_patched_id).

Definition patched_twice : MemStorage :=
  snd (syncProducts (fun i => 200 + i) two_drafts patched_once).

(* ===================================================================== *)
(** ** server/storage.ts: the remaining queries                           *)
(* ===================================================================== *)

Definition getUserByUsername (username : string) : Method (option User.t) :=
  read (fun s =>
    find (fun user => String.eqb (User.username user) username)
         (JsMap.values (users s))).

Definition getConversationsByCustomer (customerId : string)
  : Method (list Conversation.t) :=
  read (fun s =>
    filter (fun conv => eqb_nullable String.eqb (Conversation.customerId conv)
                                     (Val customerId))
           (JsMap.values (conversations s))).

(** A number as [slice] reads its [end] argument ([ToIntegerOrInfinity]):
    a whole number or an infinity; a fraction counts as the whole number
    towards zero, and [NaN] as 0. *)
Inductive SliceEnd : Type :=
| MinusInfinity
| Whole (z : Z)
| PlusInfinity.

(** Where [slice(0, end)] stops in a list of [len] entries: at [end]
    counted from the start, or from the end when [end] is negative, and
    never outside the list. *)
Definition slice_final (stop : SliceEnd) (len : nat) : nat :=
  match stop with
  | MinusInfinity => 0
  | Whole z =>
      if (z <? 0)%Z then len - Z.to_nat (- z) else Nat.min (Z.to_nat z) len
  | PlusInfinity => len
  end.

(** [list.slice(0, end)] *)
Definition slice_to {A} (stop : SliceEnd) (l : list A) : list A :=
  firstn (slice_final stop (length l)) l.

(** A parameter with a default: [limit: number = 50]. *)
Definition or_default (limit : option SliceEnd) : SliceEnd :=
  match limit with
  | Some n => n
  | None => Whole 50
  end.

Definition newest_first (a b : Message.t) : Z :=
  (Z.of_nat (Message.timestamp b) - Z.of_nat (Message.timestamp a))%Z.

Definition oldest_first (a b : Message.t) : Z :=
  (Z.of_nat (Message.timestamp a) - Z.of_nat (Message.timestamp b))%Z.

Definition getRecentMessages (limit : option SliceEnd) : Method (list Message.t) :=
  read (fun s =>
    slice_to (or_default limit) (sort newest_first (JsMap.values (messages s)))).

Definition getAllProducts : Method (list Product.t) :=
  read (fun s => JsMap.values (products s)).

Definition getProductsByCategory (category : string) : Method (list Product.t) :=
  read (fun s =>
    filter (fun product => eqb_nullable String.eqb (Product.category product)
                                        (Val category))
           (JsMap.values (products s))).

Definition getOrderByShopifyId (shopifyId : string) : Method (option Order.t) :=
  read (fun s =>
    find (fun order => eqb_nullable String.eqb (Order.shopifyId order) (Val shopifyId))
         (JsMap.values (orders s))).

Definition getOrdersByCustomer (customerId : string) : Method (list Order.t) :=
  read (fun s =>
    filter (fun order => eqb_nullable String.eqb (Order.customerId order)
                                      (Val customerId))
           (JsMap.values (orders s))).

Definition getOrdersByConversation (conversationId : nat) : Method (list Order.t) :=
  read (fun s =>
    filter (fun order => eqb_conversationId (Order.conversationId order)
                                            (Val conversationId))
           (JsMap.values (orders s))).

Definition latest_order_first (a b : Order.t) : Z :=
  (Z.of_nat (Order.createdAt b) - Z.of_nat (Order.createdAt a))%Z.

Definition getRecentOrders (limit : option SliceEnd) : Method (list Order.t) :=
  read (fun s =>
    slice_to (or_default limit) (sort latest_order_first (JsMap.values (orders s)))).

Definition getRecommendationsByConversation (conversationId : nat)
  : Method (list Recommendation.t) :=
  read (fun s =>
    filter (fun rec => Recommendation.conversationId rec =? conversationId)
           (JsMap.values (recommendations s))).

(* ===================================================================== *)
(** ** server/routes.ts: the routes over the store                        *)
(* ===================================================================== *)

(** *** GET /api/conversations *)

Record ConversationSummary : Type := mkSummary {
  sum_conversation : Conversation.t;
  sum_lastMessage : Nullable string;
  sum_messageCount : nat
}.

(** [messages[messages.length - 1]?.content || conversation.lastMessage] *)
Definition lastMessageOf (messages : list Message.t) (conversation : Conversation.t)
  : Nullable string :=
  match last (map (fun m => Some (Message.content m)) messages) None with
  | Some content =>
      if String.eqb content "" then Conversation.lastMessage conversation
      else Val content
  | None => Conversation.lastMessage conversation
  end.

Definition summarize (conversation : Conversation.t) : Method ConversationSummary :=
  messages <- getMessagesByConversation (Conversation.id conversation) ;;
  ret (mkSummary conversation (lastMessageOf messages conversation) (length messages)).

Fixpoint forEach {A B} (f : A -> Method B) (l : list A) : Method (list B) :=
  match l with
  | [] => ret []
  | x :: rest =>
      y <- f x ;;
      ys <- forEach f rest ;;
      ret (y :: ys)
  end.

Definition listConversations : Method (list ConversationSummary) :=
  conversations <- getActiveConversations ;;
  forEach summarize conversations.

(** *** POST /api/orders *)

Inductive OrderJson : Type :=
| OrderCreated (order : Order.t)
| OrderError (error : JsError).

Record OrderResponse : Type := mkOrderResponse {
  order_status : nat;
  order_json : OrderJson
}.

Section OrderRoute.

Variable JSON_stringify : WebhookPayload -> string.
Variable axios_post : nat -> HttpRequest -> Completion nat.

(** The handler: the response, what went out on the network and to the
    console, and the store.  [now] stamps the order, [isoNow] is the
    envelope's [timestamp]. *)
Definition postOrder (orderData : InsertOrder.t) (now : Date) (isoNow : string)
  : MemStorage -> (OrderResponse * list Event) * MemStorage :=
  fun s =>
    let (order, s1) := createOrder orderData now s in
    let (webhooks, s2) := getActiveWebhooks s1 in
    let sent := triggerOrderCreated JSON_stringify axios_post order isoNow webhooks in
    match snd sent with
    | Returns _ => ((mkOrderResponse 200 (OrderCreated order), fst sent), s2)
    | Throws error => ((mkOrderResponse 500 (OrderError error), fst sent), s2)
    end.

End OrderRoute.

(** *** What a verified chat request leaves behind *)

(** The conversation a chat request is attached to: the first one with
    its session id, or the one the handler creates. *)
Definition chatConversation (chat : ChatBody) (clock : nat -> Date)
    (message session_id : string) (s : MemStorage) : Conversation.t :=
  match fst (getConversationBySessionId session_id s) with
  | Some conversation => conversation
  | None =>
      Conversation.mk (currentId s) session_id (customer_id chat) Undefined
        (Val "active"%string) (Val message) (context chat) (clock 0) (clock 0)
  end.

(** The key under which the handler stores the user's message. *)
Definition chatMessageKey (session_id : string) (s : MemStorage) : nat :=
  match fst (getConversationBySessionId session_id s) with
  | Some _ => currentId s
  | None => S (currentId s)
  end.

(** Every conversation is stored under its own [id]. *)
Definition conversations_filed (s : MemStorage) : Prop :=
  Forall (fun e => Conversation.id (snd e) = fst e) (conversations s).

(** The store once the handler has made sure the conversation exists. *)
Definition chatOpened (chat : ChatBody) (clock : nat -> Date)
    (message session_id : string) (s : MemStorage) : MemStorage :=
  match fst (getConversationBySessionId session_id s) with
  | Some _ => s
  | None =>
      snd (createConversation
             (InsertConversation.mk session_id (Some (customer_id chat)) None
                (Some (Val "active"%string)) (Some (Val message))
                (Some (context chat)))
             (clock 0) s)
  end.

(** The store once the user's message is saved, before the language model
    is called. *)
Definition chatReceived (chat : ChatBody) (clock : nat -> Date)
    (message session_id : string) (s : MemStorage) : MemStorage :=
  snd (createMessage
         (InsertMessage.mk
            (Conversation.id (chatConversation chat clock message session_id s))
            "user" message None)
         (clock 1)
         (chatOpened chat clock message session_id s)).

(** *** The revenue of [getMetrics], whatever the arithmetic *)

Definition is_completed (order : Order.t) : bool :=
  String.eqb (Order.status order) "completed".

(** [completedOrders.reduce((sum, order) => sum + Number(order.totalAmount), 0)]
    with the number type left open: [plus] is its addition, which in the
    code is the addition of IEEE doubles and not that of the rationals,
    and [zero] is its 0. *)
Definition completedRevenue {Num : Type} (zero : Num) (plus : Num -> Num -> Num)
    (Number_ : string -> Num) (s : MemStorage) : Num :=
  fold_left (fun sum order => plus sum (Number_ (Order.totalAmount order)))
            (filter is_completed (JsMap.values (orders s)))
            zero.

(** *** Adding a record *)

(** A record added to a map: the old entries stay as they are, in their
    order, and the new one comes last, under a key that was not in use. *)
Definition appended {V} (m m' : JsMap.t V) (k : nat) (v : V) : Prop :=
  JsMap.get k m = None /\ m' = m ++ [(k, v)] /\ JsMap.get k m' = Some v.

(** *** Recommendations counted per product *)

(** How often a product id is recommended, and how often with success. *)
Definition recommended (productId : nat) (recs : list Recommendation.t) : nat :=
  length (filter (fun rec => Recommendation.productId rec =? productId) recs).

Definition recommended_accepted (productId : nat) (recs : list Recommendation.t) : nat :=
  length (filter (fun rec => (Recommendation.productId rec =? productId)
                             && truthy_bool (Recommendation.accepted rec)) recs).

(** The tally after the first loop, read by product id. *)
Definition tallied (done : list Recommendation.t) (stats : JsMap.t Stats.t) : Prop :=
  forall k,
    JsMap.get k stats
    = if recommended k done =? 0 then None
      else Some (Stats.mk (recommended k done) (recommended_accepted k done)).

(* ===================================================================== *)
(** ** server/services/shopify.ts: the product listing                    *)
(* ===================================================================== *)

Module ShopifyVariant.
Record t : Type := mk {
  id : nat;
  title : string;
  price : string;
  compare_at_price : option string;
  inventory_quantity : Z
}.
End ShopifyVariant.

Module ShopifyImage.
Record t : Type := mk { id : nat; src : string; alt : option string }.
End ShopifyImage.

Module ShopifyProduct.
Record t : Type := mk {
  id : nat;
  title : string;
  body_html : string;
  vendor : string;
  product_type : string;
  handle : string;
  status : string;
  tags : string;
  variants : list ShopifyVariant.t;
  images : list ShopifyImage.t
}.
End ShopifyProduct.

(** *** Text helpers, on the bytes of a string *)

Definition is_byte (n : N) (c : ascii) : bool := N.eqb (N_of_ascii c) n.

(** [text.replace(/<[^>]*>/g, '')]: going left to right, a [<] that has a
    [>] somewhere after it opens a match, which runs up to the first [>];
    a [<] with no [>] after it stays.  [inside] says that a match is
    open. *)
Fixpoint removeTags_from (inside : bool) (text : list ascii) : list ascii :=
  match text with
  | [] => []
  | c :: rest =>
      if inside
      then removeTags_from (negb (is_byte 62 c)) rest
      else if is_byte 60 c && existsb (is_byte 62) rest
           then removeTags_from true rest
           else c :: removeTags_from false rest
  end.

Definition removeTags (text : list ascii) : list ascii := removeTags_from false text.

(** Whether [/<[^>]*>/] matches somewhere in a text. *)
Fixpoint has_tag (text : list ascii) : bool :=
  match text with
  | [] => false
  | c :: rest => (is_byte 60 c && existsb (is_byte 62) rest) || has_tag rest
  end.

(** White space and line terminators of the language, in UTF-8: the
    one-byte ones, U+00A0, and the three-byte ones (U+1680, U+2000 to
    U+200A, U+2028, U+2029, U+202F, U+205F, U+3000, U+FEFF). *)
Definition space1 (a : ascii) : bool :=
  existsb (fun n => is_byte n a) [9; 10; 11; 12; 13; 32]%N.

Definition space2 (a b : ascii) : bool := is_byte 0xC2 a && is_byte 0xA0 b.

Definition space3 (a b c : ascii) : bool :=
  (is_byte 0xE1 a && is_byte 0x9A b && is_byte 0x80 c)
  || (is_byte 0xE2 a && is_byte 0x80 b
      && ((N.leb 0x80 (N_of_ascii c) && N.leb (N_of_ascii c) 0x8A)
          || is_byte 0xA8 c || is_byte 0xA9 c || is_byte 0xAF c))
  || (is_byte 0xE2 a && is_byte 0x81 b && is_byte 0x9F c)
  || (is_byte 0xE3 a && is_byte 0x80 b && is_byte 0x80 c)
  || (is_byte 0xEF a && is_byte 0xBB b && is_byte 0xBF c).

Fixpoint trimStart (text : list ascii) : list ascii :=
  match text with
  | [] => []
  | a :: rest =>
      if space1 a then trimStart rest
      else
        match rest with
        | [] => text
        | b :: rest2 =>
            if space2 a b then trimStart rest2
            else
              match rest2 with
              | [] => text
              | c :: rest3 => if space3 a b c then trimStart rest3 else text
              end
        end
  end.

(** The same from the end, on the reversed text. *)
Fixpoint trimStart_rev (reversed : list ascii) : list ascii :=
  match reversed with
  | [] => []
  | c :: rest =>
      if space1 c then trimStart_rev rest
      else
        match rest with
        | [] => reversed
        | b :: rest2 =>
            if space2 b c then trimStart_rev rest2
            else
              match rest2 with
              | [] => reversed
              | a :: rest3 => if space3 a b c then trimStart_rev rest3 else reversed
              end
        end
  end.

Definition trimEnd (text : list ascii) : list ascii := rev (trimStart_rev (rev text)).

(** [String.prototype.trim] *)
Definition trim_bytes (text : list ascii) : list ascii := trimEnd (trimStart text).

Definition trim (text : string) : string :=
  string_of_list_ascii (trim_bytes (list_ascii_of_string text)).

(** [text.split(',')] *)
Fixpoint split_comma (text : list ascii) : list (list ascii) :=
  match text with
  | [] => [[]]
  | c :: rest =>
      if is_byte 44 c then [] :: split_comma rest
      else
        match split_comma rest with
        | piece :: pieces => (c :: piece) :: pieces
        | [] => [[c]]
        end
  end.

(** [n.toString()] of a whole number below 10^21: its decimal digits. *)
Definition toString (n : nat) : string := NilEmpty.string_of_uint (Nat.to_uint n).

(** [text || fallback] *)
Definition or_text (text fallback : string) : string :=
  if String.eqb text "" then fallback else text.

(** [text || null] *)
Definition or_null (text : option string) : Nullable string :=
  match text with
  | Some t => if String.eqb t "" then Null else Val t
  | None => Null
  end.

(** *** ShopifyService *)

Definition stripHtml (html : string) : string :=
  if String.eqb html "" then ""
  else string_of_list_ascii (trim_bytes (removeTags (list_ascii_of_string html))).

(** The callback of [shopifyProducts.map] in [syncProducts]. *)
Definition toInsertProduct (product : ShopifyProduct.t) : InsertProduct.t :=
  let mainVariant := hd_error (ShopifyProduct.variants product) in
  let mainImage := hd_error (ShopifyProduct.images product) in
  InsertProduct.mk
    (Some (Val (toString (ShopifyProduct.id product))))
    (ShopifyProduct.title product)
    (Some (Val (stripHtml (ShopifyProduct.body_html product))))
    (or_text (match mainVariant with
              | Some v => ShopifyVariant.price v
              | None => ""%string
              end) "0")
    (Some (or_null (match mainVariant with
                    | Some v => ShopifyVariant.compare_at_price v
                    | None => None
                    end)))
    (Some (Val (or_text (ShopifyProduct.product_type product) "General")))
    (Some (Val (JArr
       (if String.eqb (ShopifyProduct.tags product) "" then []
        else map (fun tag => JStr (string_of_list_ascii (trim_bytes tag)))
                 (split_comma (list_ascii_of_string (ShopifyProduct.tags product)))))))
    (Some (Val (match mainVariant with
                | Some v => ShopifyVariant.inventory_quantity v
                | None => 0%Z
                end)))
    (Some (or_null (match mainImage with
                    | Some i => Some (ShopifyImage.src i)
                    | None => None
                    end)))
    (Some (Val (String.eqb (ShopifyProduct.status product) "active"))).

(** What [syncProducts] rejects with: [new Error('Failed to sync products
    from Shopify: ' + error.message)]. *)
Inductive ShopifyFailure : Type :=
| FailedToSync (cause : JsError).

(** [fetched] is what reading [response.data.products] of
    [GET /products.json?limit=250] comes to: the listing, or the exception
    raised on the way (service not configured, transport error, refused
    status, malformed answer). *)
Definition shopifySyncProducts (fetched : Completion (list ShopifyProduct.t))
  : ShopifyFailure + list InsertProduct.t :=
  match fetched with
  | Returns shopifyProducts => inr (map toInsertProduct shopifyProducts)
  | Throws error => inl (FailedToSync error)
  end.

(** *** POST /api/products/sync *)

Inductive SyncJson : Type :=
| SyncDone (count : nat) (products : list Product.t)
| SyncError (failure : ShopifyFailure).

Record SyncResponse : Type := mkSyncResponse {
  sync_status : nat;
  sync_json : SyncJson
}.

Definition postProductsSync (fetched : Completion (list ShopifyProduct.t))
    (clock : nat -> Date) : MemStorage -> SyncResponse * MemStorage :=
  fun s =>
    match shopifySyncProducts fetched with
    | inr shopifyProducts =>
        let (syncedProducts, s1) := syncProducts clock shopifyProducts s in
        let (_, s2) := recordApiMetric "shopify" (Some "/products/sync"%string) s1 in
        (mkSyncResponse 200 (SyncDone (length syncedProducts) syncedProducts), s2)
    | inl failure => (mkSyncResponse 500 (SyncError failure), s)
    end.

(** A listing with two entries for the same product id. *)
Definition example_listing : list ShopifyProduct.t :=
  [ShopifyProduct.mk 7 "Mug" "<p>A <b>blue</b> mug</p>" "Acme" "Kitchen" "mug" "active"
     "blue, ceramic"
     [ShopifyVariant.mk 70 "Default" "4.00" None 3%Z]
     [ShopifyImage.mk 700 "https://cdn.example/mug.png" None];
   ShopifyProduct.mk 8 "Cap" "" "Acme" "" "cap" "draft" "" [] [];
   ShopifyProduct.mk 7 "Mug, large" "<p>A large mug" "Acme" "Kitchen" "mug" "active"
     "blue"
     [ShopifyVariant.mk 71 "Default" "5.00" (Some "6.00"%string) 0%Z] []].

(* ===================================================================== *)
(** * Properties                                                          *)
(* ===================================================================== *)

(** ** The signature codec *)

Module CryptoFacts.
Import Crypto.

Lemma accumulate_diff_same (a : Bytes) (acc : N) : accumulate_diff acc a a = acc.
Proof.
  revert acc; induction a as [|x a IH]; intros acc; simpl.
  - reflexivity.
  - rewrite N.lxor_nilpotent, N.lor_0_r. apply IH.
Qed.

Lemma timingSafeEqual_same (a : Bytes) : timingSafeEqual a a = Returns true.
Proof.
  unfold timingSafeEqual.
  rewrite Nat.eqb_refl, accumulate_diff_same. reflexivity.
Qed.

Lemma length_Buffer_from (s : string) : length (Buffer_from s) = String.length s.
Proof.
  unfold Buffer_from. rewrite length_map.
  induction s as [|c s IH]; simpl; [reflexivity | now rewrite IH].
Qed.

Lemma length_hex (bs : Bytes) : String.length (hex bs) = 2 * length bs.
Proof.
  induction bs as [|b bs IH]; simpl; [reflexivity | rewrite IH; lia].
Qed.

Lemma length_sha256 (msg : Bytes) : length (sha256 msg) = 32.
Proof.
  unfold sha256.
  generalize (fold_left compress (blocks (length (pad msg)) (pad msg)) initial_hash).
  intros h. reflexivity.
Qed.

Lemma length_digest (key data : string) :
  String.length (createHmac_sha256_hex key data) = 64.
Proof.
  unfold createHmac_sha256_hex, hmac_sha256.
  rewrite length_hex, length_sha256. reflexivity.
Qed.

Lemma hex_digit_lowercase (n : N) : (n < 16)%N -> lowercase_hex (hex_digit n).
Proof.
  intros H. unfold lowercase_hex.
  assert (E : exists k, (k < 16)%nat /\ n = N.of_nat k).
  { exists (N.to_nat n). split; lia. }
  destruct E as (k & Hk & ->).
  do 16 (destruct k as [|k]; [vm_compute; tauto|]). lia.
Qed.

Lemma byte_of_word_small (w k : N) : (N.land (N.shiftr w k) 0xFF < 256)%N.
Proof.
  change 0xFF%N with (N.ones 8). rewrite N.land_ones.
  apply N.mod_lt. discriminate.
Qed.

Lemma sha256_bytes (msg : Bytes) : Forall (fun b => (b < 256)%N) (sha256 msg).
Proof.
  unfold sha256.
  generalize (fold_left compress (blocks (length (pad msg)) (pad msg)) initial_hash).
  intros h. unfold bytes_of_hash, bytes_of_word.
  repeat (apply Forall_cons || apply Forall_nil || rewrite <- app_comm_cons || simpl app);
    try apply byte_of_word_small.
  all: change (N.land ?w 0xFF) with (N.land (N.shiftr w 0) 0xFF); apply byte_of_word_small.
Qed.

Lemma hex_lowercase (bs : Bytes) :
  Forall (fun b => (b < 256)%N) bs ->
  Forall lowercase_hex (list_ascii_of_string (hex bs)).
Proof.
  induction 1 as [|b bs Hb _ IH]; cbn [hex list_ascii_of_string]; [constructor|].
  constructor; [|constructor; [|exact IH]]; apply hex_digit_lowercase.
  - rewrite N.shiftr_div_pow2. change (2 ^ 4)%N with 16%N.
    apply N.Div0.div_lt_upper_bound. lia.
  - change 0xF%N with (N.ones 4). rewrite N.land_ones.
    apply N.mod_lt. discriminate.
Qed.

End CryptoFacts.

(** The model of [createHmac] agrees with HMAC-SHA256 on a published test
    vector and on keys longer than one block (RFC 4231, test case 6). *)
Example hmac_sha256_fox :
  Crypto.createHmac_sha256_hex "key" "The quick brown fox jumps over the lazy dog"
  = "f7bc83f430538424b13298e6aa6fb143ef4d59a14946175997479dbc2d1a3cd8"%string.
Proof. vm_compute. reflexivity. Qed.

Example hmac_sha256_rfc4231_case6 :
  Crypto.hex (Crypto.hmac_sha256 (repeat 0xAA%N 131)
    (Crypto.Buffer_from "Test Using Larger Than Block-Size Key - Hash Key First"))
  = "60e431591ee0b67f0d8a26aacbf5b77f8e0bc6213728c5140546040f0ee37f54"%string.
Proof. vm_compute. reflexivity. Qed.

Lemma verifySignature_own (payload secret : string) :
  verifySignature payload (generateSignature payload secret) secret = Returns true.
Proof. unfold verifySignature. apply CryptoFacts.timingSafeEqual_same. Qed.

(** C1. Verifying the tag that [generateSignature] produced for the same
    payload and secret returns [true]; the tag is the HMAC-SHA256 of the
    payload bytes under the secret, written as 64 lowercase hexadecimal
    digits. *)
Theorem verify_accepts_own_signature (payload secret : string) :
  verifySignature payload (generateSignature payload secret) secret = Returns true
  /\ generateSignature payload secret
     = Crypto.hex (Crypto.hmac_sha256 (Crypto.Buffer_from secret)
                                      (Crypto.Buffer_from payload))
  /\ String.length (generateSignature payload secret) = 64
  /\ Forall Crypto.lowercase_hex
            (list_ascii_of_string (generateSignature payload secret)).
Proof.
  split; [|split; [|split]].
  - apply verifySignature_own.
  - reflexivity.
  - apply CryptoFacts.length_digest.
  - unfold generateSignature, Crypto.createHmac_sha256_hex, Crypto.hmac_sha256.
    apply CryptoFacts.hex_lowercase, CryptoFacts.sha256_bytes.
Qed.

(** [verifySignature] returns a boolean exactly when the supplied tag is
    64 bytes long, and raises a RangeError for every other length. *)
Lemma verifySignature_length (payload signature secret : string) :
  (String.length signature = 64 ->
   exists b, verifySignature payload signature secret = Returns b)
  /\ (String.length signature <> 64 ->
      verifySignature payload signature secret = Throws RangeError).
Proof.
  unfold verifySignature, Crypto.timingSafeEqual.
  rewrite !CryptoFacts.length_Buffer_from.
  unfold generateSignature. rewrite CryptoFacts.length_digest.
  split; intros H.
  - rewrite H. simpl. eauto.
  - apply Nat.eqb_neq in H. rewrite H. reflexivity.
Qed.

(** C2. On a supplied tag whose length differs from that of the recomputed
    tag, [verifySignature] does not return [false]: it raises. *)
Theorem verify_throws_on_length_mismatch :
  verifySignature "payload" "abc" "secret" = Throws RangeError
  /\ verifyIncomingWebhook "payload" "abc" "secret" = Throws RangeError.
Proof. split; vm_compute; reflexivity. Qed.

(** ** The dispatcher *)

Section Dispatch.

Variable JSON_stringify : WebhookPayload -> string.
Variable axios_post : nat -> HttpRequest -> Completion nat.

Let trigger := triggerWebhook JSON_stringify axios_post.
Let request := webhookRequest JSON_stringify.

Lemma posted_app (t1 t2 : list Event) : posted (t1 ++ t2) = posted t1 ++ posted t2.
Proof.
  induction t1 as [|e t1 IH]; simpl; [reflexivity|].
  destruct e; simpl; now rewrite IH.
Qed.

(** One attempt: one request, a boolean, no exception; the boolean is
    decided by the answer to that request alone. *)
Lemma triggerWebhook_attempt (n : nat) (w : Webhook.t) (p : WebhookPayload) :
  posted (fst (trigger n w p)) = [request w p]
  /\ snd (trigger n w p) = Returns (succeeded (axios_post n (request w p))).
Proof.
  unfold trigger, request, triggerWebhook, succeeded.
  generalize (webhookRequest JSON_stringify w p); intros req.
  destruct (axios_post n req) as [st|e].
  - unfold tryCatchIO, bindIO; cbn [fst snd].
    generalize ((200 <=? st) && (st <? 300)); intros [|]; split; reflexivity.
  - split; reflexivity.
Qed.

Lemma deliver_from (p : WebhookPayload) (ws : list Webhook.t) (start : nat) :
  let batch := combine (seq start (length ws)) ws in
  let r := Promise_all (map (fun iw => trigger (fst iw) (snd iw) p) batch) in
  posted (fst r) = map (fun w => request w p) ws
  /\ snd r = Returns (map (fun iw => succeeded (axios_post (fst iw) (request (snd iw) p)))
                          batch).
Proof.
  revert start; induction ws as [|w ws IH]; intros start; simpl.
  - auto.
  - destruct (IH (S start)) as [IH1 IH2].
    destruct (triggerWebhook_attempt start w p) as [A1 A2].
    rewrite posted_app, A1, A2, IH1, IH2. auto.
Qed.

Lemma relevant_subscribed (name : string) (w : Webhook.t) :
  relevant name w = true <-> subscribed name w.
Proof.
  unfold relevant, subscribed, truthy_bool, array_includes.
  rewrite andb_true_iff. split.
  - intros [Ha He].
    destruct (Webhook.isActive w) as [| |[|]]; try discriminate.
    split; [reflexivity|].
    destruct (Webhook.events w) as [| | | |items|]; try discriminate.
    exists items. split; [reflexivity|].
    apply existsb_exists in He. destruct He as (j & Hin & Hj).
    destruct j; try discriminate. simpl in Hj.
    apply String.eqb_eq in Hj. now subst.
  - intros (Ha & items & He & Hin). rewrite Ha, He. split; [reflexivity|].
    apply existsb_exists. exists (JStr name). split; [exact Hin|].
    simpl. apply String.eqb_refl.
Qed.

End Dispatch.

(** C3. Dispatching an order-created event posts exactly one request per
    subscription that is active and declares [order.created], in their
    order and to no other subscription; the signature header of each is
    the HMAC of the serialized envelope under that subscription's secret. *)
Theorem order_created_deliveries
    (JSON_stringify : WebhookPayload -> string)
    (axios_post : nat -> HttpRequest -> Completion nat)
    (order : Order.t) (now : string) (webhooks : list Webhook.t) :
  let payload := orderCreatedPayload order now in
  let matching := filter (relevant "order.created") webhooks in
  let sent := posted (fst (triggerOrderCreated JSON_stringify axios_post
                             order now webhooks)) in
  (forall w, In w matching <-> In w webhooks /\ subscribed "order.created" w)
  /\ length sent = length matching
  /\ map req_url sent = map Webhook.url matching
  /\ map req_body sent = map (fun _ => payload) matching
  /\ map (header "X-Webhook-Signature") sent
     = map (fun w => Some (generateSignature (JSON_stringify payload)
                                             (Webhook.secret w))) matching
  /\ map (header "X-Webhook-Event") sent
     = map (fun _ => Some "order.created"%string) matching.
Proof.
  intros payload matching sent.
  assert (E : sent = map (fun w => webhookRequest JSON_stringify w payload) matching).
  { unfold sent, triggerOrderCreated, deliverAll, indexed, bindIO.
    fold payload. fold matching.
    destruct (deliver_from JSON_stringify axios_post payload matching 0) as [H1 H2].
    cbv zeta in H1, H2. rewrite H2. simpl. rewrite app_nil_r. exact H1. }
  split.
  { intros w. unfold matching. rewrite filter_In, relevant_subscribed. tauto. }
  rewrite E, length_map, !map_map. repeat split.
Qed.

(** C4. No exception leaves a delivery attempt or the batch; every selected
    target is posted to whatever the others answer; and the outcome recorded
    for a target is success exactly when its own answer is a 2xx status. *)
Theorem delivery_failures_are_isolated
    (JSON_stringify : WebhookPayload -> string)
    (axios_post : nat -> HttpRequest -> Completion nat)
    (order : Order.t) (now : string) (webhooks : list Webhook.t) :
  let payload := orderCreatedPayload order now in
  let matching := filter (relevant "order.created") webhooks in
  (forall n w p,
     snd (triggerWebhook JSON_stringify axios_post n w p)
     = Returns (succeeded (axios_post n (webhookRequest JSON_stringify w p))))
  /\ snd (deliverAll JSON_stringify axios_post matching payload)
     = Returns (map (fun iw => succeeded
                         (axios_post (fst iw)
                            (webhookRequest JSON_stringify (snd iw) payload)))
                    (indexed matching))
  /\ posted (fst (deliverAll JSON_stringify axios_post matching payload))
     = map (fun w => webhookRequest JSON_stringify w payload) matching
  /\ snd (triggerOrderCreated JSON_stringify axios_post order now webhooks)
     = Returns tt.
Proof.
  intros payload matching.
  destruct (deliver_from JSON_stringify axios_post payload matching 0) as [H1 H2].
  cbv zeta in H1, H2.
  split; [intros n w p; apply triggerWebhook_attempt|].
  split; [exact H2|]. split; [exact H1|].
  unfold triggerOrderCreated, bindIO. fold payload. fold matching.
  unfold deliverAll, indexed. rewrite H2. reflexivity.
Qed.

(** ** The store: maps *)

Module JsMapFacts.
Import JsMap.

Section Facts.
Context {V : Type}.
Implicit Types (m : JsMap.t V) (k : nat) (v : V).

Lemma has_In k m : has k m = true <-> In k (keys m).
Proof.
  unfold has, keys. rewrite existsb_exists, in_map_iff. split.
  - intros (e & Hin & He). apply Nat.eqb_eq in He. eauto.
  - intros (e & He & Hin). exists e. split; [exact Hin|]. now apply Nat.eqb_eq.
Qed.

Lemma get_None k m : get k m = None <-> ~ In k (keys m).
Proof.
  unfold get, keys. induction m as [|[k' v'] m IH]; simpl.
  - tauto.
  - destruct (Nat.eqb_spec k' k) as [->|Hne].
    + split; [discriminate | tauto].
    + rewrite IH. intuition congruence.
Qed.

Lemma get_Some_In k m v : get k m = Some v -> In (k, v) m.
Proof.
  unfold get. destruct (find _ m) as [[k' v']|] eqn:E; [|discriminate].
  intros [= <-]. apply find_some in E. destruct E as [Hin He].
  apply Nat.eqb_eq in He. simpl in He. now subst.
Qed.

Lemma get_has k m : has k m = true <-> exists v, get k m = Some v.
Proof.
  rewrite has_In. destruct (get k m) as [v|] eqn:E.
  - split; [eauto|]. intros _. apply get_Some_In in E.
    unfold keys. apply in_map_iff. now exists (k, v).
  - apply get_None in E. split; [tauto | intros [v Hv]; discriminate].
Qed.

Lemma keys_set_present k v m : In k (keys m) -> keys (set k v m) = keys m.
Proof.
  unfold keys. induction m as [|[k' v'] m IH]; simpl; [tauto|].
  destruct (Nat.eqb_spec k' k) as [->|Hne]; simpl; [reflexivity|].
  intros [H|H]; [congruence|]. now rewrite IH.
Qed.

Lemma keys_set_absent k v m : ~ In k (keys m) -> keys (set k v m) = keys m ++ [k].
Proof.
  unfold keys. induction m as [|[k' v'] m IH]; simpl; [reflexivity|].
  destruct (Nat.eqb_spec k' k) as [->|Hne]; simpl; [tauto|].
  intros H. rewrite IH; tauto.
Qed.

Lemma keys_remove_incl k m : incl (keys (remove k m)) (keys m).
Proof.
  unfold keys. induction m as [|[k' v'] m IH]; simpl; [apply incl_refl|].
  destruct (k' =? k); simpl.
  - apply incl_tl, incl_refl.
  - apply incl_cons; [now left | now apply incl_tl].
Qed.

Lemma count_keys_remove k m x :
  count_occ Nat.eq_dec (keys (remove k m)) x <= count_occ Nat.eq_dec (keys m) x.
Proof.
  unfold keys. induction m as [|[k' v'] m IH]; simpl; [lia|].
  destruct (k' =? k); simpl; destruct (Nat.eq_dec k' x); lia.
Qed.

Lemma get_set_same k v m : get k (set k v m) = Some v.
Proof.
  unfold get. induction m as [|[k' v'] m IH]; simpl.
  - now rewrite Nat.eqb_refl.
  - destruct (Nat.eqb_spec k' k) as [->|Hne]; simpl.
    + now rewrite Nat.eqb_refl.
    + destruct (Nat.eqb_spec k' k); [congruence | exact IH].
Qed.

Lemma get_set_other k k' v m : k' <> k -> get k' (set k v m) = get k' m.
Proof.
  intros Hne. unfold get. induction m as [|[k0 v0] m IH]; simpl.
  - destruct (Nat.eqb_spec k k'); [congruence | reflexivity].
  - destruct (Nat.eqb_spec k0 k) as [->|Hne0]; simpl.
    + destruct (Nat.eqb_spec k k'); [congruence | reflexivity].
    + destruct (Nat.eqb_spec k0 k'); [reflexivity | exact IH].
Qed.

Lemma has_set k k' v m : has k' (set k v m) = (k =? k') || has k' m.
Proof.
  unfold has. induction m as [|[k0 v0] m IH]; simpl.
  - now rewrite orb_false_r.
  - destruct (Nat.eqb_spec k0 k) as [->|Hne0]; simpl.
    + destruct (k =? k'); reflexivity.
    + rewrite IH. destruct (k0 =? k'), (k =? k'); reflexivity.
Qed.

End Facts.
End JsMapFacts.

(** ** The store: identifier allocation *)

Import JsMapFacts.

Lemma keeps_ids_inv s s' : keeps_ids s s' -> ids_inv s -> ids_inv s'.
Proof.
  intros (Hc & Hi & Hk) (I1 & I2 & I3 & I4).
  unfold ids_inv. rewrite Hc, Hi. repeat split; auto.
  - rewrite Forall_forall in *. intros x Hx. apply I3.
    apply (count_occ_In Nat.eq_dec) in Hx.
    apply (count_occ_In Nat.eq_dec). specialize (Hk x). lia.
  - apply (NoDup_count_occ Nat.eq_dec). intros x.
    rewrite (NoDup_count_occ Nat.eq_dec) in I4.
    specialize (Hk x). specialize (I4 x). lia.
Qed.

Lemma allocates_id_inv s s' : allocates_id s s' -> ids_inv s -> ids_inv s'.
Proof.
  intros (Hc & Hi & Hk) (I1 & I2 & I3 & I4).
  unfold ids_inv. rewrite Hc, Hi, I1. repeat split.
  - replace (S (currentId s) - 1) with (S (currentId s - 1)) by lia.
    rewrite seq_S. f_equal. f_equal. lia.
  - lia.
  - rewrite Forall_forall in *. intros x Hx.
    apply (count_occ_In Nat.eq_dec) in Hx. rewrite Hk in Hx.
    destruct (Nat.eq_dec (currentId s) x) as [<-|Hne]; [lia|].
    assert (In x (all_keys s)) by (apply (count_occ_In Nat.eq_dec); lia).
    specialize (I3 x H). lia.
  - apply (NoDup_count_occ Nat.eq_dec). intros x. rewrite Hk.
    rewrite (NoDup_count_occ Nat.eq_dec) in I4. specialize (I4 x).
    destruct (Nat.eq_dec (currentId s) x) as [<-|Hne]; [|lia].
    assert (~ In (currentId s) (all_keys s)).
    { intros Hin. rewrite Forall_forall in I3. specialize (I3 _ Hin). lia. }
    apply (count_occ_not_In Nat.eq_dec) in H. lia.
Qed.

Lemma keeps_ids_refl s : keeps_ids s s.
Proof. unfold keeps_ids. auto. Qed.

Lemma count_set_absent {V} (m : JsMap.t V) k v x :
  ~ In k (JsMap.keys m) ->
  count_occ Nat.eq_dec (JsMap.keys (JsMap.set k v m)) x
  = count_occ Nat.eq_dec (JsMap.keys m) x + (if Nat.eq_dec k x then 1 else 0).
Proof.
  intros H. rewrite keys_set_absent by exact H.
  rewrite count_occ_app. simpl. destruct (Nat.eq_dec k x); lia.
Qed.

(** The counter is the key of no entity. *)
Lemma counter_unused s :
  ids_inv s ->
  ~ In (currentId s) (JsMap.keys (users s)) /\
  ~ In (currentId s) (JsMap.keys (conversations s)) /\
  ~ In (currentId s) (JsMap.keys (messages s)) /\
  ~ In (currentId s) (JsMap.keys (products s)) /\
  ~ In (currentId s) (JsMap.keys (orders s)) /\
  ~ In (currentId s) (JsMap.keys (recommendations s)) /\
  ~ In (currentId s) (JsMap.keys (webhooks s)).
Proof.
  intros (_ & _ & I3 & _). unfold all_keys in I3.
  rewrite !Forall_app, !Forall_forall in I3.
  repeat split; intros Hin;
    repeat match goal with
           | H : _ /\ _ |- _ => destruct H
           | H : forall x, In x ?l -> _, Hin : In _ ?l |- _ => specialize (H _ Hin); lia
           end.
Qed.

(** Unfolding a method down to the store it builds. *)
Ltac store_fields :=
  cbn [fst snd users conversations messages products orders recommendations
       webhooks currentId issued].

Ltac run_method :=
  unfold createUser, createConversation, createMessage, createProduct,
    createOrder, createRecommendation, createWebhook,
    updateConversation, updateProduct, updateOrder, updateRecommendation,
    updateWebhook, deleteWebhook,
    bind, nextId, update, ret, read,
    with_users, with_conversations, with_messages, with_products, with_orders,
    with_recommendations, with_webhooks;
  store_fields.

Ltac allocation :=
  let H := fresh in
  intros H; apply counter_unused in H;
  repeat match goal with H : _ /\ _ |- _ => destruct H end;
  unfold allocates_id; run_method; repeat split;
  intros x; unfold all_keys; store_fields;
  rewrite !count_occ_app;
  rewrite count_set_absent by assumption; lia.

Lemma createUser_allocates d now s :
  ids_inv s -> allocates_id s (snd (createUser d now s)).
Proof. allocation. Qed.

Lemma createConversation_allocates d now s :
  ids_inv s -> allocates_id s (snd (createConversation d now s)).
Proof. allocation. Qed.

Lemma createMessage_allocates d now s :
  ids_inv s -> allocates_id s (snd (createMessage d now s)).
Proof. allocation. Qed.

Lemma createProduct_allocates d now s :
  ids_inv s -> allocates_id s (snd (createProduct d now s)).
Proof. allocation. Qed.

Lemma createOrder_allocates d now s :
  ids_inv s -> allocates_id s (snd (createOrder d now s)).
Proof. allocation. Qed.

Lemma createRecommendation_allocates d now s :
  ids_inv s -> allocates_id s (snd (createRecommendation d now s)).
Proof. allocation. Qed.

Lemma createWebhook_allocates d now s :
  ids_inv s -> allocates_id s (snd (createWebhook d now s)).
Proof. allocation. Qed.


Lemma get_Some_key {V} (m : JsMap.t V) k v :
  JsMap.get k m = Some v -> In k (JsMap.keys m).
Proof.
  intros H. destruct (in_dec Nat.eq_dec k (JsMap.keys m)) as [Hin|Hout]; [exact Hin|].
  apply get_None in Hout. congruence.
Qed.

Ltac keeping :=
  unfold keeps_ids; run_method;
  match goal with
  | |- context [JsMap.get ?k ?m] =>
      let E := fresh "E" in
      destruct (JsMap.get k m) eqn:E; store_fields;
      [ apply get_Some_key in E; repeat split; intros x; unfold all_keys;
        store_fields; rewrite (keys_set_present _ _ _ E); lia
      | repeat split; intros x; lia ]
  end.

Lemma updateConversation_keeps id u now s :
  keeps_ids s (snd (updateConversation id u now s)).
Proof. keeping. Qed.

Lemma updateProduct_keeps id u now s :
  keeps_ids s (snd (updateProduct id u now s)).
Proof. keeping. Qed.

Lemma updateOrder_keeps id u now s :
  keeps_ids s (snd (updateOrder id u now s)).
Proof. keeping. Qed.

Lemma updateRecommendation_keeps id u s :
  keeps_ids s (snd (updateRecommendation id u s)).
Proof. keeping. Qed.

Lemma updateWebhook_keeps id u s :
  keeps_ids s (snd (updateWebhook id u s)).
Proof. keeping. Qed.

Lemma deleteWebhook_keeps id s : keeps_ids s (snd (deleteWebhook id s)).
Proof.
  unfold keeps_ids; run_method. repeat split. intros x.
  unfold all_keys; store_fields. rewrite !count_occ_app.
  pose proof (count_keys_remove id (webhooks s) x). lia.
Qed.

Lemma syncOne_ids_inv d now s : ids_inv s -> ids_inv (snd (syncOne d now s)).
Proof.
  intros I. unfold syncOne, bind, getProductByShopifyId, read.
  destruct (find _ _) as [e|].
  - apply keeps_ids_inv with (s := s); [apply updateProduct_keeps | exact I].
  - fold (bind (createProduct d now) (fun created => ret (Some created)) s).
    unfold bind. pose proof (createProduct_allocates d now I) as A.
    destruct (createProduct d now s) as [created s'].
    apply allocates_id_inv with (s := s); assumption.
Qed.

Lemma syncLoop_ids_inv l pushed s :
  ids_inv s -> ids_inv (snd (syncLoop l pushed s)).
Proof.
  revert pushed s. induction l as [|[now d] l IH]; intros pushed s I.
  - exact I.
  - cbn [syncLoop]. unfold bind at 1.
    pose proof (syncOne_ids_inv d now I) as I'.
    destruct (syncOne d now s) as [r s']. apply IH. exact I'.
Qed.

Lemma exec_ids_inv c s : ids_inv s -> ids_inv (exec c s).
Proof.
  intros I.
  pose proof (fun s' => @allocates_id_inv s s') as A.
  pose proof (fun s' => @keeps_ids_inv s s') as K.
  destruct c; cbn [exec].
  - apply A; [apply createUser_allocates|]; exact I.
  - apply A; [apply createConversation_allocates|]; exact I.
  - apply K; [apply updateConversation_keeps | exact I].
  - apply A; [apply createMessage_allocates|]; exact I.
  - apply A; [apply createProduct_allocates|]; exact I.
  - apply K; [apply updateProduct_keeps | exact I].
  - apply syncLoop_ids_inv. exact I.
  - apply A; [apply createOrder_allocates|]; exact I.
  - apply K; [apply updateOrder_keeps | exact I].
  - apply A; [apply createRecommendation_allocates|]; exact I.
  - apply K; [apply updateRecommendation_keeps | exact I].
  - apply A; [apply createWebhook_allocates|]; exact I.
  - apply K; [apply updateWebhook_keeps | exact I].
  - apply K; [apply deleteWebhook_keeps | exact I].
Qed.

Lemma newMemStorage_ids_inv : ids_inv newMemStorage.
Proof. repeat split; simpl; auto. constructor. Qed.

Lemma run_ids_inv calls s : ids_inv s -> ids_inv (run calls s).
Proof.
  revert s. induction calls as [|c calls IH]; intros s I; [exact I|].
  apply IH, exec_ids_inv, I.
Qed.

Lemma allocates_fresh s s' id :
  ids_inv s -> allocates_id s s' -> id = currentId s -> fresh_id s id s'.
Proof.
  intros (I1 & I2 & I3 & I4) (A1 & A2 & A3) ->. unfold fresh_id.
  repeat split; auto.
  rewrite I1. apply Forall_forall. intros i Hi. apply in_seq in Hi. lia.
Qed.

(** C8. After any history of calls on a new store, the identifiers handed
    out are 1, 2, 3, ... in that order, whatever kinds of entity they went
    to; the keys in use over all maps are pairwise different; and each of
    the seven create methods returns a record whose id is the counter,
    above every identifier handed out before. *)
Theorem identifiers_are_fresh (calls : list Call) :
  let s := run calls newMemStorage in
  issued s = seq 1 (currentId s - 1)
  /\ NoDup (issued s)
  /\ NoDup (all_keys s)
  /\ (forall d now, fresh_id s (User.id (fst (createUser d now s)))
                              (snd (createUser d now s)))
  /\ (forall d now, fresh_id s (Conversation.id (fst (createConversation d now s)))
                              (snd (createConversation d now s)))
  /\ (forall d now, fresh_id s (Message.id (fst (createMessage d now s)))
                              (snd (createMessage d now s)))
  /\ (forall d now, fresh_id s (Product.id (fst (createProduct d now s)))
                              (snd (createProduct d now s)))
  /\ (forall d now, fresh_id s (Order.id (fst (createOrder d now s)))
                              (snd (createOrder d now s)))
  /\ (forall d now, fresh_id s (Recommendation.id (fst (createRecommendation d now s)))
                              (snd (createRecommendation d now s)))
  /\ (forall d now, fresh_id s (Webhook.id (fst (createWebhook d now s)))
                              (snd (createWebhook d now s))).
Proof.
  intros s.
  assert (I : ids_inv s) by (apply run_ids_inv, newMemStorage_ids_inv).
  pose proof I as (I1 & I2 & I3 & I4).
  split; [exact I1|]. split; [rewrite I1; apply seq_NoDup|]. split; [exact I4|].
  pose proof (fun s' id => @allocates_fresh s s' id I) as F.
  split; [intros d now; apply F; [apply createUser_allocates, I | reflexivity]|].
  split; [intros d now; apply F; [apply createConversation_allocates, I | reflexivity]|].
  split; [intros d now; apply F; [apply createMessage_allocates, I | reflexivity]|].
  split; [intros d now; apply F; [apply createProduct_allocates, I | reflexivity]|].
  split; [intros d now; apply F; [apply createOrder_allocates, I | reflexivity]|].
  split; [intros d now; apply F; [apply createRecommendation_allocates, I | reflexivity]|].
  intros d now; apply F; [apply createWebhook_allocates, I | reflexivity].
Qed.

(** ** The store: messages and their conversations *)

Lemma spares_messages_refl s : spares_messages s s.
Proof. split; auto. Qed.

Lemma spares_messages_trans s1 s2 s3 :
  spares_messages s1 s2 -> spares_messages s2 s3 -> spares_messages s1 s3.
Proof. intros [A1 A2] [B1 B2]. split; [congruence | auto]. Qed.

Lemma spares_messages_integrity s s' :
  spares_messages s s' -> message_integrity s = true -> message_integrity s' = true.
Proof.
  intros [Hm Hc]. unfold message_integrity. rewrite Hm, !forallb_forall.
  intros H m Hin. apply Hc, H, Hin.
Qed.

Ltac sparing :=
  unfold spares_messages; run_method;
  try match goal with
      | |- context [JsMap.get ?k ?m] => destruct (JsMap.get k m)
      end;
  store_fields; (split; [reflexivity|]);
  intros k Hk; rewrite ?has_set, ?Hk, ?orb_true_r; auto.

Lemma syncOne_spares d now s : spares_messages s (snd (syncOne d now s)).
Proof.
  unfold syncOne, bind, getProductByShopifyId, read.
  destruct (find _ _) as [e|]; sparing.
Qed.

Lemma syncLoop_spares l pushed s : spares_messages s (snd (syncLoop l pushed s)).
Proof.
  revert pushed s. induction l as [|[now d] l IH]; intros pushed s.
  - apply spares_messages_refl.
  - cbn [syncLoop]. unfold bind at 1.
    pose proof (syncOne_spares d now s) as H.
    destruct (syncOne d now s) as [r s'].
    eapply spares_messages_trans; [exact H | apply IH].
Qed.

Lemma exec_spares c s :
  (forall d now, c <> CreateMessage d now) -> spares_messages s (exec c s).
Proof.
  intros Hc. destruct c; cbn [exec];
    try (exfalso; eapply Hc; reflexivity);
    try apply syncLoop_spares; sparing.
Qed.

Lemma In_set {V} (m : JsMap.t V) c v k v' :
  In (k, v') (JsMap.set c v m) -> (k, v') = (c, v) \/ In (k, v') m.
Proof.
  induction m as [|[k0 v0] m IH]; simpl.
  - intros [E|[]]. now left.
  - destruct (k0 =? c); simpl.
    + intros [E|Hin]; [now left | right; now right].
    + intros [E|Hin]; [right; now left|].
      destruct (IH Hin) as [E|Hr]; [now left | right; now right].
Qed.

Lemma createMessage_integrity d now s :
  message_integrity s = true ->
  JsMap.has (InsertMessage.conversationId d) (conversations s) = true ->
  message_integrity (snd (createMessage d now s)) = true.
Proof.
  unfold message_integrity, references_conversation. run_method.
  rewrite !forallb_forall. intros H Hd m Hin.
  unfold JsMap.values in Hin. apply in_map_iff in Hin.
  destruct Hin as ([k m'] & <- & Hin). cbn [snd].
  apply In_set in Hin. destruct Hin as [[= _ ->]|Hin]; [exact Hd|].
  apply H. unfold JsMap.values. apply in_map_iff. now exists (k, m').
Qed.

Lemma exec_integrity c s :
  message_integrity s = true -> well_referenced c s = true ->
  message_integrity (exec c s) = true.
Proof.
  intros I W.
  destruct c;
    try (apply spares_messages_integrity with (s := s);
         [apply exec_spares; discriminate | exact I]).
  cbn [exec]. apply createMessage_integrity; assumption.
Qed.

(** C9 as stated fails: [createMessage] performs no lookup, so a message
    for a conversation that does not exist is stored like any other. *)
Lemma dangling_message_is_stored :
  message_integrity
    (run [CreateMessage (InsertMessage.mk 42 "user" "hello" None) 0] newMemStorage)
  = false.
Proof. vm_compute. reflexivity. Qed.

(** C9, amended. [createMessage] stores the conversation id of its draft
    unchecked; if the store's messages all reference existing conversations
    and every [createMessage] of a history names a conversation that is in
    the store when it is called, the messages of the resulting store all
    reference existing conversations. *)
Theorem message_integrity_preserved (calls : list Call) (s : MemStorage) :
  message_integrity s = true ->
  all_well_referenced calls s = true ->
  message_integrity (run calls s) = true
  /\ (forall d now s0,
        Message.conversationId (fst (createMessage d now s0))
        = InsertMessage.conversationId d
        /\ JsMap.get (Message.id (fst (createMessage d now s0)))
                     (messages (snd (createMessage d now s0)))
           = Some (fst (createMessage d now s0))).
Proof.
  intros I W. split.
  - revert s I W. induction calls as [|c calls IH]; intros s I W; [exact I|].
    cbn [all_well_referenced] in W. apply andb_true_iff in W. destruct W as [W1 W2].
    cbn [run fold_left]. apply IH; [apply exec_integrity; assumption | exact W2].
  - intros d now s0. run_method. split; [reflexivity | apply get_set_same].
Qed.

Lemma message_integrity_preserved_witness :
  message_integrity newMemStorage = true
  /\ all_well_referenced
       [CreateConversation (InsertConversation.mk "s1" None None
                              (Some (Val "active"%string)) None None) 10;
        CreateMessage (InsertMessage.mk 1 "user" "hello" None) 11]
       newMemStorage = true
  /\ message_integrity
       (run [CreateConversation (InsertConversation.mk "s1" None None
                                   (Some (Val "active"%string)) None None) 10;
             CreateMessage (InsertMessage.mk 1 "user" "hello" None) 11]
            newMemStorage) = true.
Proof.
  split; [reflexivity|]. split; [reflexivity|].
  apply message_integrity_preserved; reflexivity.
Defined.

(** ** The store: metrics *)

Lemma getMetrics_empty (Number_ : string -> Q) :
  fst (getMetrics Number_ newMemStorage) = Metrics.mk 0 0 0%Q 0%Q 0%Q 0.
Proof. reflexivity. Qed.

Lemma distinct_attached (l : list nat) :
  distinct eqb_conversationId (map (@Val nat) l) = map (@Val nat) (distinct Nat.eqb l).
Proof.
  induction l as [|x l IH]; simpl; [reflexivity|].
  rewrite IH. f_equal. clear IH.
  induction (distinct Nat.eqb l) as [|y d IH]; simpl; [reflexivity|].
  destruct (x =? y); simpl; now rewrite IH.
Qed.

(** When every order belongs to a conversation, the conversion rate is
    the one the specification words. *)
Lemma getMetrics_conversionRate_attached (Number_ : string -> Q) (s : MemStorage) :
  Forall attached (JsMap.values (orders s)) ->
  Metrics.conversionRate (fst (getMetrics Number_ s)) = spec_conversionRate s.
Proof.
  intros H. unfold getMetrics, read, spec_conversionRate. cbn [fst Metrics.conversionRate].
  assert (E : map Order.conversationId (JsMap.values (orders s))
              = map (@Val nat)
                    (flat_map (fun o => match Order.conversationId o with
                                        | Val c => [c]
                                        | _ => []
                                        end) (JsMap.values (orders s)))).
  { induction H as [|o os [c Hc] _ IH]; simpl; [reflexivity|].
    rewrite Hc, IH. reflexivity. }
  rewrite E, distinct_attached, length_map.
  unfold conversation_ids_of_orders.
  destruct (JsMap.size (conversations s)); reflexivity.
Qed.

(** C7. With one conversation and one order that carries no conversation
    id, [getMetrics] reports a conversion rate of 1: the missing id is
    counted as a conversation.  The rate the specification words, distinct
    conversation ids among the orders over the number of conversations,
    is 0 there. *)
Theorem conversion_rate_counts_missing_id (Number_ : string -> Q) :
  let m := fst (getMetrics Number_ store_with_unattached_order) in
  Metrics.totalConversations m = 1
  /\ Metrics.totalOrders m = 1
  /\ map Order.conversationId (JsMap.values (orders store_with_unattached_order))
     = [Undefined]
  /\ Metrics.conversionRate m = 1%Q
  /\ spec_conversionRate store_with_unattached_order = 0%Q.
Proof. repeat split. Qed.

(** ** The store: top recommended products *)

Lemma length_insert_sorted {A} (cmp : A -> A -> Z) x l :
  length (insert_sorted cmp x l) = S (length l).
Proof.
  induction l as [|y l IH]; simpl; [reflexivity|].
  destruct (cmp x y <=? 0)%Z; simpl; [reflexivity | now rewrite IH].
Qed.

Lemma length_sort {A} (cmp : A -> A -> Z) l : length (sort cmp l) = length l.
Proof.
  induction l as [|x l IH]; simpl; [reflexivity|].
  now rewrite length_insert_sorted, IH.
Qed.

Lemma Forall_insert_sorted {A} (P : A -> Prop) (cmp : A -> A -> Z) x l :
  P x -> Forall P l -> Forall P (insert_sorted cmp x l).
Proof.
  intros Hx. induction 1 as [|y l Hy Hl IH]; simpl; [auto|].
  destruct (cmp x y <=? 0)%Z; auto.
Qed.

Lemma Forall_sort {A} (P : A -> Prop) (cmp : A -> A -> Z) l :
  Forall P l -> Forall P (sort cmp l).
Proof.
  induction 1 as [|x l Hx Hl IH]; simpl; [constructor|].
  now apply Forall_insert_sorted.
Qed.

Lemma Forall_firstn {A} (P : A -> Prop) (n : nat) (l : list A) :
  Forall P l -> Forall P (firstn n l).
Proof.
  intros H. revert n. induction H as [|x l Hx Hl IH]; intros [|n]; simpl; auto.
Qed.

Lemma In_distinct (l : list nat) x : In x (distinct Nat.eqb l) -> In x l.
Proof.
  induction l as [|y l IH]; simpl; [tauto|].
  intros [->|H]; [now left|]. apply filter_In in H. right. apply IH, H.
Qed.

Lemma keys_countRecommendation stats rec :
  JsMap.keys (countRecommendation stats rec)
  = if JsMap.has (Recommendation.productId rec) stats
    then JsMap.keys stats
    else JsMap.keys stats ++ [Recommendation.productId rec].
Proof.
  unfold countRecommendation.
  destruct (JsMap.has _ stats) eqn:E.
  - apply keys_set_present, has_In, E.
  - apply keys_set_absent. rewrite <- has_In, E. discriminate.
Qed.

Lemma filter_after_filter {A} (f g : A -> bool) (l : list A) :
  filter f (filter g l) = filter (fun x => g x && f x) l.
Proof.
  induction l as [|x l IH]; simpl; [reflexivity|].
  destruct (g x); simpl; [destruct (f x)|]; now rewrite IH.
Qed.

Lemma keys_productStats_from (recs : list Recommendation.t) (stats : JsMap.t Stats.t) :
  JsMap.keys (fold_left countRecommendation recs stats)
  = JsMap.keys stats
    ++ filter (fun k => negb (JsMap.has k stats))
              (distinct Nat.eqb (map Recommendation.productId recs)).
Proof.
  revert stats. induction recs as [|r recs IH]; intros stats; simpl.
  - now rewrite app_nil_r.
  - rewrite IH, keys_countRecommendation.
    set (x := Recommendation.productId r).
    set (D := distinct Nat.eqb (map Recommendation.productId recs)).
    assert (E : filter (fun k => negb (JsMap.has k (countRecommendation stats r))) D
                = filter (fun k => negb (JsMap.has k stats))
                         (filter (fun y => negb (x =? y)) D)).
    { rewrite filter_after_filter. apply filter_ext. intros k.
      unfold countRecommendation. rewrite has_set. fold x.
      now rewrite negb_orb. }
    rewrite E. destruct (JsMap.has x stats); simpl; [reflexivity|].
    now rewrite <- app_assoc.
Qed.

Lemma keys_productStats (recs : list Recommendation.t) :
  JsMap.keys (productStatsOf recs)
  = distinct Nat.eqb (map Recommendation.productId recs).
Proof.
  unfold productStatsOf. rewrite keys_productStats_from.
  cbn [JsMap.keys JsMap.empty map app].
  induction (distinct _ _) as [|x l IH]; [reflexivity|].
  cbn [filter JsMap.has existsb negb]. now rewrite IH.
Qed.

Lemma length_join (catalog : JsMap.t Product.t) (stats : JsMap.t Stats.t)
      (results : list TopProduct.t) :
  length (fold_left (joinProduct catalog) stats results)
  = length results
    + length (filter (fun k => JsMap.has k catalog) (JsMap.keys stats)).
Proof.
  revert results. induction stats as [|[k st] stats IH]; intros results; simpl.
  - lia.
  - rewrite IH. unfold joinProduct.
    destruct (JsMap.get k catalog) eqn:E.
    + assert (H : JsMap.has k catalog = true) by (apply get_has; eauto).
      rewrite H, length_app. simpl. lia.
    + assert (H : JsMap.has k catalog = false).
      { destruct (JsMap.has k catalog) eqn:Hh; [|reflexivity].
        apply get_has in Hh. destruct Hh as [v Hv]. congruence. }
      rewrite H. lia.
Qed.

Lemma Forall_join (P : TopProduct.t -> Prop) (catalog : JsMap.t Product.t)
      (stats : JsMap.t Stats.t) (results : list TopProduct.t) :
  Forall P results ->
  (forall k st product,
     In (k, st) stats -> JsMap.get k catalog = Some product ->
     forall rate, P (TopProduct.mk product (Stats.recommendations st) rate)) ->
  Forall P (fold_left (joinProduct catalog) stats results).
Proof.
  revert results. induction stats as [|[k st] stats IH]; intros results Hr Hs; simpl.
  - exact Hr.
  - apply IH.
    + unfold joinProduct. destruct (JsMap.get k catalog) eqn:E; [|exact Hr].
      apply Forall_app. split; [exact Hr|]. constructor; [|constructor].
      apply Hs with (k := k); [now left | exact E].
    + intros k' st' product Hin. apply Hs. now right.
Qed.

(** C10. Every entry returned by [getTopRecommendedProducts] carries a
    product that is on record under a recommended product id; the number
    of entries is the number of distinct recommended product ids that have
    a product record, cut at [limit]; so recommendations of a product
    without a record yield no entry, and the result can be shorter than
    [limit] although [limit] distinct product ids are recommended. *)
Theorem top_products_join_is_inner :
  (forall (limit : nat) (s : MemStorage),
     let top := fst (getTopRecommendedProducts limit s) in
     Forall (fun e => exists productId,
                 In productId (map Recommendation.productId
                                   (JsMap.values (recommendations s))) /\
                 JsMap.get productId (products s) = Some (TopProduct.product e))
            top
     /\ length top = Nat.min limit (length (recommended_products_on_record s)))
  /\ (let s := store_with_missing_product in
      length (distinct Nat.eqb (map Recommendation.productId
                                    (JsMap.values (recommendations s)))) = 2
      /\ JsMap.get 7 (products s) = None
      /\ map (fun e => Product.id (TopProduct.product e))
             (fst (getTopRecommendedProducts 2 s)) = [1]).
Proof.
  split.
  - intros limit s top. unfold top, getTopRecommendedProducts, read. cbn [fst].
    split.
    + apply Forall_firstn, Forall_sort, Forall_join; [constructor|].
      intros k st product Hin Hget rate. exists k. split; [|exact Hget].
      apply In_distinct. rewrite <- keys_productStats.
      unfold JsMap.keys. apply in_map_iff. now exists (k, st).
    + rewrite length_firstn, length_sort, length_join, keys_productStats.
      reflexivity.
  - vm_compute. repeat split.
Qed.

(** ** The store: product synchronisation *)

(** *** Spreads compose *)

Lemma spread_later {A} (a b : option A) (x : A) :
  spread b (spread a x) = spread (later a b) x.
Proof. destruct a, b; reflexivity. Qed.

Lemma later_idem {A} (a : option A) : later a a = a.
Proof. destruct a; reflexivity. Qed.

Lemma later_assoc {A} (a b c : option A) : later (later a b) c = later a (later b c).
Proof. destruct a, b, c; reflexivity. Qed.

Lemma later_band {A} (a b : option A) : later a (later b a) = later b a.
Proof. destruct a, b; reflexivity. Qed.

Lemma later_None_l {A} (a : option A) : later None a = a.
Proof. destruct a; reflexivity. Qed.

Lemma mergeProduct_twice p a b t t' :
  mergeProduct (mergeProduct p a t) b t' = mergeProduct p (composePartial a b) t'.
Proof.
  unfold mergeProduct, composePartial. cbn.
  rewrite !spread_later. reflexivity.
Qed.

Lemma composePartial_idem a : composePartial a a = a.
Proof.
  destruct a. unfold composePartial. cbn. rewrite !later_idem. reflexivity.
Qed.

Lemma composePartial_assoc a b c :
  composePartial (composePartial a b) c = composePartial a (composePartial b c).
Proof. unfold composePartial. cbn. rewrite !later_assoc. reflexivity. Qed.

Lemma composePartial_band a b :
  composePartial a (composePartial b a) = composePartial b a.
Proof. unfold composePartial. cbn. rewrite !later_band. reflexivity. Qed.

Lemma composePartial_empty_l a : composePartial emptyPartial a = a.
Proof.
  destruct a. unfold composePartial, emptyPartial. cbn.
  rewrite !later_None_l. reflexivity.
Qed.

Lemma composeDrafts_from a ds :
  composeDrafts a ds = composePartial a (composeDrafts emptyPartial ds).
Proof.
  unfold composeDrafts. revert a.
  induction ds as [|d ds IH]; intros a; simpl.
  - destruct a. unfold composePartial, emptyPartial. reflexivity.
  - rewrite IH, (IH (composePartial emptyPartial _)).
    rewrite composePartial_empty_l, composePartial_assoc. reflexivity.
Qed.

(** *** Stamps do not matter *)

Lemma unstamped_merge p q u t t' :
  unstamped p = unstamped q ->
  unstamped (mergeProduct p u t) = unstamped (mergeProduct q u t').
Proof.
  destruct p, q. unfold unstamped, mergeProduct. cbn.
  intros [= -> -> -> -> -> -> -> -> -> -> ->]. reflexivity.
Qed.

Lemma unstamped_applyDrafts ds p q :
  unstamped p = unstamped q ->
  unstamped (applyDrafts ds p) = unstamped (applyDrafts ds q).
Proof.
  unfold applyDrafts. revert p q. induction ds as [|d ds IH]; intros p q H; simpl.
  - exact H.
  - apply IH, unstamped_merge, H.
Qed.

Lemma unstamped_applyTimed tds p :
  unstamped (applyTimed tds p) = unstamped (applyDrafts (map snd tds) p).
Proof.
  unfold applyTimed, applyDrafts.
  assert (G : forall p q, unstamped p = unstamped q ->
    unstamped (fold_left (fun p td => mergeProduct p (asPartialProduct (snd td)) (fst td))
                         tds p)
    = unstamped (fold_left (fun p d => mergeProduct p (asPartialProduct d) 0)
                           (map snd tds) q)).
  { induction tds as [|[t d] tds IH]; intros p0 q0 H; simpl; [exact H|].
    apply IH, unstamped_merge, H. }
  apply G. reflexivity.
Qed.

Lemma applyDrafts_merge ds p a t :
  unstamped (applyDrafts ds (mergeProduct p a t))
  = unstamped (mergeProduct p (composeDrafts a ds) 0).
Proof.
  unfold applyDrafts, composeDrafts. revert a t.
  induction ds as [|d ds IH]; intros a t; simpl.
  - apply unstamped_merge. reflexivity.
  - rewrite mergeProduct_twice. apply IH.
Qed.

Lemma unstamped_merge_empty p t : unstamped (mergeProduct p emptyPartial t) = unstamped p.
Proof. destruct p. reflexivity. Qed.

Lemma applyDrafts_composed ds p :
  unstamped (applyDrafts ds p)
  = unstamped (mergeProduct p (composeDrafts emptyPartial ds) 0).
Proof.
  rewrite <- applyDrafts_merge with (t := 0).
  apply unstamped_applyDrafts. symmetry. apply unstamped_merge_empty.
Qed.

(** Running the same drafts over a product a second time changes nothing
    but the stamp. *)
Lemma applyDrafts_idem ds p :
  unstamped (applyDrafts ds (applyDrafts ds p)) = unstamped (applyDrafts ds p).
Proof.
  rewrite (@unstamped_applyDrafts ds _ (mergeProduct p (composeDrafts emptyPartial ds) 0))
    by apply applyDrafts_composed.
  rewrite applyDrafts_merge, applyDrafts_composed.
  rewrite composeDrafts_from, composePartial_idem. reflexivity.
Qed.

(** The same for a product that was created from the first of the drafts. *)
Lemma applyDrafts_created d ds p :
  unstamped (mergeProduct p (asPartialProduct d) 0) = unstamped p ->
  unstamped (applyDrafts (d :: ds) (applyDrafts ds p)) = unstamped (applyDrafts ds p).
Proof.
  intros Hd.
  set (X := composeDrafts emptyPartial ds).
  rewrite (@unstamped_applyDrafts (d :: ds) _ (mergeProduct p X 0))
    by apply applyDrafts_composed.
  rewrite applyDrafts_merge.
  change (composeDrafts X (d :: ds))
    with (composeDrafts (composePartial X (asPartialProduct d)) ds).
  rewrite composeDrafts_from. fold X.
  rewrite composePartial_assoc, composePartial_band.
  rewrite <- mergeProduct_twice with (t := 0).
  rewrite applyDrafts_composed. fold X.
  apply unstamped_merge, Hd.
Qed.

Lemma created_absorbs_draft d c t :
  let p := Product.mk c
            (prop (InsertProduct.shopifyId d)) (InsertProduct.title d)
            (prop (InsertProduct.description d)) (InsertProduct.price d)
            (prop (InsertProduct.compareAtPrice d)) (prop (InsertProduct.category d))
            (prop (InsertProduct.tags d)) (prop (InsertProduct.inventory d))
            (prop (InsertProduct.imageUrl d)) (prop (InsertProduct.isActive d)) t in
  unstamped (mergeProduct p (asPartialProduct d) 0) = unstamped p.
Proof.
  destruct d as [sid ti de pr ca cat ta inv im ac].
  unfold unstamped, mergeProduct, asPartialProduct. cbn.
  destruct sid, de, ca, cat, ta, inv, im, ac; reflexivity.
Qed.

(** *** The loop, on the product map *)

Lemma syncStep_counter td st : snd st <= snd (syncStep td st).
Proof.
  destruct td as [t d], st as [m c]. unfold syncStep.
  destruct (find _ _) as [e|]; [destruct (JsMap.get _ _)|]; simpl; lia.
Qed.

Lemma syncOne_install d t s :
  snd (syncOne d t s) = install s (syncStep (t, d) (products s, currentId s)).
Proof.
  unfold syncOne, syncStep, bind, getProductByShopifyId, read. cbn [fst snd].
  destruct (find _ _) as [e|].
  - run_method. destruct (JsMap.get _ _); cbn [fst snd]; unfold install;
      cbn [fst snd]; rewrite Nat.sub_diag, app_nil_r; destruct s; reflexivity.
  - run_method. unfold install. cbn [fst snd].
    replace (S (currentId s) - currentId s) with 1 by lia. reflexivity.
Qed.

Lemma install_install s st1 st2 :
  currentId s <= snd st1 -> snd st1 <= snd st2 ->
  install (install s st1) st2 = install s st2.
Proof.
  intros H1 H2. unfold install. cbn [users conversations messages orders
    recommendations webhooks currentId issued fst snd].
  rewrite <- app_assoc. do 2 f_equal.
  replace (snd st2 - currentId s)
    with ((snd st1 - currentId s) + (snd st2 - snd st1)) by lia.
  rewrite seq_app. do 2 f_equal. lia.
Qed.

Lemma syncSteps_counter tds st : snd st <= snd (syncSteps tds st).
Proof.
  unfold syncSteps. revert st. induction tds as [|td tds IH]; intros st; simpl.
  - lia.
  - etransitivity; [apply (syncStep_counter td) | apply IH].
Qed.

Lemma syncLoop_install tds pushed s :
  snd (syncLoop tds pushed s) = install s (syncSteps tds (products s, currentId s)).
Proof.
  revert pushed s. induction tds as [|[t d] tds IH]; intros pushed s.
  - unfold install. simpl. rewrite Nat.sub_diag, app_nil_r. destruct s; reflexivity.
  - cbn [syncLoop]. unfold bind at 1.
    pose proof (syncOne_install d t s) as E.
    destruct (syncOne d t s) as [r s']. cbn [snd] in E. rewrite IH, E.
    set (st1 := syncStep (t, d) (products s, currentId s)).
    assert (H1 : currentId s <= snd st1) by apply (syncStep_counter (t, d) (products s, currentId s)).
    replace (products (install s st1), currentId (install s st1)) with st1
      by (destruct st1; reflexivity).
    rewrite install_install; [reflexivity | exact H1 | apply syncSteps_counter].
Qed.

(** *** Well-formed product maps *)

Lemma eqb_nullable_string_eq (x y : Nullable string) :
  eqb_nullable String.eqb x y = true <-> x = y.
Proof.
  destruct x, y; simpl; split; try discriminate; try reflexivity.
  - intros H. apply String.eqb_eq in H. now subst.
  - intros [= ->]. apply String.eqb_refl.
Qed.

Lemma hit_keeps_shopifyId p d t :
  hits (Product.shopifyId p) d = true ->
  Product.shopifyId (mergeProduct p (asPartialProduct d) t) = Product.shopifyId p.
Proof.
  unfold hits, lookup_key. cbn [mergeProduct asPartialProduct Product.shopifyId
    PartialProduct.shopifyId].
  destruct (InsertProduct.shopifyId d) as [v|]; simpl; [|reflexivity].
  intros H. apply eqb_nullable_string_eq in H. now subst.
Qed.

Lemma In_keys_set {V} (m : JsMap.t V) k v x :
  In x (JsMap.keys (JsMap.set k v m)) -> x = k \/ In x (JsMap.keys m).
Proof.
  destruct (in_dec Nat.eq_dec k (JsMap.keys m)) as [Hin|Hout].
  - rewrite keys_set_present by exact Hin. tauto.
  - rewrite keys_set_absent by exact Hout. rewrite in_app_iff. simpl. intuition.
Qed.

Lemma Forall_set {V} (P : nat * V -> Prop) (m : JsMap.t V) k v :
  Forall P m -> P (k, v) -> Forall P (JsMap.set k v m).
Proof.
  intros H Hk. induction H as [|e m He Hm IH]; simpl.
  - constructor; [exact Hk | constructor].
  - destruct (fst e =? k); constructor; auto.
Qed.

Lemma find_values_In {V} (f : V -> bool) (m : JsMap.t V) e :
  find f (JsMap.values m) = Some e -> exists k, In (k, e) m.
Proof.
  intros H. apply find_some in H. destruct H as [H _].
  unfold JsMap.values in H. apply in_map_iff in H.
  destruct H as ([k e'] & <- & Hin). now exists k.
Qed.

Lemma below_step k td st : below k st -> below k (syncStep td st).
Proof.
  destruct td as [t d], st as [m c]. unfold below, syncStep. cbn [fst snd].
  intros (Hc & Hk & Hid).
  destruct (find _ _) as [e|] eqn:Ef.
  - destruct (JsMap.get (Product.id e) m) as [p'|] eqn:Eg; cbn [fst snd];
      [|auto].
    split; [exact Hc|]. split.
    + intros Hin. apply In_keys_set in Hin. destruct Hin as [->|Hin]; [|tauto].
      apply Hk. eapply get_Some_key. exact Eg.
    + apply Forall_set; [exact Hid|]. cbn [snd mergeProduct asPartialProduct
        Product.id PartialProduct.id spread].
      apply get_Some_In in Eg. rewrite Forall_forall in Hid. apply (Hid _ Eg).
  - cbn [fst snd]. split; [lia|]. split.
    + intros Hin. apply In_keys_set in Hin. destruct Hin as [->|Hin]; [lia | tauto].
    + apply Forall_set; [exact Hid|]. cbn. lia.
Qed.

Lemma below_steps k tds st : below k st -> below k (syncSteps tds st).
Proof.
  unfold syncSteps. revert st. induction tds as [|td tds IH]; intros st H; simpl.
  - exact H.
  - apply IH, below_step, H.
Qed.

Lemma products_wf_cons c k p m :
  products_wf c ((k, p) :: m) ->
  Product.id p = k /\ below k (m, c) /\ products_wf c m.
Proof.
  unfold products_wf, below. cbn [JsMap.keys map fst snd].
  intros [Hn Hf]. inversion Hn as [|? ? Hk Hn']; subst.
  inversion Hf as [|? ? [Hid Hlt] Hf']; subst. cbn [fst snd] in *.
  repeat split; auto.
  rewrite Forall_forall in *. intros e He. destruct (Hf' e He) as [E _].
  rewrite E. intros <-. apply Hk. apply in_map, He.
Qed.

Lemma products_wf_step c td m :
  products_wf c m ->
  products_wf (snd (syncStep td (m, c))) (fst (syncStep td (m, c))).
Proof.
  destruct td as [t d]. unfold products_wf, syncStep.
  intros [Hn Hf].
  destruct (find _ _) as [e|] eqn:Ef.
  - destruct (JsMap.get (Product.id e) m) as [p'|] eqn:Eg; cbn [fst snd];
      [|auto].
    split.
    + rewrite keys_set_present; [exact Hn | eapply get_Some_key; exact Eg].
    + apply Forall_set; [exact Hf|]. cbn [fst snd mergeProduct asPartialProduct
        Product.id PartialProduct.id spread].
      apply get_Some_In in Eg. rewrite Forall_forall in Hf. apply (Hf _ Eg).
  - cbn [fst snd].
    assert (Hc : ~ In c (JsMap.keys m)).
    { intros Hin. unfold JsMap.keys in Hin. apply in_map_iff in Hin.
      destruct Hin as (e & He & Hin). rewrite Forall_forall in Hf.
      destruct (Hf e Hin). lia. }
    split.
    + rewrite keys_set_absent by exact Hc.
      apply NoDup_app; [exact Hn | repeat constructor; tauto |].
      intros x Hx [<-|[]]. tauto.
    + apply Forall_set; [|cbn; lia].
      eapply Forall_impl; [|exact Hf]. cbn. intros e [? ?]. split; lia.
Qed.

Lemma products_wf_steps tds c m :
  products_wf c m ->
  products_wf (snd (syncSteps tds (m, c))) (fst (syncSteps tds (m, c))).
Proof.
  unfold syncSteps. revert c m. induction tds as [|td tds IH]; intros c m H; simpl.
  - exact H.
  - pose proof (products_wf_step td H) as H'.
    destruct (syncStep td (m, c)) as [m' c']. apply IH, H'.
Qed.

(** *** The loop, entry by entry *)

(** A draft that is not looked up by the external id of the first entry
    passes it by. *)
Lemma syncStep_miss k p m c t d :
  hits (Product.shopifyId p) d = false -> below k (m, c) ->
  syncStep (t, d) ((k, p) :: m, c)
  = ((k, p) :: fst (syncStep (t, d) (m, c)), snd (syncStep (t, d) (m, c))).
Proof.
  intros Hmiss (Hc & Hk & Hid). cbn [fst snd] in *.
  unfold syncStep. cbn [JsMap.values map snd find].
  change (same_shopifyId (lookup_key d) p) with (hits (Product.shopifyId p) d).
  rewrite Hmiss. fold (JsMap.values m).
  destruct (find _ (JsMap.values m)) as [e|] eqn:Ef.
  - assert (Hne : k <> Product.id e).
    { destruct (find_values_In _ _ Ef) as [k' Hin].
      rewrite Forall_forall in Hid. intros ->. apply (Hid _ Hin). reflexivity. }
    assert (Eg : JsMap.get (Product.id e) ((k, p) :: m) = JsMap.get (Product.id e) m).
    { unfold JsMap.get. cbn [find fst].
      destruct (Nat.eqb_spec k (Product.id e)); [contradiction | reflexivity]. }
    rewrite Eg. destruct (JsMap.get (Product.id e) m); [|reflexivity].
    cbn [JsMap.set fst snd].
    destruct (Nat.eqb_spec k (Product.id e)); [contradiction | reflexivity].
  - cbn [JsMap.set fst snd].
    destruct (Nat.eqb_spec k c); [lia | reflexivity].
Qed.

(** A draft that is looked up by it updates it in place. *)
Lemma syncStep_hit k p m c t d :
  hits (Product.shopifyId p) d = true -> Product.id p = k ->
  syncStep (t, d) ((k, p) :: m, c)
  = ((k, mergeProduct p (asPartialProduct d) t) :: m, c).
Proof.
  intros Hhit Hid. unfold syncStep. cbn [JsMap.values map snd find].
  change (same_shopifyId (lookup_key d) p) with (hits (Product.shopifyId p) d).
  rewrite Hhit, Hid. unfold JsMap.get. cbn [find fst snd JsMap.set].
  rewrite Nat.eqb_refl. reflexivity.
Qed.

(** The first entry receives the drafts looked up by its external id, in
    their order; the rest of the map sees the other drafts only. *)
Lemma syncSteps_cons tds :
  forall k p m c,
    Product.id p = k -> below k (m, c) ->
    syncSteps tds ((k, p) :: m, c)
    = ((k, applyTimed (filter (fun td => hits (Product.shopifyId p) (snd td)) tds) p)
         :: fst (syncSteps
                   (filter (fun td => negb (hits (Product.shopifyId p) (snd td))) tds)
                   (m, c)),
       snd (syncSteps
              (filter (fun td => negb (hits (Product.shopifyId p) (snd td))) tds)
              (m, c))).
Proof.
  induction tds as [|[t d] tds IH]; intros k p m c Hid Hb.
  - reflexivity.
  - unfold syncSteps at 1. cbn [fold_left filter snd].
    fold (syncSteps tds (syncStep (t, d) ((k, p) :: m, c))).
    destruct (hits (Product.shopifyId p) d) eqn:Eh; cbn [negb].
    + rewrite syncStep_hit by assumption.
      specialize (IH k (mergeProduct p (asPartialProduct d) t) m c Hid Hb).
      rewrite (hit_keeps_shopifyId _ _ _ Eh) in IH.
      rewrite IH. reflexivity.
    + rewrite syncStep_miss by assumption.
      change (syncSteps ((t, d) :: ?l) (m, c))
        with (syncSteps l (syncStep (t, d) (m, c))).
      pose proof (below_step (t, d) Hb) as Hb'.
      destruct (syncStep (t, d) (m, c)) as [m' c']. cbn [fst snd].
      specialize (IH k p m' c' Hid Hb'). rewrite IH.
      reflexivity.
Qed.

Lemma applyTimed_shopifyId tds p :
  Forall (fun td => hits (Product.shopifyId p) (snd td) = true) tds ->
  Product.shopifyId (applyTimed tds p) = Product.shopifyId p.
Proof.
  unfold applyTimed. revert p. induction tds as [|[t d] tds IH]; intros p H; simpl.
  - reflexivity.
  - inversion H as [|? ? Hd Hr]; subst. cbn [snd] in Hd.
    rewrite IH; rewrite (hit_keeps_shopifyId _ _ _ Hd); [reflexivity | exact Hr].
Qed.

Lemma map_snd_filter {A B} (f : B -> bool) (l : list (A * B)) :
  map snd (filter (fun x => f (snd x)) l) = filter f (map snd l).
Proof.
  induction l as [|[a b] l IH]; simpl; [reflexivity|].
  destruct (f b); simpl; now rewrite IH.
Qed.

(** *** Once is enough *)

(** On a settled map the loop changes stamps only. *)
Lemma settled_fixed m :
  forall tds c,
    products_wf c m -> settled (map snd tds) m ->
    unstamped_map (fst (syncSteps tds (m, c))) = unstamped_map m
    /\ snd (syncSteps tds (m, c)) = c.
Proof.
  induction m as [|[k p] m IH]; intros tds c Hwf Hs.
  - cbn [settled] in Hs. destruct tds; [|discriminate]. split; reflexivity.
  - apply products_wf_cons in Hwf. destruct Hwf as (Hid & Hb & Hwf).
    cbn [settled] in Hs. destruct Hs as [Hp Hrest].
    cbv beta delta [JsMap.t] in *.
    rewrite (@syncSteps_cons tds k p m c Hid Hb). cbn [fst snd].
    rewrite <- !map_snd_filter in *.
    destruct (IH _ c Hwf Hrest) as [E1 E2].
    split; [|exact E2].
    unfold unstamped_map. cbn [map fst snd]. f_equal; [|exact E1]. f_equal.
    rewrite unstamped_applyTimed. exact Hp.
Qed.

(** After a loop over an empty map the map is settled. *)
Lemma settled_from_empty (n : nat) :
  forall tds c, length tds <= n -> settled (map snd tds) (fst (syncSteps tds ([], c))).
Proof.
  induction n as [|n IH]; intros tds c Hlen.
  - destruct tds; [reflexivity | simpl in Hlen; lia].
  - destruct tds as [|[t d] tds]; [reflexivity|].
    unfold syncSteps. cbn [fold_left].
    change (syncStep (t, d) ([], c)) with
      ([(c, Product.mk c
            (prop (InsertProduct.shopifyId d)) (InsertProduct.title d)
            (prop (InsertProduct.description d)) (InsertProduct.price d)
            (prop (InsertProduct.compareAtPrice d)) (prop (InsertProduct.category d))
            (prop (InsertProduct.tags d)) (prop (InsertProduct.inventory d))
            (prop (InsertProduct.imageUrl d)) (prop (InsertProduct.isActive d)) t)],
       S c).
    set (p0 := Product.mk c _ _ _ _ _ _ _ _ _ _ t).
    fold (syncSteps tds ([(c, p0)], S c)).
    assert (Hb : below c ([], S c)).
    { unfold below. cbn. repeat split; auto. }
    cbv beta delta [JsMap.t] in *.
    rewrite (@syncSteps_cons tds c p0 [] (S c) eq_refl Hb).
    cbn [fst settled map snd].
    set (mine := filter (fun td => hits (Product.shopifyId p0) (snd td)) tds).
    set (others := filter (fun td => negb (hits (Product.shopifyId p0) (snd td))) tds).
    assert (Hsid : Product.shopifyId (applyTimed mine p0) = Product.shopifyId p0).
    { apply applyTimed_shopifyId. apply Forall_forall. intros td Htd.
      apply filter_In in Htd. tauto. }
    rewrite Hsid.
    assert (Hself : hits (Product.shopifyId p0) d = true).
    { unfold hits, lookup_key. cbn. apply eqb_nullable_string_eq. reflexivity. }
    cbn [filter]. rewrite Hself. cbn [negb].
    rewrite <- !map_snd_filter. fold mine. fold others.
    split.
    + rewrite (@unstamped_applyDrafts (d :: map snd mine) _
                 (applyDrafts (map snd mine) p0))
        by apply unstamped_applyTimed.
      rewrite unstamped_applyTimed.
      apply applyDrafts_created. apply created_absorbs_draft.
    + apply IH. simpl in Hlen.
      pose proof (filter_length_le
                    (fun td => negb (hits (Product.shopifyId p0) (snd td))) tds).
      fold others in H. lia.
Qed.

(** After a loop over any well-formed map the map is settled. *)
Lemma settled_after m :
  forall tds c,
    products_wf c m -> settled (map snd tds) (fst (syncSteps tds (m, c))).
Proof.
  induction m as [|[k p] m IH]; intros tds c Hwf.
  - apply settled_from_empty with (n := length tds). lia.
  - apply products_wf_cons in Hwf. destruct Hwf as (Hid & Hb & Hwf).
    cbv beta delta [JsMap.t] in *.
    rewrite (@syncSteps_cons tds k p m c Hid Hb). cbn [fst settled].
    set (mine := filter (fun td => hits (Product.shopifyId p) (snd td)) tds).
    set (others := filter (fun td => negb (hits (Product.shopifyId p) (snd td))) tds).
    assert (Hsid : Product.shopifyId (applyTimed mine p) = Product.shopifyId p).
    { apply applyTimed_shopifyId. apply Forall_forall. intros td Htd.
      apply filter_In in Htd. tauto. }
    rewrite Hsid, <- !map_snd_filter. fold mine. fold others.
    split.
    + rewrite (@unstamped_applyDrafts (map snd mine) _
                 (applyDrafts (map snd mine) p))
        by apply unstamped_applyTimed.
      rewrite unstamped_applyTimed. apply applyDrafts_idem.
    + apply IH, Hwf.
Qed.

(** *** What [syncProducts] returns and leaves behind *)

Lemma map_snd_timed clock l : map snd (timed clock l) = l.
Proof.
  unfold timed. generalize 0 as start.
  induction l as [|d l IH]; intros start; simpl; [reflexivity|].
  now rewrite IH.
Qed.

Lemma length_timed clock l : length (timed clock l) = length l.
Proof. rewrite <- (map_snd_timed clock l) at 2. now rewrite length_map. Qed.

Lemma syncOne_pushes d t s :
  products_wf (currentId s) (products s) -> exists p, fst (syncOne d t s) = Some p.
Proof.
  intros [Hn Hf]. unfold syncOne, bind, getProductByShopifyId, read.
  destruct (find _ _) as [e|] eqn:Ef.
  - destruct (find_values_In _ _ Ef) as [k Hin].
    rewrite Forall_forall in Hf. destruct (Hf _ Hin) as [Hid _]. cbn [snd fst] in Hid.
    assert (Hk : In (Product.id e) (JsMap.keys (products s))).
    { rewrite Hid. unfold JsMap.keys. apply in_map_iff. now exists (k, e). }
    run_method. destruct (JsMap.get (Product.id e) (products s)) eqn:Eg.
    + cbn [fst]. eauto.
    + apply get_None in Eg. contradiction.
  - run_method. eauto.
Qed.

Lemma syncOne_wf d t s :
  products_wf (currentId s) (products s) ->
  products_wf (currentId (snd (syncOne d t s))) (products (snd (syncOne d t s))).
Proof.
  intros H. rewrite syncOne_install. unfold install. cbn [products currentId].
  apply products_wf_step, H.
Qed.

Lemma syncLoop_pushes tds pushed s :
  products_wf (currentId s) (products s) ->
  length (fst (syncLoop tds pushed s)) = length pushed + length tds.
Proof.
  revert pushed s. induction tds as [|[t d] tds IH]; intros pushed s H.
  - simpl. lia.
  - cbn [syncLoop]. unfold bind at 1.
    destruct (@syncOne_pushes d t s H) as [p Hp]. pose proof (@syncOne_wf d t s H) as H'.
    destruct (syncOne d t s) as [r s']. cbn [fst snd] in *. subst r.
    rewrite IH by exact H'. rewrite length_app. simpl. lia.
Qed.

Lemma map_unstamped_map (f : Product.t -> Nullable string) m :
  (forall p, f (unstamped p) = f p) ->
  map f (JsMap.values (unstamped_map m)) = map f (JsMap.values m).
Proof.
  intros Hf. unfold JsMap.values, unstamped_map. rewrite !map_map.
  apply map_ext. intros e. apply Hf.
Qed.

(** *** Entries found by a field *)

Lemma set_fresh {V} (m : JsMap.t V) k v :
  ~ In k (JsMap.keys m) -> JsMap.set k v m = m ++ [(k, v)].
Proof.
  induction m as [|[j w] m IH]; intros Hnotin; [reflexivity|].
  cbn [JsMap.set fst]. cbn [JsMap.keys map fst] in Hnotin.
  destruct (j =? k) eqn:E.
  - apply Nat.eqb_eq in E. subst j. exfalso. apply Hnotin. now left.
  - cbn [app]. f_equal. apply IH. intros Hin. apply Hnotin. now right.
Qed.

Lemma In_get_NoDup {V} (m : JsMap.t V) k v :
  NoDup (JsMap.keys m) -> In (k, v) m -> JsMap.get k m = Some v.
Proof.
  unfold JsMap.get. induction m as [|[j w] m IH]; intros Hnd Hin; [contradiction|].
  cbn [JsMap.keys map fst] in Hnd. inversion Hnd as [|? ? Hnotin Hnd']; subst.
  cbn [find fst]. destruct Hin as [E|Hin].
  - inversion E; subst. now rewrite Nat.eqb_refl.
  - destruct (j =? k) eqn:E; [|now apply IH].
    apply Nat.eqb_eq in E. subst j. exfalso. apply Hnotin.
    apply in_map_iff. now exists (k, v).
Qed.

Lemma found_is_filed (f : Product.t -> bool) c m e :
  products_wf c m -> find f (JsMap.values m) = Some e ->
  JsMap.get (Product.id e) m = Some e.
Proof.
  intros [Hnd Hf] Hfind. destruct (find_values_In f m Hfind) as [k Hin].
  rewrite Forall_forall in Hf. destruct (Hf _ Hin) as [Hid _]. cbn [fst snd] in Hid.
  rewrite Hid. now apply In_get_NoDup.
Qed.

Lemma find_values_set_found (f : Product.t -> bool) c m e v :
  products_wf c m -> find f (JsMap.values m) = Some e -> f v = true ->
  find f (JsMap.values (JsMap.set (Product.id e) v m)) = Some v.
Proof.
  unfold JsMap.values. induction m as [|[k p] m IH]; intros Hwf Hfind Hv;
    [discriminate|].
  destruct (products_wf_cons Hwf) as (Hid & Hbelow & Hwf').
  cbn [map snd find] in Hfind. cbn [JsMap.set fst].
  destruct (f p) eqn:Ep.
  - inversion Hfind; subst e. rewrite Hid, Nat.eqb_refl. cbn [map snd find].
    now rewrite Hv.
  - destruct (find_values_In f m Hfind) as [k' Hin].
    destruct Hbelow as (_ & _ & Hne). cbn [fst] in Hne.
    rewrite Forall_forall in Hne. specialize (Hne _ Hin). cbn [snd] in Hne.
    assert (E : (k =? Product.id e) = false) by (apply Nat.eqb_neq; congruence).
    rewrite E. cbn [map snd find]. rewrite Ep. now apply IH.
Qed.

Lemma find_values_set_aside {V} (f : V -> bool) (m : JsMap.t V) k e v :
  JsMap.get k m = Some e -> f e = false -> f v = false ->
  find f (JsMap.values (JsMap.set k v m)) = find f (JsMap.values m).
Proof.
  unfold JsMap.values, JsMap.get.
  induction m as [|[j w] m IH]; intros Hg He Hv; [discriminate|].
  cbn [find fst] in Hg. cbn [JsMap.set fst]. destruct (j =? k) eqn:E.
  - inversion Hg; subst w. cbn [map snd find]. now rewrite He, Hv.
  - cbn [map snd find]. destruct (f w); [reflexivity|]. now apply IH.
Qed.

Lemma find_values_set_after {V} (f : V -> bool) (m : JsMap.t V) k v e :
  ~ In k (JsMap.keys m) -> find f (JsMap.values m) = Some e ->
  find f (JsMap.values (JsMap.set k v m)) = Some e.
Proof.
  intros Hk Hf. rewrite set_fresh by exact Hk. unfold JsMap.values in *.
  rewrite map_app. induction (map snd m) as [|y l IH]; [discriminate|].
  cbn [app find] in *. destruct (f y); [exact Hf | now apply IH].
Qed.

Lemma eqb_nullable_string_refl (x : Nullable string) :
  eqb_nullable String.eqb x x = true.
Proof. now apply eqb_nullable_string_eq. Qed.

Lemma find_values_set_new {V} (P : V -> bool) (m : JsMap.t V) k v :
  find P (JsMap.values m) = None -> P v = true ->
  find P (JsMap.values (JsMap.set k v m)) = Some v.
Proof.
  unfold JsMap.values. induction m as [|[k0 v0] m IH]; simpl; intros Hn Hv.
  - now rewrite Hv.
  - destruct (P v0) eqn:E0; [discriminate|].
    destruct (k0 =? k); simpl; [now rewrite Hv|]. rewrite E0. now apply IH.
Qed.

Lemma find_values_appended {V} (f : V -> bool) (m : JsMap.t V) k v :
  ~ In k (JsMap.keys m) ->
  find f (JsMap.values (JsMap.set k v m))
  = match find f (JsMap.values m) with
    | Some old => Some old
    | None => if f v then Some v else None
    end.
Proof.
  intros Hk. rewrite set_fresh by exact Hk. unfold JsMap.values.
  rewrite map_app. cbn [map snd].
  induction (map snd m) as [|y l IH]; cbn [app find]; [reflexivity|].
  destruct (f y); [reflexivity | exact IH].
Qed.

(** *** What the loop writes *)

Lemma last_set_app {A} (l : list (option A)) (x : option A) :
  last_set (l ++ [x]) = later (last_set l) x.
Proof. unfold last_set. now rewrite fold_left_app. Qed.

Lemma holds_spread {A} (l : list (option A)) (x : option A) (old : A) :
  holds (last_set l) old -> holds (last_set (l ++ [x])) (spread x old).
Proof.
  intros H. rewrite last_set_app. destruct x; cbn [later spread holds]; auto.
Qed.

Lemma holds_prop {A} (x : option (Nullable A)) : holds (last_set [x]) (prop x).
Proof. destruct x; reflexivity. Qed.

Lemma written_by_nil p : written_by [] p.
Proof. unfold written_by. cbn. tauto. Qed.

(** An update writes its draft over what was written before. *)
Lemma written_by_merge same e d t :
  written_by same e ->
  written_by (same ++ [d]) (mergeProduct e (asPartialProduct d) t).
Proof.
  unfold written_by. rewrite !map_app. cbn [map].
  intros (H1 & H2 & H3 & H4 & H5 & H6 & H7 & H8 & H9 & H10).
  unfold mergeProduct, asPartialProduct.
  cbn [Product.shopifyId Product.title Product.description Product.price
       Product.compareAtPrice Product.category Product.tags Product.inventory
       Product.imageUrl Product.isActive
       PartialProduct.shopifyId PartialProduct.title PartialProduct.description
       PartialProduct.price PartialProduct.compareAtPrice PartialProduct.category
       PartialProduct.tags PartialProduct.inventory PartialProduct.imageUrl
       PartialProduct.isActive].
  repeat match goal with |- _ /\ _ => split end; now apply holds_spread.
Qed.

Lemma syncStep_find_other x t d m c :
  products_wf c m -> hits x d = false ->
  find (same_shopifyId x) (JsMap.values (fst (syncStep (t, d) (m, c))))
  = find (same_shopifyId x) (JsMap.values m).
Proof.
  intros Hwf Eh.
  assert (Hx : forall q, Product.shopifyId q = lookup_key d ->
                         same_shopifyId x q = false).
  { intros q Hq. unfold same_shopifyId. rewrite Hq.
    destruct (eqb_nullable String.eqb (lookup_key d) x) eqn:E; [|reflexivity].
    apply eqb_nullable_string_eq in E. unfold hits in Eh.
    rewrite <- E, eqb_nullable_string_refl in Eh. discriminate. }
  unfold syncStep.
  destruct (find (same_shopifyId (lookup_key d)) (JsMap.values m)) as [e|] eqn:Ef.
  - pose proof (found_is_filed _ Hwf Ef) as Hg. rewrite Hg. cbn [fst].
    apply find_some in Ef. destruct Ef as [_ Ef]. unfold same_shopifyId in Ef.
    apply eqb_nullable_string_eq in Ef.
    apply (@find_values_set_aside _ (same_shopifyId x) m (Product.id e) e _ Hg);
      apply Hx; [exact Ef|].
    rewrite hit_keeps_shopifyId; [exact Ef|].
    unfold hits. rewrite Ef. apply eqb_nullable_string_refl.
  - cbn [fst]. rewrite find_values_appended.
    + rewrite Hx by reflexivity.
      destruct (find (same_shopifyId x) (JsMap.values m)); reflexivity.
    + destruct Hwf as [_ Hf]. intros Hin. unfold JsMap.keys in Hin.
      apply in_map_iff in Hin. destruct Hin as (e & He & Hin).
      rewrite Forall_forall in Hf. destruct (Hf _ Hin). lia.
Qed.

Lemma syncStep_find_hit x t d m c :
  products_wf c m -> hits x d = true ->
  match find (same_shopifyId x) (JsMap.values m) with
  | Some e =>
      find (same_shopifyId x) (JsMap.values (fst (syncStep (t, d) (m, c))))
      = Some (mergeProduct e (asPartialProduct d) t)
  | None =>
      exists created,
        find (same_shopifyId x) (JsMap.values (fst (syncStep (t, d) (m, c))))
        = Some created
        /\ Product.id created = c /\ written_by [d] created
  end.
Proof.
  intros Hwf Eh. apply eqb_nullable_string_eq in Eh. unfold syncStep. rewrite <- Eh.
  destruct (find (same_shopifyId x) (JsMap.values m)) as [e|] eqn:Ef.
  - rewrite (found_is_filed _ Hwf Ef). cbn [fst].
    apply (find_values_set_found _ _ Hwf Ef).
    unfold same_shopifyId. apply eqb_nullable_string_eq.
    apply find_some in Ef. destruct Ef as [_ Ef]. unfold same_shopifyId in Ef.
    apply eqb_nullable_string_eq in Ef.
    rewrite hit_keeps_shopifyId; [exact Ef|]. unfold hits. rewrite Ef, <- Eh.
    apply eqb_nullable_string_refl.
  - cbn [fst].
    match goal with |- context [JsMap.set c ?v m] => exists v end.
    split; [|split; [reflexivity|]].
    + apply find_values_set_new; [exact Ef|].
      unfold same_shopifyId. cbn [Product.shopifyId]. fold (lookup_key d).
      rewrite <- Eh. apply eqb_nullable_string_refl.
    + unfold written_by. cbn [map Product.shopifyId Product.title Product.description
        Product.price Product.compareAtPrice Product.category Product.tags
        Product.inventory Product.imageUrl Product.isActive].
      repeat match goal with |- _ /\ _ => split end;
        first [apply holds_prop | reflexivity].
Qed.

(** Under an external id [x], after the loop: the product that was found
    under [x] before, if there was one, else a new one if a draft carries
    [x]; written by the drafts that carry [x]. *)
Lemma syncSteps_written (x : Nullable string) tds :
  forall m c,
    products_wf c m ->
    match find (same_shopifyId x) (JsMap.values m) with
    | Some e =>
        exists p,
          find (same_shopifyId x) (JsMap.values (fst (syncSteps tds (m, c)))) = Some p
          /\ Product.id p = Product.id e
          /\ written_by (filter (hits x) (map snd tds)) p
    | None =>
        (filter (hits x) (map snd tds) = [] ->
         find (same_shopifyId x) (JsMap.values (fst (syncSteps tds (m, c)))) = None)
        /\ (filter (hits x) (map snd tds) <> [] ->
            exists p,
              find (same_shopifyId x) (JsMap.values (fst (syncSteps tds (m, c))))
              = Some p
              /\ c <= Product.id p
              /\ written_by (filter (hits x) (map snd tds)) p)
    end.
Proof.
  induction tds as [|[t d] tds IH] using rev_ind; intros m c Hwf.
  - cbn [syncSteps fold_left fst map filter].
    destruct (find _ _) as [e|] eqn:E0.
    + exists e. split; [reflexivity|]. split; [reflexivity | apply written_by_nil].
    + split; [reflexivity | intros H; now contradiction H].
  - specialize (IH m c Hwf).
    unfold syncSteps. rewrite fold_left_app. cbn [fold_left]. fold (syncSteps tds (m, c)).
    pose proof (@products_wf_steps tds c m Hwf) as Hwf'.
    pose proof (syncSteps_counter tds (m, c)) as Hc. cbn [snd] in Hc.
    rewrite map_app, filter_app. cbn [map snd filter].
    destruct (syncSteps tds (m, c)) as [m1 c1]. cbn [fst snd] in *.
    destruct (hits x d) eqn:Eh.
    + pose proof (@syncStep_find_hit x t d m1 c1 Hwf' Eh) as Hs.
      destruct (find (same_shopifyId x) (JsMap.values m)) as [e|].
      * destruct IH as (p & Hp & Hid & Hw). rewrite Hp in Hs.
        eexists. split; [exact Hs|]. split; [exact Hid|].
        now apply written_by_merge.
      * destruct IH as [IH0 IH1]. split.
        { intros E. now destruct (filter (hits x) (map snd tds)). }
        intros _. destruct (filter (hits x) (map snd tds)) as [|d0 same] eqn:Es.
        -- rewrite IH0 in Hs by reflexivity.
           destruct Hs as (created & Hf & Hid & Hw).
           exists created. split; [exact Hf|]. split; [lia | exact Hw].
        -- destruct IH1 as (p & Hp & Hid & Hw); [discriminate|].
           rewrite Hp in Hs. eexists. split; [exact Hs|]. split; [exact Hid|].
           now apply written_by_merge.
    + rewrite app_nil_r, (@syncStep_find_other x t d m1 c1 Hwf' Eh). exact IH.
Qed.

(** C5 as stated fails.  After [updateProduct] has rewritten the [id] of
    the one product of a store, a first [syncProducts] of two drafts with
    external ids leaves two products and a second one three: the product
    found for the first draft is updated under the id it shows, which is
    the key of another product the second time, so the second draft finds
    none and a product is created. *)
Lemma second_sync_differs_after_id_patch :
  JsMap.size (products store_with_patched_id) = 1
  /\ JsMap.size (products patched_once) = 2
  /\ JsMap.size (products patched_twice) = 3
  /\ map Product.shopifyId (JsMap.values (products patched_once))
     = [Val "sku-1"; Val "sku-2"]%string
  /\ map Product.shopifyId (JsMap.values (products patched_twice))
     = [Val "sku-1"; Val "sku-1"; Val "sku-2"]%string
  /\ ~ same_but_syncedAt patched_twice patched_once.
Proof.
  repeat match goal with |- _ /\ _ => split end; try reflexivity.
  intros (_ & _ & _ & Hp & _). vm_compute in Hp. discriminate Hp.
Qed.

(** C5, amended.  On a store whose products are filed under their own ids,
    below the counter, running [syncProducts] a second time on the same
    drafts leaves every map, the counter and the history as the first run
    left them, the products differing at most in [syncedAt]: same external
    ids, same number of product records, same values of every other field;
    and both runs return one product per draft.  This holds for every list
    of drafts, in particular when each draft carries an external id.  The
    first run updates or creates: afterwards each draft is found by its
    external id, in the product that was found under that id before the
    run if there was one and in a new product otherwise, and that product
    holds, in every property, the value of the last draft with this
    external id that sets the property. *)
Theorem syncProducts_idempotent
    (clock1 clock2 : nat -> Date) (drafts : list InsertProduct.t) (s : MemStorage) :
  products_wf (currentId s) (products s) ->
  let once := syncProducts clock1 drafts s in
  let twice := syncProducts clock2 drafts (snd once) in
  same_but_syncedAt (snd twice) (snd once)
  /\ map Product.shopifyId (JsMap.values (products (snd twice)))
     = map Product.shopifyId (JsMap.values (products (snd once)))
  /\ JsMap.size (products (snd twice)) = JsMap.size (products (snd once))
  /\ length (fst twice) = length drafts
  /\ length (fst once) = length drafts
  /\ (forall d, In d drafts ->
        exists p,
          fst (getProductByShopifyId (lookup_key d) (snd once)) = Some p
          /\ Product.shopifyId p = lookup_key d
          /\ written_by (filter (hits (lookup_key d)) drafts) p
          /\ match fst (getProductByShopifyId (lookup_key d) s) with
             | Some existing => Product.id p = Product.id existing
             | None => currentId s <= Product.id p
             end).
Proof.
  intros Hwf once twice.
  assert (Hwf1 : products_wf (currentId (snd once)) (products (snd once))).
  { unfold once, syncProducts. rewrite syncLoop_install. unfold install.
    cbn [products currentId]. apply products_wf_steps, Hwf. }
  assert (Hset : settled drafts (products (snd once))).
  { unfold once, syncProducts. rewrite syncLoop_install. unfold install.
    cbn [products]. rewrite <- (map_snd_timed clock1 drafts) at 1.
    apply settled_after, Hwf. }
  rewrite <- (map_snd_timed clock2 drafts) in Hset.
  destruct (@settled_fixed _ (timed clock2 drafts) _ Hwf1 Hset) as [E1 E2].
  assert (Hsame : same_but_syncedAt (snd twice) (snd once)).
  { unfold twice, syncProducts. rewrite syncLoop_install.
    unfold same_but_syncedAt, install.
    cbn [users conversations messages products orders recommendations webhooks
         currentId issued].
    rewrite E1, E2, Nat.sub_diag, app_nil_r. repeat split. }
  split; [exact Hsame|].
  destruct Hsame as (_ & _ & _ & Hp & _).
  split.
  { rewrite <- (map_unstamped_map Product.shopifyId (products (snd twice)))
      by (intros []; reflexivity).
    rewrite Hp. apply map_unstamped_map. intros []; reflexivity. }
  split.
  { unfold JsMap.size.
    rewrite <- (length_map (fun e => (fst e, unstamped (snd e))) (products (snd twice))).
    fold (unstamped_map (products (snd twice))). rewrite Hp.
    unfold unstamped_map. apply length_map. }
  split.
  { unfold twice, syncProducts. rewrite syncLoop_pushes by exact Hwf1.
    simpl. apply length_timed. }
  split.
  { unfold once, syncProducts. rewrite syncLoop_pushes by exact Hwf.
    simpl. apply length_timed. }
  intros d Hin. unfold once, syncProducts, getProductByShopifyId, read.
  rewrite syncLoop_install. unfold install. cbn [fst products].
  assert (Hsome : filter (hits (lookup_key d)) drafts <> []).
  { intros E.
    assert (Hd : In d (filter (hits (lookup_key d)) drafts)).
    { apply filter_In. split; [exact Hin|]. apply eqb_nullable_string_refl. }
    rewrite E in Hd. contradiction. }
  pose proof (@syncSteps_written (lookup_key d) (timed clock1 drafts)
                (products s) (currentId s) Hwf) as W.
  rewrite map_snd_timed in W.
  destruct (find (same_shopifyId (lookup_key d)) (JsMap.values (products s)))
    as [existing|].
  - destruct W as (p & Hfound & Hid & Hw). exists p.
    split; [exact Hfound|]. split; [|split; assumption].
    apply find_some in Hfound. destruct Hfound as [_ Hfound]. unfold same_shopifyId in Hfound.
    now apply eqb_nullable_string_eq in Hfound.
  - destruct W as [_ W]. destruct (W Hsome) as (p & Hfound & Hid & Hw). exists p.
    split; [exact Hfound|]. split; [|split; assumption].
    apply find_some in Hfound. destruct Hfound as [_ Hfound]. unfold same_shopifyId in Hfound.
    now apply eqb_nullable_string_eq in Hfound.
Qed.

Lemma syncProducts_idempotent_witness :
  products_wf (currentId newMemStorage) (products newMemStorage)
  /\ same_but_syncedAt
       (snd (syncProducts (fun i => 200 + i) example_drafts
               (snd (syncProducts (fun i => 100 + i) example_drafts newMemStorage))))
       (snd (syncProducts (fun i => 100 + i) example_drafts newMemStorage)).
Proof.
  assert (W : products_wf (currentId newMemStorage) (products newMemStorage))
    by (split; constructor).
  split; [exact W|].
  apply (@syncProducts_idempotent (fun i => 100 + i) (fun i => 200 + i)
           example_drafts newMemStorage W).
Defined.

(** The second run does write: it restamps the products. *)
Example second_sync_restamps :
  map Product.syncedAt
      (JsMap.values (products
         (snd (syncProducts (fun i => 100 + i) example_drafts newMemStorage))))
  = [102; 101]
  /\ map Product.syncedAt
         (JsMap.values (products
            (snd (syncProducts (fun i => 200 + i) example_drafts
               (snd (syncProducts (fun i => 100 + i) example_drafts newMemStorage))))))
     = [202; 201]
  /\ map Product.title
         (JsMap.values (products
            (snd (syncProducts (fun i => 100 + i) example_drafts newMemStorage))))
     = ["Mug, large"; "Cap"]%string.
Proof. vm_compute. repeat split. Qed.

(** *** Stores reached by histories are well formed *)

Lemma products_wf_weaken c c' m : c <= c' -> products_wf c m -> products_wf c' m.
Proof.
  intros Hc [Hn Hf]. split; [exact Hn|].
  eapply Forall_impl; [|exact Hf]. cbn. intros e [? ?]. split; lia.
Qed.

Lemma products_wf_set_fresh c v m :
  products_wf c m -> Product.id v = c -> products_wf (S c) (JsMap.set c v m).
Proof.
  intros [Hn Hf] Hv.
  assert (Hc : ~ In c (JsMap.keys m)).
  { intros Hin. unfold JsMap.keys in Hin. apply in_map_iff in Hin.
    destruct Hin as (e & He & Hin). rewrite Forall_forall in Hf.
    destruct (Hf e Hin). lia. }
  split.
  - rewrite keys_set_absent by exact Hc.
    apply NoDup_app; [exact Hn | repeat constructor; tauto |].
    intros x Hx [<-|[]]. tauto.
  - apply Forall_set; [|cbn; lia].
    eapply Forall_impl; [|exact Hf]. cbn. intros e [? ?]. split; lia.
Qed.

Lemma products_wf_set_update c k v p' m :
  products_wf c m -> JsMap.get k m = Some p' -> Product.id v = Product.id p' ->
  products_wf c (JsMap.set k v m).
Proof.
  intros [Hn Hf] Eg Hv. split.
  - rewrite keys_set_present; [exact Hn | eapply get_Some_key; exact Eg].
  - apply Forall_set; [exact Hf|]. cbn [fst snd]. rewrite Hv.
    apply get_Some_In in Eg. rewrite Forall_forall in Hf. apply (Hf _ Eg).
Qed.

Lemma exec_products_wf c s :
  keeps_product_id c ->
  products_wf (currentId s) (products s) ->
  products_wf (currentId (exec c s)) (products (exec c s)).
Proof.
  intros Hc H. destruct c; cbn [exec];
    try (run_method; apply products_wf_weaken with (c := currentId s);
         [lia | exact H]);
    try (run_method; destruct (JsMap.get _ _); exact H);
    try (run_method; exact H).
  - run_method. apply products_wf_set_fresh; [exact H | reflexivity].
  - run_method. cbn [keeps_product_id] in Hc.
    destruct (JsMap.get id (products s)) as [p'|] eqn:Eg; cbn [fst snd products currentId];
      [|exact H].
    apply products_wf_set_update with (p' := p'); [exact H | exact Eg |].
    cbn [mergeProduct Product.id]. rewrite Hc. reflexivity.
  - unfold syncProducts. rewrite syncLoop_install. unfold install.
    cbn [products currentId]. apply products_wf_steps, H.
Qed.

(** The hypothesis of C5 holds in every store that a history of calls
    builds from a new one, as long as no [updateProduct] rewrites an [id]. *)
Lemma run_products_wf calls :
  Forall keeps_product_id calls ->
  products_wf (currentId (run calls newMemStorage))
              (products (run calls newMemStorage)).
Proof.
  assert (G : forall s, Forall keeps_product_id calls ->
                        products_wf (currentId s) (products s) ->
                        products_wf (currentId (run calls s)) (products (run calls s))).
  { induction calls as [|c calls IH]; intros s Hk H; [exact H|].
    inversion Hk; subst. cbn [run fold_left]. apply IH; [assumption|].
    apply exec_products_wf; assumption. }
  intros Hk. apply G; [exact Hk | split; constructor].
Qed.

(** ** The inbound webhook endpoint *)

Section InboundWebhook.

Variable JSON_stringify_body : ChatBody -> string.
Variable processMessage : string -> AiContext -> Completion AiResponse.

Let handle := webhookChat JSON_stringify_body processMessage.

(** A signature or a secret that is missing or empty: 401, store untouched. *)
Lemma webhookChat_missing_header req clock s :
  present (x_webhook_signature req) = false \/ present (x_webhook_secret req) = false ->
  handle req clock s
  = (mkResponse 401 (ErrorText "Missing webhook signature or secret"), s).
Proof.
  intros H. unfold handle, webhookChat, webhookChatBody.
  destruct H as [H|H]; rewrite H; [|rewrite orb_true_r]; reflexivity.
Qed.

(** A comparison that returns [false]: 401, store untouched. *)
Lemma webhookChat_invalid_signature req clock s :
  present (x_webhook_signature req) = true ->
  present (x_webhook_secret req) = true ->
  verifyIncomingWebhook (JSON_stringify_body (body req))
    (header_text (x_webhook_signature req)) (header_text (x_webhook_secret req))
  = Returns false ->
  handle req clock s = (mkResponse 401 (ErrorText "Invalid webhook signature"), s).
Proof.
  intros H1 H2 Hv. unfold handle, webhookChat, webhookChatBody.
  rewrite H1, H2. cbn [negb orb]. unfold bindH, call. rewrite Hv. reflexivity.
Qed.

(** A verified body without [message] or without [session_id]: 400, store
    untouched. *)
Lemma webhookChat_missing_field req clock s :
  present (x_webhook_signature req) = true ->
  present (x_webhook_secret req) = true ->
  verifyIncomingWebhook (JSON_stringify_body (body req))
    (header_text (x_webhook_signature req)) (header_text (x_webhook_secret req))
  = Returns true ->
  truthy_string (message (body req)) = false
  \/ truthy_string (session_id (body req)) = false ->
  handle req clock s
  = (mkResponse 400 (ErrorText "Missing required fields: message, session_id"), s).
Proof.
  intros H1 H2 Hv Hf. unfold handle, webhookChat, webhookChatBody.
  rewrite H1, H2. cbn [negb orb]. unfold bindH, call. rewrite Hv. cbn [negb].
  unfold truthy_string, or_undefined_string in *.
  destruct (message (body req)) as [| |m], (session_id (body req)) as [| |sid];
    try reflexivity;
    try (destruct (String.eqb m ""); reflexivity).
  destruct (String.eqb m ""), (String.eqb sid ""); try reflexivity.
  destruct Hf; discriminate.
Qed.

(** A signature of any length other than 64: the comparison raises, the
    [catch] of the handler answers 500. *)
Lemma webhookChat_wrong_length req clock s :
  present (x_webhook_signature req) = true ->
  present (x_webhook_secret req) = true ->
  String.length (header_text (x_webhook_signature req)) <> 64 ->
  handle req clock s = (mkResponse 500 (ErrorThrown RangeError), s).
Proof.
  intros H1 H2 Hl. unfold handle, webhookChat, webhookChatBody.
  rewrite H1, H2. cbn [negb orb]. unfold bindH, call, verifyIncomingWebhook.
  destruct (verifySignature_length (JSON_stringify_body (body req))
              (header_text (x_webhook_signature req))
              (header_text (x_webhook_secret req))) as [_ Hthrow].
  rewrite (Hthrow Hl). reflexivity.
Qed.

End InboundWebhook.

(** C6. A request whose signature header is present but not 64 bytes long
    is not answered 401: verification raises and the handler answers 500.
    (The store is left as it was.) *)
Theorem webhook_chat_bad_signature_is_500
    (JSON_stringify_body : ChatBody -> string)
    (processMessage : string -> AiContext -> Completion AiResponse)
    (chat : ChatBody) (clock : nat -> Date) (s : MemStorage) :
  webhookChat JSON_stringify_body processMessage
    (mkChatRequest (Some "abc"%string) (Some "secret"%string) chat) clock s
  = (mkResponse 500 (ErrorThrown RangeError), s).
Proof.
  apply webhookChat_wrong_length; [reflexivity | reflexivity | cbn; lia].
Qed.

(** A request signed with the secret it announces goes through: on a new
    store it creates the conversation and both messages. *)
Example webhook_chat_accepts_signed_request
    (JSON_stringify_body : ChatBody -> string) (reply : AiResponse)
    (clock : nat -> Date) :
  let chat := mkChatBody Undefined (Val "hello"%string) Undefined (Val "s1"%string) in
  let signature := generateSignature (JSON_stringify_body chat) "secret" in
  let r := webhookChat JSON_stringify_body (fun _ _ => Returns reply)
             (mkChatRequest (Some signature) (Some "secret"%string) chat)
             clock newMemStorage in
  status (fst r) = 200
  /\ map Conversation.sessionId (JsMap.values (conversations (snd r))) = ["s1"%string]
  /\ map Message.role (JsMap.values (messages (snd r))) = ["user"; "assistant"]%string
  /\ map Message.conversationId (JsMap.values (messages (snd r))) = [1; 1].
Proof.
  intros chat signature r.
  assert (Hp : present (Some signature) = true).
  { unfold present. destruct (String.eqb_spec signature ""); [|reflexivity].
    pose proof (CryptoFacts.length_digest "secret" (JSON_stringify_body chat)) as L.
    fold (generateSignature (JSON_stringify_body chat) "secret") in L.
    fold signature in L. rewrite e in L. discriminate. }
  pose proof (verifySignature_own (JSON_stringify_body chat) "secret") as Hv.
  fold signature in Hv.
  unfold r, webhookChat, webhookChatBody.
  cbn [x_webhook_signature x_webhook_secret body header_text].
  rewrite Hp. cbn [present String.eqb negb orb]. 
  unfold bindH at 1. unfold call at 1. unfold verifyIncomingWebhook. rewrite Hv.
  cbn. repeat split.
Qed.

(* ===================================================================== *)
(** * Further properties                                                  *)
(* ===================================================================== *)

(** ** The signature codec, continued *)

Lemma accumulate_diff_zero (a : Crypto.Bytes) :
  forall (b : Crypto.Bytes) (acc : N),
    length a = length b ->
    (Crypto.accumulate_diff acc a b = 0%N <-> acc = 0%N /\ a = b).
Proof.
  induction a as [|x a IH]; intros [|y b] acc Hlen; simpl in *; try discriminate.
  - tauto.
  - injection Hlen as Hlen. rewrite (IH b _ Hlen), N.lor_eq_0_iff. split.
    + intros [[Hacc Hxy] Hab]. apply N.lxor_eq in Hxy. subst. auto.
    + intros [Hacc [= -> ->]]. rewrite N.lxor_nilpotent. auto.
Qed.

Lemma Buffer_from_inj (s t : string) :
  Crypto.Buffer_from s = Crypto.Buffer_from t -> s = t.
Proof.
  unfold Crypto.Buffer_from. revert t.
  induction s as [|c s IH]; intros [|d t]; simpl; try discriminate; [reflexivity|].
  intros [= Hc Hs]. f_equal; [|apply IH, Hs].
  rewrite <- (ascii_N_embedding c), <- (ascii_N_embedding d). now rewrite Hc.
Qed.

Lemma verifySignature_decides (payload signature secret : string) :
  (verifySignature payload signature secret = Returns true
   <-> signature = generateSignature payload secret)
  /\ (verifySignature payload signature secret = Returns false
      <-> String.length signature = 64
          /\ signature <> generateSignature payload secret).
Proof.
  assert (L : String.length (generateSignature payload secret) = 64)
    by apply CryptoFacts.length_digest.
  unfold verifySignature, Crypto.timingSafeEqual.
  rewrite !CryptoFacts.length_Buffer_from, L.
  destruct (Nat.eqb_spec (String.length signature) 64) as [E|E].
  - assert (Hlen : length (Crypto.Buffer_from signature)
                   = length (Crypto.Buffer_from (generateSignature payload secret)))
      by (rewrite !CryptoFacts.length_Buffer_from; congruence).
    pose proof (accumulate_diff_zero _ _ 0%N Hlen) as Z.
    destruct (N.eqb_spec
                (Crypto.accumulate_diff 0 (Crypto.Buffer_from signature)
                   (Crypto.Buffer_from (generateSignature payload secret))) 0) as [D|D].
    + apply Z in D. destruct D as [_ D]. apply Buffer_from_inj in D.
      split; (split; [|intros H]); auto; try discriminate.
      destruct H as [_ H]. contradiction.
    + assert (Hne : signature <> generateSignature payload secret).
      { intros ->. apply D, Z. auto. }
      split; (split; [|intros H]); auto; try discriminate.
      contradiction.
  - split; (split; [|intros H]); try discriminate.
    + subst. contradiction.
    + destruct H as [H _]. contradiction.
Qed.

(** X1. [verifySignature] returns [true] for the tag that [generateSignature]
    computes and for no other string; it returns [false] exactly for the
    64-byte strings that differ from that tag. *)
Theorem verifySignature_accepts_only_the_tag (payload signature secret : string) :
  (verifySignature payload signature secret = Returns true
   <-> signature = generateSignature payload secret)
  /\ (verifySignature payload signature secret = Returns false
      <-> String.length signature = 64
          /\ signature <> generateSignature payload secret).
Proof. exact (verifySignature_decides payload signature secret). Qed.

(** ** The inbound webhook endpoint, continued *)

(** X2. A request without the signature header or without the secret
    header, or with either of them empty, is answered 401 and the store is
    left as it was, whatever the other header and the body are. *)
Theorem webhook_chat_requires_both_headers
    (JSON_stringify_body : ChatBody -> string)
    (processMessage : string -> AiContext -> Completion AiResponse)
    (other : option string) (chat : ChatBody) (clock : nat -> Date) (s : MemStorage) :
  let rejected :=
    (mkResponse 401 (ErrorText "Missing webhook signature or secret"), s) in
  webhookChat JSON_stringify_body processMessage
    (mkChatRequest None other chat) clock s = rejected
  /\ webhookChat JSON_stringify_body processMessage
       (mkChatRequest (Some ""%string) other chat) clock s = rejected
  /\ webhookChat JSON_stringify_body processMessage
       (mkChatRequest other None chat) clock s = rejected
  /\ webhookChat JSON_stringify_body processMessage
       (mkChatRequest other (Some ""%string) chat) clock s = rejected.
Proof.
  intros rejected.
  repeat match goal with |- _ /\ _ => split end;
    apply webhookChat_missing_header; cbn; auto.
Qed.

Lemma present_nonempty (v : string) : v <> ""%string -> present (Some v) = true.
Proof.
  intros H. unfold present. destruct (String.eqb_spec v ""); [contradiction | reflexivity].
Qed.

Lemma signature_nonempty (payload secret : string) :
  generateSignature payload secret <> ""%string.
Proof.
  intros H. pose proof (CryptoFacts.length_digest secret payload) as L.
  fold (generateSignature payload secret) in L. rewrite H in L. discriminate.
Qed.

(** X3. A request whose signature is 64 bytes long but is not the HMAC of
    the serialized body under the announced secret is answered 401
    "Invalid webhook signature", and the store is left as it was. *)
Theorem webhook_chat_rejects_forged_signature
    (JSON_stringify_body : ChatBody -> string)
    (processMessage : string -> AiContext -> Completion AiResponse)
    (signature secret : string) (chat : ChatBody) (clock : nat -> Date)
    (s : MemStorage) :
  secret <> ""%string ->
  String.length signature = 64 ->
  signature <> generateSignature (JSON_stringify_body chat) secret ->
  webhookChat JSON_stringify_body processMessage
    (mkChatRequest (Some signature) (Some secret) chat) clock s
  = (mkResponse 401 (ErrorText "Invalid webhook signature"), s).
Proof.
  intros Hs Hl Hne. apply webhookChat_invalid_signature.
  - apply present_nonempty. intros ->. discriminate.
  - apply present_nonempty, Hs.
  - cbn [x_webhook_signature x_webhook_secret body header_text].
    unfold verifyIncomingWebhook.
    apply (verifySignature_decides (JSON_stringify_body chat) signature secret).
    auto.
Qed.

Lemma webhook_chat_rejects_forged_signature_witness :
  webhookChat (fun _ => "{}"%string) (fun _ _ => Throws UpstreamError)
    (mkChatRequest
       (Some "0000000000000000000000000000000000000000000000000000000000000000"%string)
       (Some "secret"%string)
       (mkChatBody Undefined (Val "hello"%string) Undefined (Val "s1"%string)))
    (fun i => i) newMemStorage
  = (mkResponse 401 (ErrorText "Invalid webhook signature"), newMemStorage).
Proof.
  apply webhook_chat_rejects_forged_signature.
  - discriminate.
  - reflexivity.
  - vm_compute. discriminate.
Defined.

(** X4. A request signed with the secret it announces whose body has no
    [message] or no [session_id] (missing, null or empty) is answered 400,
    and the store is left as it was. *)
Theorem webhook_chat_requires_message_and_session
    (JSON_stringify_body : ChatBody -> string)
    (processMessage : string -> AiContext -> Completion AiResponse)
    (secret : string) (chat : ChatBody) (clock : nat -> Date) (s : MemStorage) :
  secret <> ""%string ->
  truthy_string (message chat) = false \/ truthy_string (session_id chat) = false ->
  webhookChat JSON_stringify_body processMessage
    (mkChatRequest (Some (generateSignature (JSON_stringify_body chat) secret))
                   (Some secret) chat) clock s
  = (mkResponse 400 (ErrorText "Missing required fields: message, session_id"), s).
Proof.
  intros Hs Hf. apply webhookChat_missing_field.
  - apply present_nonempty, signature_nonempty.
  - apply present_nonempty, Hs.
  - apply verifySignature_own.
  - exact Hf.
Qed.

Lemma webhook_chat_requires_message_and_session_witness :
  webhookChat (fun _ => "{}"%string) (fun _ _ => Throws UpstreamError)
    (mkChatRequest (Some (generateSignature "{}" "secret")) (Some "secret"%string)
       (mkChatBody Undefined (Val "hello"%string) Undefined Null))
    (fun i => i) newMemStorage
  = (mkResponse 400 (ErrorText "Missing required fields: message, session_id"),
     newMemStorage).
Proof.
  apply (@webhook_chat_requires_message_and_session (fun _ => "{}"%string)).
  - discriminate.
  - right. reflexivity.
Defined.

Section VerifiedChat.

Variable JSON_stringify_body : ChatBody -> string.
Variable processMessage : string -> AiContext -> Completion AiResponse.
Variables (chat : ChatBody) (secret : string) (clock : nat -> Date).
Variables (text session : string).

Hypothesis secret_given : secret <> ""%string.
Hypothesis message_given : message chat = Val text.
Hypothesis message_nonempty : text <> ""%string.
Hypothesis session_given : session_id chat = Val session.
Hypothesis session_nonempty : session <> ""%string.

Let req :=
  mkChatRequest (Some (generateSignature (JSON_stringify_body chat) secret))
                (Some secret) chat.

(** Past the checks, the handler is the rest of its [try] block. *)
Lemma webhookChat_verified (s : MemStorage) :
  webhookChat JSON_stringify_body processMessage req clock s
  = match processChat processMessage req clock text session s with
    | (Returns response, s') => (response, s')
    | (Throws error, s') => (mkResponse 500 (ErrorThrown error), s')
    end.
Proof.
  unfold webhookChat, webhookChatBody, req.
  cbn [x_webhook_signature x_webhook_secret body header_text].
  rewrite (@present_nonempty _ (@signature_nonempty _ _)), (@present_nonempty _ secret_given).
  cbn [negb orb]. unfold bindH at 1. unfold call at 1.
  unfold verifyIncomingWebhook. rewrite verifySignature_own. cbn [negb].
  rewrite message_given, session_given. unfold or_undefined_string.
  destruct (String.eqb_spec text ""); [contradiction|].
  destruct (String.eqb_spec session ""); [contradiction|].
  reflexivity.
Qed.

End VerifiedChat.

Lemma processChat_run processMessage req clock text session s :
  processChat processMessage req clock text session s
  = let conv := chatConversation (body req) clock text session s in
    let s2 := chatReceived (body req) clock text session s in
    match processMessage text
            (mkAiContext conv (fst (getMessagesByConversation (Conversation.id conv) s2))
                         (context (body req)) (fst (getActiveProducts s2))) with
    | Returns reply =>
        (Returns (mkResponse 200
                    (ChatReply (ai_message reply) (ai_recommendations reply)
                               session (Conversation.id conv))),
         snd (createMessage
                (InsertMessage.mk (Conversation.id conv) "assistant"
                   (ai_message reply) (Some (Val (metadataOf reply))))
                (clock 2) s2))
    | Throws error => (Throws error, s2)
    end.
Proof.
  unfold processChat, chatReceived, chatOpened, chatConversation.
  unfold bindH, await, retH, call, getConversationBySessionId,
    getMessagesByConversation, getActiveProducts, recordApiMetric, read, ret.
  cbn [fst snd].
  destruct (find _ (JsMap.values (conversations s))) as [conv|].
  - destruct (createMessage _ (clock 1) s) as [um s2] eqn:E1. cbn [fst snd].
    destruct (processMessage _ _) as [reply|e]; [|reflexivity].
    destruct (createMessage _ (clock 2) s2) as [am s3]. reflexivity.
  - destruct (createConversation _ (clock 0) s) as [conv s1] eqn:E0.
    assert (Hc : conv = Conversation.mk (currentId s) session
                          (customer_id (body req)) Undefined (Val "active"%string)
                          (Val text) (context (body req)) (clock 0) (clock 0)).
    { revert E0. run_method. now intros [= <- _]. }
    cbn [fst snd]. rewrite <- Hc.
    destruct (createMessage _ (clock 1) s1) as [um s2] eqn:E1. cbn [fst snd].
    destruct (processMessage _ _) as [reply|e]; [|reflexivity].
    destruct (createMessage _ (clock 2) s2) as [am s3]. reflexivity.
Qed.

Lemma chatOpened_fields chat clock text session s :
  let found := fst (getConversationBySessionId session s) in
  conversations (chatOpened chat clock text session s)
  = match found with
    | Some _ => conversations s
    | None => JsMap.set (currentId s) (chatConversation chat clock text session s)
                        (conversations s)
    end
  /\ messages (chatOpened chat clock text session s) = messages s
  /\ currentId (chatOpened chat clock text session s) = chatMessageKey session s
  /\ users (chatOpened chat clock text session s) = users s
  /\ products (chatOpened chat clock text session s) = products s
  /\ orders (chatOpened chat clock text session s) = orders s
  /\ recommendations (chatOpened chat clock text session s) = recommendations s
  /\ webhooks (chatOpened chat clock text session s) = webhooks s.
Proof.
  unfold chatOpened, chatConversation, chatMessageKey. cbn zeta.
  destruct (fst (getConversationBySessionId session s)); run_method; repeat split.
Qed.

Lemma chatReceived_fields chat clock text session s :
  let conv := chatConversation chat clock text session s in
  let k := chatMessageKey session s in
  conversations (chatReceived chat clock text session s)
  = conversations (chatOpened chat clock text session s)
  /\ messages (chatReceived chat clock text session s)
     = JsMap.set k (Message.mk k (Conversation.id conv) "user" text Undefined (clock 1))
                 (messages s)
  /\ currentId (chatReceived chat clock text session s) = S k
  /\ users (chatReceived chat clock text session s) = users s
  /\ products (chatReceived chat clock text session s) = products s
  /\ orders (chatReceived chat clock text session s) = orders s
  /\ recommendations (chatReceived chat clock text session s) = recommendations s
  /\ webhooks (chatReceived chat clock text session s) = webhooks s.
Proof.
  cbn zeta.
  destruct (chatOpened_fields chat clock text session s)
    as (_ & Hm & Hk & Hu & Hp & Ho & Hr & Hw).
  unfold chatReceived. run_method. rewrite Hm, Hk, Hu, Hp, Ho, Hr, Hw.
  repeat split.
Qed.

(** The handler on a verified request that the language model answers. *)
Lemma webhookChat_answered
    (JSON_stringify_body : ChatBody -> string)
    (processMessage : string -> AiContext -> Completion AiResponse)
    (chat : ChatBody) (secret : string) (clock : nat -> Date)
    (text session : string) (reply : AiResponse) (s : MemStorage) :
  secret <> ""%string ->
  message chat = Val text -> text <> ""%string ->
  session_id chat = Val session -> session <> ""%string ->
  (forall ctx, processMessage text ctx = Returns reply) ->
  let r := webhookChat JSON_stringify_body processMessage
             (mkChatRequest
                (Some (generateSignature (JSON_stringify_body chat) secret))
                (Some secret) chat) clock s in
  let conv := chatConversation chat clock text session s in
  let k := chatMessageKey session s in
  fst r = mkResponse 200
            (ChatReply (ai_message reply) (ai_recommendations reply) session
                       (Conversation.id conv))
  /\ conversations (snd r)
     = match fst (getConversationBySessionId session s) with
       | Some _ => conversations s
       | None => JsMap.set (currentId s) conv (conversations s)
       end
  /\ messages (snd r)
     = JsMap.set (S k)
         (Message.mk (S k) (Conversation.id conv) "assistant" (ai_message reply)
                     (Val (metadataOf reply)) (clock 2))
         (JsMap.set k
            (Message.mk k (Conversation.id conv) "user" text Undefined (clock 1))
            (messages s))
  /\ currentId (snd r) = S (S k)
  /\ users (snd r) = users s /\ products (snd r) = products s
  /\ orders (snd r) = orders s /\ recommendations (snd r) = recommendations s
  /\ webhooks (snd r) = webhooks s.
Proof.
  intros Hs Hm Hmn Hsid Hsn Hai r conv k. unfold r.
  rewrite (@webhookChat_verified JSON_stringify_body processMessage chat secret clock
             text session Hs Hm Hmn Hsid Hsn s).
  rewrite processChat_run. cbn [body]. cbn zeta. rewrite Hai.
  destruct (chatOpened_fields chat clock text session s) as (Hc & _).
  destruct (chatReceived_fields chat clock text session s)
    as (Hc2 & Hm2 & Hk2 & Hu & Hp & Ho & Hr & Hw).
  cbn zeta in *. cbn [fst snd]. run_method.
  rewrite Hc2, Hc, Hm2, Hk2, Hu, Hp, Ho, Hr, Hw. repeat split.
Qed.

(** X5. A verified request, once the language model has answered, is
    answered 200 with the id of the session's conversation: the first
    conversation with that session id if there is one, else a new active
    one; the store gains that conversation if it is new, then the user's
    message and the assistant's, both for that conversation, and nothing
    else. *)
Theorem webhook_chat_stores_the_exchange
    (JSON_stringify_body : ChatBody -> string)
    (processMessage : string -> AiContext -> Completion AiResponse)
    (chat : ChatBody) (secret : string) (clock : nat -> Date)
    (text session : string) (reply : AiResponse) (s : MemStorage) :
  secret <> ""%string ->
  message chat = Val text -> text <> ""%string ->
  session_id chat = Val session -> session <> ""%string ->
  (forall ctx, processMessage text ctx = Returns reply) ->
  let r := webhookChat JSON_stringify_body processMessage
             (mkChatRequest
                (Some (generateSignature (JSON_stringify_body chat) secret))
                (Some secret) chat) clock s in
  let conv := chatConversation chat clock text session s in
  let k := chatMessageKey session s in
  fst r = mkResponse 200
            (ChatReply (ai_message reply) (ai_recommendations reply) session
                       (Conversation.id conv))
  /\ conversations (snd r)
     = match fst (getConversationBySessionId session s) with
       | Some _ => conversations s
       | None => JsMap.set (currentId s) conv (conversations s)
       end
  /\ messages (snd r)
     = JsMap.set (S k)
         (Message.mk (S k) (Conversation.id conv) "assistant" (ai_message reply)
                     (Val (metadataOf reply)) (clock 2))
         (JsMap.set k
            (Message.mk k (Conversation.id conv) "user" text Undefined (clock 1))
            (messages s))
  /\ currentId (snd r) = S (S k)
  /\ users (snd r) = users s /\ products (snd r) = products s
  /\ orders (snd r) = orders s /\ recommendations (snd r) = recommendations s
  /\ webhooks (snd r) = webhooks s.
Proof.
  exact (@webhookChat_answered JSON_stringify_body processMessage chat secret clock
           text session reply s).
Qed.

Lemma webhook_chat_stores_the_exchange_witness :
  fst (webhookChat (fun _ => "{}"%string)
         (fun _ _ => Returns (mkAiResponse "hi" "general" "low" Undefined))
         (mkChatRequest (Some (generateSignature "{}" "secret")) (Some "secret"%string)
            (mkChatBody Undefined (Val "hello"%string) Undefined (Val "s1"%string)))
         (fun i => 100 + i) newMemStorage)
  = mkResponse 200 (ChatReply "hi" Undefined "s1" 1).
Proof.
  apply (@webhook_chat_stores_the_exchange (fun _ => "{}"%string)
           (fun _ _ => Returns (mkAiResponse "hi" "general" "low" Undefined))
           (mkChatBody Undefined (Val "hello"%string) Undefined (Val "s1"%string))
           "secret" (fun i => 100 + i) "hello" "s1"
           (mkAiResponse "hi" "general" "low" Undefined) newMemStorage);
    try discriminate; reflexivity.
Defined.

(** X6. When the language model fails on a verified request the answer is
    500, and what was stored before the call stays: the conversation, if it
    was new, and the user's message; no assistant message is stored. *)
Theorem webhook_chat_keeps_message_when_model_fails
    (JSON_stringify_body : ChatBody -> string)
    (processMessage : string -> AiContext -> Completion AiResponse)
    (chat : ChatBody) (secret : string) (clock : nat -> Date)
    (text session : string) (error : JsError) (s : MemStorage) :
  secret <> ""%string ->
  message chat = Val text -> text <> ""%string ->
  session_id chat = Val session -> session <> ""%string ->
  (forall ctx, processMessage text ctx = Throws error) ->
  let r := webhookChat JSON_stringify_body processMessage
             (mkChatRequest
                (Some (generateSignature (JSON_stringify_body chat) secret))
                (Some secret) chat) clock s in
  let conv := chatConversation chat clock text session s in
  let k := chatMessageKey session s in
  fst r = mkResponse 500 (ErrorThrown error)
  /\ conversations (snd r)
     = match fst (getConversationBySessionId session s) with
       | Some _ => conversations s
       | None => JsMap.set (currentId s) conv (conversations s)
       end
  /\ messages (snd r)
     = JsMap.set k
         (Message.mk k (Conversation.id conv) "user" text Undefined (clock 1))
         (messages s)
  /\ currentId (snd r) = S k.
Proof.
  intros Hs Hm Hmn Hsid Hsn Hai r conv k. unfold r.
  rewrite (@webhookChat_verified JSON_stringify_body processMessage chat secret clock
             text session Hs Hm Hmn Hsid Hsn s).
  rewrite processChat_run. cbn [body]. cbn zeta. rewrite Hai.
  destruct (chatOpened_fields chat clock text session s) as (Hc & _).
  destruct (chatReceived_fields chat clock text session s)
    as (Hc2 & Hm2 & Hk2 & _).
  cbn zeta in *. cbn [fst snd].
  rewrite Hc2, Hc, Hm2, Hk2. repeat split.
Qed.

Lemma webhook_chat_keeps_message_when_model_fails_witness :
  fst (webhookChat (fun _ => "{}"%string) (fun _ _ => Throws UpstreamError)
         (mkChatRequest (Some (generateSignature "{}" "secret")) (Some "secret"%string)
            (mkChatBody Undefined (Val "hello"%string) Undefined (Val "s1"%string)))
         (fun i => 100 + i) newMemStorage)
  = mkResponse 500 (ErrorThrown UpstreamError).
Proof.
  apply (@webhook_chat_keeps_message_when_model_fails (fun _ => "{}"%string)
           (fun _ _ => Throws UpstreamError)
           (mkChatBody Undefined (Val "hello"%string) Undefined (Val "s1"%string))
           "secret" (fun i => 100 + i) "hello" "s1" UpstreamError newMemStorage);
    try discriminate; reflexivity.
Defined.

Lemma webhookChat_conversations stringify processMessage chat secret clock text session s :
  secret <> ""%string ->
  message chat = Val text -> text <> ""%string ->
  session_id chat = Val session -> session <> ""%string ->
  conversations
    (snd (webhookChat stringify processMessage
            (mkChatRequest (Some (generateSignature (stringify chat) secret))
                           (Some secret) chat) clock s))
  = conversations (chatOpened chat clock text session s).
Proof.
  intros Hs Hm Hmn Hsid Hsn.
  rewrite (@webhookChat_verified stringify processMessage chat secret clock
             text session Hs Hm Hmn Hsid Hsn s).
  rewrite processChat_run. cbn [body]. cbn zeta.
  destruct (chatReceived_fields chat clock text session s) as (Hc2 & _).
  destruct (processMessage _ _); cbn [snd]; [run_method|]; exact Hc2.
Qed.

Lemma chatOpened_finds chat clock text session s :
  fst (getConversationBySessionId session (chatOpened chat clock text session s))
  = Some (chatConversation chat clock text session s).
Proof.
  destruct (chatOpened_fields chat clock text session s) as (Hc & _).
  cbn zeta in Hc. unfold getConversationBySessionId, read in *. cbn [fst] in *.
  rewrite Hc. unfold chatConversation, getConversationBySessionId, read. cbn [fst].
  destruct (find _ (JsMap.values (conversations s))) as [conv|] eqn:E.
  - exact E.
  - apply find_values_set_new; [exact E|]. cbn. apply String.eqb_refl.
Qed.

(** X7. After a verified request, whatever the language model answered,
    [getConversationBySessionId] finds the conversation the request was
    attached to; so a second verified request for the same session is
    attached to the same conversation and creates none. *)
Theorem webhook_chat_reuses_the_session
    (JSON_stringify_body : ChatBody -> string)
    (processMessage : string -> AiContext -> Completion AiResponse)
    (chat1 chat2 : ChatBody) (secret1 secret2 : string) (clock1 clock2 : nat -> Date)
    (text1 text2 session : string) (s : MemStorage) :
  secret1 <> ""%string -> secret2 <> ""%string ->
  message chat1 = Val text1 -> text1 <> ""%string ->
  message chat2 = Val text2 -> text2 <> ""%string ->
  session_id chat1 = Val session -> session_id chat2 = Val session ->
  session <> ""%string ->
  let s1 := snd (webhookChat JSON_stringify_body processMessage
                   (mkChatRequest
                      (Some (generateSignature (JSON_stringify_body chat1) secret1))
                      (Some secret1) chat1) clock1 s) in
  let s2 := snd (webhookChat JSON_stringify_body processMessage
                   (mkChatRequest
                      (Some (generateSignature (JSON_stringify_body chat2) secret2))
                      (Some secret2) chat2) clock2 s1) in
  fst (getConversationBySessionId session s1)
  = Some (chatConversation chat1 clock1 text1 session s)
  /\ chatConversation chat2 clock2 text2 session s1
     = chatConversation chat1 clock1 text1 session s
  /\ conversations s2 = conversations s1.
Proof.
  intros Hs1 Hs2 Hm1 Hn1 Hm2 Hn2 Hsid1 Hsid2 Hsn s1 s2.
  assert (F : fst (getConversationBySessionId session s1)
              = Some (chatConversation chat1 clock1 text1 session s)).
  { pose proof (@webhookChat_conversations JSON_stringify_body processMessage chat1
                  secret1 clock1 text1 session s Hs1 Hm1 Hn1 Hsid1 Hsn) as C.
    fold s1 in C.
    pose proof (chatOpened_finds chat1 clock1 text1 session s) as O.
    unfold getConversationBySessionId, read in *. cbn [fst] in *.
    rewrite C. exact O. }
  split; [exact F|]. split.
  - unfold chatConversation at 1. rewrite F. reflexivity.
  - unfold s2.
    rewrite (@webhookChat_conversations JSON_stringify_body processMessage chat2
               secret2 clock2 text2 session s1 Hs2 Hm2 Hn2 Hsid2 Hsn).
    destruct (chatOpened_fields chat2 clock2 text2 session s1) as (Hc & _).
    cbn zeta in Hc. rewrite Hc, F. reflexivity.
Qed.

Lemma webhook_chat_reuses_the_session_witness :
  conversations
    (snd (webhookChat (fun _ => "{}"%string) (fun _ _ => Throws UpstreamError)
            (mkChatRequest (Some (generateSignature "{}" "k2")) (Some "k2"%string)
               (mkChatBody Undefined (Val "again"%string) Undefined (Val "s1"%string)))
            (fun i => 200 + i)
            (snd (webhookChat (fun _ => "{}"%string) (fun _ _ => Throws UpstreamError)
                    (mkChatRequest (Some (generateSignature "{}" "k1"))
                       (Some "k1"%string)
                       (mkChatBody Undefined (Val "hello"%string) Undefined
                                   (Val "s1"%string)))
                    (fun i => 100 + i) newMemStorage))))
  = conversations
      (snd (webhookChat (fun _ => "{}"%string) (fun _ _ => Throws UpstreamError)
              (mkChatRequest (Some (generateSignature "{}" "k1")) (Some "k1"%string)
                 (mkChatBody Undefined (Val "hello"%string) Undefined
                             (Val "s1"%string)))
              (fun i => 100 + i) newMemStorage)).
Proof.
  apply (@webhook_chat_reuses_the_session (fun _ => "{}"%string)
           (fun _ _ => Throws UpstreamError)
           (mkChatBody Undefined (Val "hello"%string) Undefined (Val "s1"%string))
           (mkChatBody Undefined (Val "again"%string) Undefined (Val "s1"%string))
           "k1" "k2" (fun i => 100 + i) (fun i => 200 + i) "hello" "again" "s1"
           newMemStorage);
    try discriminate; reflexivity.
Defined.

(** *** The handler keeps messages attached to conversations *)

Lemma webhookChat_store stringify processMessage req clock s :
  snd (webhookChat stringify processMessage req clock s) = s
  \/ exists text session,
       snd (webhookChat stringify processMessage req clock s)
       = snd (processChat processMessage req clock text session s).
Proof.
  unfold webhookChat, webhookChatBody.
  destruct (negb (present (x_webhook_signature req))
            || negb (present (x_webhook_secret req))); [now left|].
  cbv beta iota zeta. unfold bindH, call.
  destruct (verifyIncomingWebhook _ _ _) as [[|]|e]; cbn [negb]; try (now left).
  destruct (or_undefined_string (message (body req))) as [text|]; [|now left].
  destruct (or_undefined_string (session_id (body req))) as [session|]; [|now left].
  right. exists text, session.
  destruct (processChat processMessage req clock text session s) as [[r|e] s'];
    reflexivity.
Qed.

Lemma chatOpened_has_conversation chat clock text session s :
  conversations_filed s ->
  JsMap.has (Conversation.id (chatConversation chat clock text session s))
            (conversations (chatOpened chat clock text session s)) = true
  /\ conversations_filed (chatOpened chat clock text session s).
Proof.
  intros Hf.
  destruct (chatOpened_fields chat clock text session s) as (Hc & _).
  cbn zeta in Hc. unfold conversations_filed in *. rewrite Hc.
  unfold chatConversation, getConversationBySessionId, read. cbn [fst].
  destruct (find _ (JsMap.values (conversations s))) as [conv|] eqn:E.
  - split; [|exact Hf].
    destruct (find_values_In _ _ E) as [k Hin].
    rewrite Forall_forall in Hf. pose proof (Hf _ Hin) as Hk.
    cbn [fst snd] in Hk. rewrite Hk.
    apply has_In. unfold JsMap.keys. apply in_map_iff. now exists (k, conv).
  - split.
    + cbn [Conversation.id]. rewrite has_set, Nat.eqb_refl. reflexivity.
    + apply Forall_set; [exact Hf | reflexivity].
Qed.

(** X8. Whatever the request and whatever the language model answers, the
    handler keeps the store's messages attached to existing conversations,
    provided every conversation is stored under its own id; and it keeps
    the conversations stored under their own ids. *)
Theorem webhook_chat_keeps_message_integrity
    (JSON_stringify_body : ChatBody -> string)
    (processMessage : string -> AiContext -> Completion AiResponse)
    (req : ChatRequest) (clock : nat -> Date) (s : MemStorage) :
  conversations_filed s ->
  message_integrity s = true ->
  message_integrity
    (snd (webhookChat JSON_stringify_body processMessage req clock s)) = true
  /\ conversations_filed
       (snd (webhookChat JSON_stringify_body processMessage req clock s)).
Proof.
  intros Hf Hi.
  destruct (webhookChat_store JSON_stringify_body processMessage req clock s)
    as [->|(text & session & ->)]; [now split|].
  rewrite processChat_run. cbn zeta.
  destruct (chatOpened_has_conversation (body req) clock text session Hf) as [Hh Hf1].
  destruct (chatOpened_fields (body req) clock text session s) as (_ & Hm1 & _).
  destruct (chatReceived_fields (body req) clock text session s) as (Hc2 & _).
  cbn zeta in *.
  assert (I1 : message_integrity (chatOpened (body req) clock text session s) = true).
  { apply spares_messages_integrity with (s := s); [|exact Hi].
    split; [exact Hm1|]. intros k Hk.
    destruct (chatOpened_fields (body req) clock text session s) as (Hc & _).
    cbn zeta in Hc. rewrite Hc.
    destruct (fst (getConversationBySessionId session s)); [exact Hk|].
    rewrite has_set, Hk. apply orb_true_r. }
  assert (I2 : message_integrity (chatReceived (body req) clock text session s) = true).
  { unfold chatReceived. apply createMessage_integrity; [exact I1 | exact Hh]. }
  assert (F2 : conversations_filed (chatReceived (body req) clock text session s)).
  { unfold conversations_filed. rewrite Hc2. exact Hf1. }
  destruct (processMessage _ _) as [reply|e]; cbn [snd]; [|now split].
  split.
  - apply createMessage_integrity; [exact I2|]. cbn [InsertMessage.conversationId].
    rewrite Hc2. exact Hh.
  - unfold conversations_filed. run_method. exact F2.
Qed.

Lemma webhook_chat_keeps_message_integrity_witness :
  message_integrity
    (snd (webhookChat (fun _ => "{}"%string)
            (fun _ _ => Returns (mkAiResponse "hi" "general" "low" Undefined))
            (mkChatRequest (Some (generateSignature "{}" "secret"))
               (Some "secret"%string)
               (mkChatBody Undefined (Val "hello"%string) Undefined (Val "s1"%string)))
            (fun i => 100 + i) newMemStorage)) = true.
Proof.
  apply webhook_chat_keeps_message_integrity; [constructor | reflexivity].
Defined.

(** ** The orders endpoint *)

Lemma relevant_active (name : string) (ws : list Webhook.t) :
  filter (relevant name)
         (filter (fun webhook => truthy_bool (Webhook.isActive webhook)) ws)
  = filter (relevant name) ws.
Proof.
  rewrite filter_after_filter. apply filter_ext. intros w. unfold relevant.
  destruct (truthy_bool (Webhook.isActive w)); reflexivity.
Qed.

(** X9. POST /api/orders answers 200 with the order it stored, under the
    id the counter gives, whatever the subscribers answer or fail to
    answer; it posts one signed request to each stored subscription that
    is active and declares [order.created], in map order, and leaves the
    subscriptions, conversations, messages and products as they were. *)
Theorem post_order_stores_then_notifies
    (JSON_stringify : WebhookPayload -> string)
    (axios_post : nat -> HttpRequest -> Completion nat)
    (orderData : InsertOrder.t) (now : Date) (isoNow : string) (s : MemStorage) :
  let r := postOrder JSON_stringify axios_post orderData now isoNow s in
  let order := fst (createOrder orderData now s) in
  fst (fst r) = mkOrderResponse 200 (OrderCreated order)
  /\ Order.id order = currentId s
  /\ JsMap.get (currentId s) (orders (snd r)) = Some order
  /\ posted (snd (fst r))
     = map (fun w => webhookRequest JSON_stringify w (orderCreatedPayload order isoNow))
           (filter (relevant "order.created") (JsMap.values (webhooks s)))
  /\ webhooks (snd r) = webhooks s /\ conversations (snd r) = conversations s
  /\ messages (snd r) = messages s /\ products (snd r) = products s.
Proof.
  intros r order. subst r. unfold postOrder.
  pose proof (surjective_pairing (createOrder orderData now s)) as E.
  fold order in E. set (s1 := snd (createOrder orderData now s)) in *.
  rewrite E. unfold getActiveWebhooks, read.
  set (active := filter _ (JsMap.values (webhooks s1))).
  assert (T : posted (fst (triggerOrderCreated JSON_stringify axios_post order isoNow active))
              = map (fun w => webhookRequest JSON_stringify w (orderCreatedPayload order isoNow))
                    (filter (relevant "order.created") active)
              /\ snd (triggerOrderCreated JSON_stringify axios_post order isoNow active)
                 = Returns tt).
  { unfold triggerOrderCreated, deliverAll, indexed, bindIO.
    destruct (deliver_from JSON_stringify axios_post (orderCreatedPayload order isoNow)
                (filter (relevant "order.created") active) 0) as [H1 H2].
    cbv zeta in H1, H2. rewrite H2. cbn [fst snd retIO]. rewrite app_nil_r.
    split; [exact H1|reflexivity]. }
  destruct T as [T C]. rewrite C. cbn [fst snd].
  assert (Hw : webhooks s1 = webhooks s) by (unfold s1; run_method; reflexivity).
  split; [reflexivity|]. split; [unfold order; run_method; reflexivity|].
  split; [unfold s1; run_method; apply JsMapFacts.get_set_same|].
  split.
  { rewrite T. unfold active. rewrite relevant_active, Hw. reflexivity. }
  unfold s1. run_method. repeat split.
Qed.

(** ** The store: single records *)

Lemma get_remove_other {V} (m : JsMap.t V) k k' :
  k' <> k -> JsMap.get k' (JsMap.remove k m) = JsMap.get k' m.
Proof.
  intros Hne. unfold JsMap.get. induction m as [|[j v] m IH]; [reflexivity|].
  cbn [JsMap.remove fst]. destruct (j =? k) eqn:E.
  - apply Nat.eqb_eq in E. subst j. cbn [find fst].
    destruct (k =? k') eqn:E'; [apply Nat.eqb_eq in E'; congruence | reflexivity].
  - cbn [find fst]. destruct (j =? k'); [reflexivity | exact IH].
Qed.

Lemma has_remove_same {V} (m : JsMap.t V) k :
  NoDup (JsMap.keys m) -> JsMap.has k (JsMap.remove k m) = false.
Proof.
  unfold JsMap.has. induction m as [|[j v] m IH]; intros Hnd; [reflexivity|].
  cbn [JsMap.keys map fst] in Hnd. inversion Hnd as [|? ? Hnotin Hnd']; subst.
  cbn [JsMap.remove fst]. destruct (j =? k) eqn:E.
  - apply Nat.eqb_eq in E. subst j.
    destruct (existsb (fun e => fst e =? k) m) eqn:F; [|reflexivity].
    apply existsb_exists in F. destruct F as ([j w] & Hin & Hj).
    apply Nat.eqb_eq in Hj. cbn [fst] in Hj. subst j.
    exfalso. apply Hnotin. apply in_map_iff. now exists (k, w).
  - cbn [existsb fst]. rewrite E. apply IH, Hnd'.
Qed.

Lemma NoDup_webhooks s : ids_inv s -> NoDup (JsMap.keys (webhooks s)).
Proof.
  intros (_ & _ & _ & Hnd). unfold all_keys in Hnd.
  repeat apply NoDup_app_remove_l in Hnd. exact Hnd.
Qed.

Lemma size_remove {V} (m : JsMap.t V) k :
  JsMap.size (JsMap.remove k m) = JsMap.size m - (if JsMap.has k m then 1 else 0).
Proof.
  unfold JsMap.size, JsMap.has. induction m as [|[j v] m IH]; [reflexivity|].
  cbn [JsMap.remove existsb fst]. destruct (j =? k); cbn [orb length]; [lia|].
  rewrite IH. destruct (existsb _ m) eqn:E; [|lia].
  destruct m; [discriminate | cbn [length]; lia].
Qed.

(** X10. In any store reached from the empty one, [deleteWebhook] answers
    whether the subscription was there, after it the subscription cannot
    be fetched, every other subscription is fetched as before, the number
    of subscriptions falls by one exactly when it answers [true], a second
    deletion answers [false], and none of the six other maps, nor the
    counter, moves. *)
Theorem delete_webhook_removes_exactly_one (calls : list Call) (id : nat) :
  let s := run calls newMemStorage in
  let r := deleteWebhook id s in
  fst r = JsMap.has id (webhooks s)
  /\ fst (getWebhook id (snd r)) = None
  /\ (forall k, k <> id -> fst (getWebhook k (snd r)) = fst (getWebhook k s))
  /\ JsMap.size (webhooks (snd r))
     = JsMap.size (webhooks s) - (if fst r then 1 else 0)
  /\ fst (deleteWebhook id (snd r)) = false
  /\ users (snd r) = users s
  /\ conversations (snd r) = conversations s
  /\ messages (snd r) = messages s
  /\ products (snd r) = products s
  /\ orders (snd r) = orders s
  /\ recommendations (snd r) = recommendations s
  /\ currentId (snd r) = currentId s.
Proof.
  intros s r.
  assert (Hnd : NoDup (JsMap.keys (webhooks s))).
  { apply NoDup_webhooks. unfold s. apply run_ids_inv, newMemStorage_ids_inv. }
  assert (Hgone : JsMap.has id (JsMap.remove id (webhooks s)) = false)
    by (apply has_remove_same, Hnd).
  subst r. unfold getWebhook. run_method.
  split; [reflexivity|]. split.
  { apply JsMapFacts.get_None. intros Hin.
    apply JsMapFacts.has_In in Hin. congruence. }
  split; [intros k Hk; apply get_remove_other, Hk|].
  split; [apply size_remove|].
  split; [exact Hgone|]. repeat split.
Qed.

Lemma appended_set {V} (m : JsMap.t V) k v :
  ~ In k (JsMap.keys m) -> appended m (JsMap.set k v m) k v.
Proof.
  intros H. split; [now apply JsMapFacts.get_None|].
  split; [now apply set_fresh | apply JsMapFacts.get_set_same].
Qed.

(** X11. In any store reached from the empty one, each [create] method
    files the record it returns under the current counter, after the
    entries that were there: it never overwrites and never reorders. *)
Theorem create_appends_never_overwrites (calls : list Call) (now : Date) :
  let s := run calls newMemStorage in
  (forall d, let r := createUser d now s in
     User.id (fst r) = currentId s
     /\ appended (users s) (users (snd r)) (currentId s) (fst r))
  /\ (forall d, let r := createConversation d now s in
     Conversation.id (fst r) = currentId s
     /\ appended (conversations s) (conversations (snd r)) (currentId s) (fst r))
  /\ (forall d, let r := createMessage d now s in
     Message.id (fst r) = currentId s
     /\ appended (messages s) (messages (snd r)) (currentId s) (fst r))
  /\ (forall d, let r := createProduct d now s in
     Product.id (fst r) = currentId s
     /\ appended (products s) (products (snd r)) (currentId s) (fst r))
  /\ (forall d, let r := createOrder d now s in
     Order.id (fst r) = currentId s
     /\ appended (orders s) (orders (snd r)) (currentId s) (fst r))
  /\ (forall d, let r := createRecommendation d now s in
     Recommendation.id (fst r) = currentId s
     /\ appended (recommendations s) (recommendations (snd r)) (currentId s) (fst r))
  /\ (forall d, let r := createWebhook d now s in
     Webhook.id (fst r) = currentId s
     /\ appended (webhooks s) (webhooks (snd r)) (currentId s) (fst r)).
Proof.
  intros s.
  assert (Hinv : ids_inv s) by (apply run_ids_inv, newMemStorage_ids_inv).
  destruct (counter_unused Hinv) as (U1 & U2 & U3 & U4 & U5 & U6 & U7).
  split; [|split; [|split; [|split; [|split; [|split]]]]];
    intros d r; subst r; run_method; (split; [reflexivity|]);
    apply appended_set; assumption.
Qed.

(** X12. [updateConversation] on an id that is not in the map returns
    nothing and leaves the store as it was; on an id that is there it
    returns the merged record stamped with the time of the call, files it
    under the same key, and moves no key and no other entry. *)
Theorem update_conversation_touches_one_entry
    (id : nat) (updates : PartialConversation.t) (now : Date) (s : MemStorage) :
  let r := updateConversation id updates now s in
  match JsMap.get id (conversations s) with
  | None => r = (None, s)
  | Some conversation =>
      fst r = Some (mergeConversation conversation updates now)
      /\ Conversation.updatedAt (mergeConversation conversation updates now) = now
      /\ fst (getConversation id (snd r)) = fst r
      /\ JsMap.keys (conversations (snd r)) = JsMap.keys (conversations s)
      /\ (forall k, k <> id ->
            JsMap.get k (conversations (snd r)) = JsMap.get k (conversations s))
      /\ messages (snd r) = messages s
      /\ currentId (snd r) = currentId s
  end.
Proof.
  intros r. subst r. unfold getConversation. run_method.
  destruct (JsMap.get id (conversations s)) as [c|] eqn:E; store_fields.
  - split; [reflexivity|]. split; [reflexivity|].
    split; [apply JsMapFacts.get_set_same|].
    split; [apply JsMapFacts.keys_set_present; eapply get_Some_key; exact E|].
    split; [intros k Hk; apply JsMapFacts.get_set_other, Hk|]. split; reflexivity.
  - reflexivity.
Qed.

(** ** Sorted queries *)

Section SortFacts.

Context {A : Type}.
Variable compare : A -> A -> Z.

Lemma Permutation_insert_sorted (x : A) (l : list A) :
  Permutation (insert_sorted compare x l) (x :: l).
Proof.
  induction l as [|y l IH]; cbn [insert_sorted]; [reflexivity|].
  destruct (compare x y <=? 0)%Z; [reflexivity|].
  rewrite IH. apply perm_swap.
Qed.

Lemma Permutation_sort (l : list A) : Permutation (sort compare l) l.
Proof.
  induction l as [|x l IH]; cbn [sort]; [reflexivity|].
  rewrite Permutation_insert_sorted. now constructor.
Qed.

(** The order the comparator stands for. *)
Variable le : A -> A -> Prop.
Hypothesis le_trans : forall x y z, le x y -> le y z -> le x z.
Hypothesis compare_le : forall x y, (compare x y <= 0)%Z -> le x y.
Hypothesis compare_gt : forall x y, (0 < compare x y)%Z -> le y x.

Lemma sorted_insert_sorted (x : A) (l : list A) :
  StronglySorted le l -> StronglySorted le (insert_sorted compare x l).
Proof.
  induction l as [|y l IH]; intros Hs; cbn [insert_sorted].
  - constructor; constructor.
  - inversion Hs as [|? ? Hs' Hall]; subst.
    destruct (compare x y <=? 0)%Z eqn:E.
    + apply Z.leb_le in E. constructor; [exact Hs|].
      constructor; [now apply compare_le|].
      eapply Forall_impl; [|exact Hall]. intros z Hz.
      eapply le_trans; [apply compare_le, E | exact Hz].
    + apply Z.leb_gt in E. constructor; [apply IH, Hs'|].
      apply Forall_forall. intros z Hz.
      apply (Permutation_in _ (Permutation_insert_sorted x l)) in Hz.
      destruct Hz as [<-|Hz]; [now apply compare_gt|].
      rewrite Forall_forall in Hall. now apply Hall.
Qed.

Lemma sorted_sort (l : list A) : StronglySorted le (sort compare l).
Proof.
  induction l as [|x l IH]; cbn [sort]; [constructor|].
  now apply sorted_insert_sorted.
Qed.

Lemma sorted_firstn (n : nat) (l : list A) :
  StronglySorted le l -> StronglySorted le (firstn n l).
Proof.
  revert n; induction l as [|x l IH]; intros [|n] Hs; cbn [firstn];
    try constructor.
  - inversion Hs; subst. now apply IH.
  - inversion Hs; subst. now apply Forall_firstn.
Qed.

Lemma sorted_last (l : list A) (x d : A) :
  StronglySorted le l -> In x l -> x = last l d \/ le x (last l d).
Proof.
  induction l as [|z l IH]; intros Hs Hx; [contradiction|].
  inversion Hs as [|? ? Hs' Hall]; subst.
  destruct l as [|z' l].
  - destruct Hx as [<-|[]]. now left.
  - change (last (z :: z' :: l) d) with (last (z' :: l) d).
    destruct Hx as [<-|Hx]; [|now apply IH].
    right. rewrite Forall_forall in Hall. apply Hall.
    destruct (@exists_last _ (z' :: l)) as (l' & a & E); [discriminate|].
    rewrite E, last_last. apply in_or_app. right. now left.
Qed.

End SortFacts.

(** [Array.prototype.sort] is stable: records the comparator calls equal
    stay in the order they had. *)
Lemma sort_stable {A} (key : A -> nat) (compare : A -> A -> Z) (t : nat) (l : list A) :
  (forall x y, (compare x y <= 0)%Z \/ key y <> key x) ->
  filter (fun x => key x =? t) (sort compare l) = filter (fun x => key x =? t) l.
Proof.
  intros Hc.
  assert (I : forall x l, filter (fun x => key x =? t) (insert_sorted compare x l)
                          = filter (fun x => key x =? t) (x :: l)).
  { intros x l0. induction l0 as [|y l0 IH]; cbn [insert_sorted]; [reflexivity|].
    destruct (compare x y <=? 0)%Z eqn:E; [reflexivity|].
    apply Z.leb_gt in E. cbn [filter] in *. rewrite IH.
    destruct (key x =? t) eqn:Ex; [|reflexivity].
    destruct (key y =? t) eqn:Ey; [|reflexivity].
    apply Nat.eqb_eq in Ex, Ey. destruct (Hc x y) as [H|H]; [lia|congruence]. }
  induction l as [|x l IH]; cbn [sort]; [reflexivity|].
  rewrite I. cbn [filter]. now rewrite IH.
Qed.

(** X13. [getMessagesByConversation] returns the stored messages of that
    conversation and no other, each as often as it is stored, oldest
    first; messages with the same timestamp keep the order in which they
    were stored; the store is not changed. *)
Theorem messages_by_conversation_oldest_first (conversationId : nat) (s : MemStorage) :
  let mine :=
    filter (fun msg => Message.conversationId msg =? conversationId)
           (JsMap.values (messages s)) in
  let found := fst (getMessagesByConversation conversationId s) in
  Permutation found mine
  /\ StronglySorted (fun a b => Message.timestamp a <= Message.timestamp b) found
  /\ (forall t, filter (fun msg => Message.timestamp msg =? t) found
                = filter (fun msg => Message.timestamp msg =? t) mine)
  /\ snd (getMessagesByConversation conversationId s) = s.
Proof.
  intros mine found. subst found. unfold getMessagesByConversation, read.
  cbn [fst snd]. fold mine. split; [apply Permutation_sort|].
  split.
  { apply sorted_sort; intros; lia. }
  split; [|reflexivity].
  intros t. apply sort_stable. intros x y. lia.
Qed.

(** X14. [getRecentMessages] sorts the stored messages newest first, messages
    with the same time staying in stored order, and returns the front of
    that list: the first [limit] of them (50 when no limit is given), all
    of them when there are fewer; with a negative limit, all but that many
    at the end, the oldest ones.  Each stored message is returned or left
    out as often as it is stored, and the store is not changed. *)
Theorem recent_messages_are_the_newest (limit : option SliceEnd) (s : MemStorage) :
  let stored := JsMap.values (messages s) in
  let found := fst (getRecentMessages limit s) in
  length found
  = match limit with
    | None => Nat.min 50 (JsMap.size (messages s))
    | Some MinusInfinity => 0
    | Some (Whole z) =>
        if (z <? 0)%Z then JsMap.size (messages s) - Z.to_nat (- z)
        else Nat.min (Z.to_nat z) (JsMap.size (messages s))
    | Some PlusInfinity => JsMap.size (messages s)
    end
  /\ (exists left_out,
        Permutation (found ++ left_out) stored
        /\ StronglySorted (fun a b => Message.timestamp b <= Message.timestamp a)
                          (found ++ left_out)
        /\ forall t,
             filter (fun x => Message.timestamp x =? t) (found ++ left_out)
             = filter (fun x => Message.timestamp x =? t) stored)
  /\ snd (getRecentMessages limit s) = s.
Proof.
  intros stored found. subst found. unfold getRecentMessages, read, slice_to.
  cbn [fst snd]. fold stored.
  split.
  { rewrite length_firstn, length_sort.
    assert (E : length stored = JsMap.size (messages s))
      by (unfold stored, JsMap.values, JsMap.size; apply length_map).
    rewrite E. destruct limit as [[|z|]|]; cbn [or_default slice_final].
    - lia.
    - destruct (z <? 0)%Z; lia.
    - lia.
    - change (Z.to_nat 50) with 50. destruct (50 <? 0)%Z eqn:F; [discriminate F | lia]. }
  split; [|reflexivity].
  exists (skipn (slice_final (or_default limit) (length (sort newest_first stored)))
                (sort newest_first stored)).
  rewrite firstn_skipn. split; [apply Permutation_sort|]. split.
  - apply sorted_sort; unfold newest_first; intros; lia.
  - intros t. apply sort_stable. intros x y. unfold newest_first. lia.
Qed.

(** X15. [getRecentOrders] sorts the stored orders latest created first, orders
    with the same time staying in stored order, and returns the front of
    that list: the first [limit] of them (50 when no limit is given), all
    of them when there are fewer; with a negative limit, all but that many
    at the end, the earliest created ones.  Each stored order is returned or left
    out as often as it is stored, and the store is not changed. *)
Theorem recent_orders_are_the_latest (limit : option SliceEnd) (s : MemStorage) :
  let stored := JsMap.values (orders s) in
  let found := fst (getRecentOrders limit s) in
  length found
  = match limit with
    | None => Nat.min 50 (JsMap.size (orders s))
    | Some MinusInfinity => 0
    | Some (Whole z) =>
        if (z <? 0)%Z then JsMap.size (orders s) - Z.to_nat (- z)
        else Nat.min (Z.to_nat z) (JsMap.size (orders s))
    | Some PlusInfinity => JsMap.size (orders s)
    end
  /\ (exists left_out,
        Permutation (found ++ left_out) stored
        /\ StronglySorted (fun a b => Order.createdAt b <= Order.createdAt a)
                          (found ++ left_out)
        /\ forall t,
             filter (fun x => Order.createdAt x =? t) (found ++ left_out)
             = filter (fun x => Order.createdAt x =? t) stored)
  /\ snd (getRecentOrders limit s) = s.
Proof.
  intros stored found. subst found. unfold getRecentOrders, read, slice_to.
  cbn [fst snd]. fold stored.
  split.
  { rewrite length_firstn, length_sort.
    assert (E : length stored = JsMap.size (orders s))
      by (unfold stored, JsMap.values, JsMap.size; apply length_map).
    rewrite E. destruct limit as [[|z|]|]; cbn [or_default slice_final].
    - lia.
    - destruct (z <? 0)%Z; lia.
    - lia.
    - change (Z.to_nat 50) with 50. destruct (50 <? 0)%Z eqn:F; [discriminate F | lia]. }
  split; [|reflexivity].
  exists (skipn (slice_final (or_default limit) (length (sort latest_order_first stored)))
                (sort latest_order_first stored)).
  rewrite firstn_skipn. split; [apply Permutation_sort|]. split.
  - apply sorted_sort; unfold latest_order_first; intros; lia.
  - intros t. apply sort_stable. intros x y. unfold latest_order_first. lia.
Qed.

Lemma messages_sorted (conversationId : nat) (s : MemStorage) :
  Permutation (fst (getMessagesByConversation conversationId s))
              (filter (fun msg => Message.conversationId msg =? conversationId)
                      (JsMap.values (messages s)))
  /\ StronglySorted (fun a b => Message.timestamp a <= Message.timestamp b)
                    (fst (getMessagesByConversation conversationId s)).
Proof.
  unfold getMessagesByConversation, read. cbn [fst].
  split; [apply Permutation_sort | apply sorted_sort; intros; lia].
Qed.

(** ** GET /api/conversations *)

Lemma forEach_reads {A B} (f : A -> Method B) (l : list A) (s : MemStorage) :
  (forall x, snd (f x s) = s) ->
  forEach f l s = (map (fun x => fst (f x s)) l, s).
Proof.
  intros Hf. induction l as [|x l IH]; [reflexivity|].
  cbn [forEach map]. unfold bind, ret.
  pose proof (Hf x) as Hx. destruct (f x s) as [y s1]. cbn [snd fst] in *. subst s1.
  now rewrite IH.
Qed.

Lemma last_map_Some {A B} (f : A -> B) (l : list A) (d : A) :
  l <> [] -> last (map (fun x => Some (f x)) l) None = Some (f (last l d)).
Proof.
  induction l as [|x l IH]; [congruence|]. intros _.
  destruct l as [|y l]; [reflexivity|].
  change (last (map (fun x => Some (f x)) (y :: l)) None = Some (f (last (y :: l) d))).
  apply IH. discriminate.
Qed.

(** X16. The conversations endpoint lists the active conversations in map
    order and changes nothing in the store.  Each entry counts the stored
    messages of its conversation.  With no message the last message is the
    one recorded on the conversation; when one message of the conversation
    is newer than all its others, the last message is its text, unless the
    text is empty, in which case the recorded one is shown. *)
Theorem list_conversations_summarises_messages (s : MemStorage) :
  let listed := fst (listConversations s) in
  let mine (x : ConversationSummary) :=
    filter (fun msg => Message.conversationId msg =? Conversation.id (sum_conversation x))
           (JsMap.values (messages s)) in
  map sum_conversation listed = filter is_active (JsMap.values (conversations s))
  /\ snd (listConversations s) = s
  /\ Forall (fun x =>
       sum_messageCount x = length (mine x)
       /\ (mine x = [] ->
           sum_lastMessage x = Conversation.lastMessage (sum_conversation x))
       /\ (forall latest,
             In latest (mine x) ->
             (forall msg, In msg (mine x) ->
                msg = latest \/ Message.timestamp msg < Message.timestamp latest) ->
             sum_lastMessage x
             = if String.eqb (Message.content latest) ""
               then Conversation.lastMessage (sum_conversation x)
               else Val (Message.content latest)))
       listed.
Proof.
  intros listed mine. subst listed. unfold listConversations, getActiveConversations.
  unfold bind, read. cbv beta iota.
  rewrite forEach_reads by reflexivity. cbn [fst snd].
  split; [rewrite map_map; apply map_id|]. split; [reflexivity|].
  apply Forall_forall. intros x Hx. apply in_map_iff in Hx.
  destruct Hx as (conv & <- & _).
  unfold summarize, bind, ret. cbn [fst snd].
  pose proof (messages_sorted (Conversation.id conv) s) as (Hperm & Hsort).
  unfold getMessagesByConversation, read in *. cbn [fst snd] in *.
  unfold mine. cbn [sum_conversation sum_messageCount sum_lastMessage].
  set (stored := filter _ (JsMap.values (messages s))) in *.
  set (found := sort _ stored) in *.
  split; [apply Permutation_length, Hperm|]. split.
  - intros E. rewrite E in Hperm. apply Permutation_sym, Permutation_nil in Hperm.
    unfold lastMessageOf. now rewrite Hperm.
  - intros latest Hin Hmax.
    assert (Hne : found <> []).
    { intros E. rewrite E in Hperm. apply Permutation_nil in Hperm.
      rewrite Hperm in Hin. contradiction. }
    unfold lastMessageOf. rewrite (last_map_Some Message.content latest Hne).
    assert (Hl : last found latest = latest).
    { assert (Hlast : In (last found latest) stored).
      { apply (Permutation_in _ Hperm).
        destruct (@exists_last _ found Hne) as (l' & a & E).
        rewrite E, last_last. apply in_or_app. right. now left. }
      destruct (Hmax _ Hlast) as [E|Hlt]; [exact E|].
      assert (Hf : In latest found)
        by (apply (Permutation_in _ (Permutation_sym Hperm)), Hin).
      destruct (@sorted_last _ (fun a b => Message.timestamp a <= Message.timestamp b)
                  found latest latest Hsort Hf) as [E|Hle]; [now symmetry | lia]. }
    rewrite Hl. reflexivity.
Qed.

(** ** Recommendation statistics *)

Lemma NoDup_distinct (l : list nat) : NoDup (distinct Nat.eqb l).
Proof.
  induction l as [|x l IH]; cbn [distinct]; constructor.
  - intros Hin. apply filter_In in Hin. destruct Hin as [_ Hx].
    now rewrite Nat.eqb_refl in Hx.
  - now apply NoDup_filter.
Qed.

Lemma recommended_app k l1 l2 :
  recommended k (l1 ++ l2) = recommended k l1 + recommended k l2.
Proof. unfold recommended. now rewrite filter_app, length_app. Qed.

Lemma recommended_accepted_app k l1 l2 :
  recommended_accepted k (l1 ++ l2)
  = recommended_accepted k l1 + recommended_accepted k l2.
Proof. unfold recommended_accepted. now rewrite filter_app, length_app. Qed.

Lemma recommended_accepted_le k l : recommended_accepted k l <= recommended k l.
Proof.
  unfold recommended_accepted, recommended.
  induction l as [|r l IH]; cbn [filter]; [lia|].
  destruct (Recommendation.productId r =? k); cbn [andb length].
  - destruct (truthy_bool (Recommendation.accepted r)); cbn [length]; lia.
  - exact IH.
Qed.

Lemma tallied_step done stats r :
  tallied done stats -> tallied (done ++ [r]) (countRecommendation stats r).
Proof.
  intros H k. unfold countRecommendation. cbv zeta.
  rewrite recommended_app, recommended_accepted_app.
  assert (R1 : recommended k [r] = if Recommendation.productId r =? k then 1 else 0).
  { unfold recommended. cbn [filter].
    destruct (Recommendation.productId r =? k); reflexivity. }
  assert (R2 : recommended_accepted k [r]
               = if (Recommendation.productId r =? k)
                    && truthy_bool (Recommendation.accepted r) then 1 else 0).
  { unfold recommended_accepted. cbn [filter].
    destruct ((Recommendation.productId r =? k)
              && truthy_bool (Recommendation.accepted r)); reflexivity. }
  rewrite R1, R2. clear R1 R2.
  pose proof (recommended_accepted_le k done) as Hle.
  destruct (Nat.eq_dec k (Recommendation.productId r)) as [->|Hne].
  - rewrite JsMapFacts.get_set_same, Nat.eqb_refl. cbn [andb].
    set (x := Recommendation.productId r) in *. rewrite (H x).
    replace (recommended x done + 1 =? 0) with false
      by (symmetry; apply Nat.eqb_neq; lia).
    destruct (recommended x done =? 0) eqn:E.
    + apply Nat.eqb_eq in E.
      assert (E' : recommended_accepted x done = 0) by lia. rewrite E, E'.
      destruct (truthy_bool (Recommendation.accepted r)); reflexivity.
    + destruct (truthy_bool (Recommendation.accepted r));
        cbn [Stats.recommendations Stats.accepted]; do 2 f_equal; lia.
  - rewrite JsMapFacts.get_set_other by exact Hne.
    assert (E : (Recommendation.productId r =? k) = false)
      by (apply Nat.eqb_neq; congruence).
    rewrite E. cbn [andb]. rewrite !Nat.add_0_r. apply H.
Qed.

Lemma tallied_fold recs done stats :
  tallied done stats -> tallied (done ++ recs) (fold_left countRecommendation recs stats).
Proof.
  revert done stats. induction recs as [|r recs IH]; intros done stats H.
  - now rewrite app_nil_r.
  - cbn [fold_left].
    replace (done ++ r :: recs) with ((done ++ [r]) ++ recs)
      by (now rewrite <- app_assoc).
    apply IH, tallied_step, H.
Qed.

Lemma tallied_productStats recs : tallied recs (productStatsOf recs).
Proof.
  unfold productStatsOf. apply (@tallied_fold recs [] JsMap.empty).
  intros k. reflexivity.
Qed.

Lemma Forall_joined (P : TopProduct.t -> Prop) (catalog : JsMap.t Product.t)
      (stats : JsMap.t Stats.t) (results : list TopProduct.t) :
  Forall P results ->
  (forall k st product,
     In (k, st) stats -> JsMap.get k catalog = Some product ->
     P (TopProduct.mk product (Stats.recommendations st)
          (if 0 <? Stats.recommendations st
           then ratio (Stats.accepted st) (Stats.recommendations st)
           else 0%Q))) ->
  Forall P (fold_left (joinProduct catalog) stats results).
Proof.
  revert results. induction stats as [|[k st] stats IH]; intros results Hr Hs;
    cbn [fold_left].
  - exact Hr.
  - apply IH.
    + unfold joinProduct. destruct (JsMap.get k catalog) eqn:E; [|exact Hr].
      apply Forall_app. split; [exact Hr|]. constructor; [|constructor].
      apply Hs with (k := k); [now left | exact E].
    + intros k' st' product Hin. apply Hs. now right.
Qed.

Lemma ratio_unit (a n : nat) : a <= n -> 0 < n -> (0 <= ratio a n <= 1)%Q.
Proof.
  intros Hle Hpos. unfold ratio.
  assert (Hn : (0 < inject_Z (Z.of_nat n))%Q).
  { change 0%Q with (inject_Z 0). rewrite <- Zlt_Qlt. lia. }
  split.
  - apply Qle_shift_div_l; [exact Hn|]. rewrite Qmult_0_l.
    change 0%Q with (inject_Z 0). rewrite <- Zle_Qle. lia.
  - apply Qle_shift_div_r; [exact Hn|]. rewrite Qmult_1_l.
    rewrite <- Zle_Qle. lia.
Qed.

(** X17. Each entry of [getTopRecommendedProducts] carries the product on
    record under some product id, the number of stored recommendations
    of that id (at least one), and as success rate the accepted ones
    divided by that number, a value between 0 and 1; the entries are
    ranked by falling number of recommendations and are at most [limit]. *)
Theorem top_products_count_and_rank (limit : nat) (s : MemStorage) :
  let recs := JsMap.values (recommendations s) in
  let top := fst (getTopRecommendedProducts limit s) in
  Forall (fun e => exists productId,
            JsMap.get productId (products s) = Some (TopProduct.product e)
            /\ TopProduct.recommendations e = recommended productId recs
            /\ 0 < TopProduct.recommendations e
            /\ TopProduct.successRate e
               = ratio (recommended_accepted productId recs) (recommended productId recs)
            /\ (0 <= TopProduct.successRate e <= 1)%Q)
         top
  /\ StronglySorted
       (fun a b => TopProduct.recommendations b <= TopProduct.recommendations a) top
  /\ length top <= limit
  /\ snd (getTopRecommendedProducts limit s) = s.
Proof.
  intros recs top. subst top. unfold getTopRecommendedProducts, read.
  cbn [fst snd]. fold recs.
  split; [|split; [|split; [|reflexivity]]].
  - apply Forall_firstn, Forall_sort, Forall_joined; [constructor|].
    intros k st product Hin Hget. exists k.
    assert (Hst : JsMap.get k (productStatsOf recs) = Some st).
    { apply In_get_NoDup; [|exact Hin].
      rewrite keys_productStats. apply NoDup_distinct. }
    rewrite (tallied_productStats recs k) in Hst.
    destruct (recommended k recs =? 0) eqn:E; [discriminate|].
    apply Nat.eqb_neq in E. inversion Hst; subst st.
    cbn [TopProduct.product TopProduct.recommendations TopProduct.successRate
         Stats.recommendations Stats.accepted].
    assert (Hpos : (0 <? recommended k recs) = true) by (apply Nat.ltb_lt; lia).
    rewrite Hpos. split; [exact Hget|]. split; [reflexivity|]. split; [lia|].
    split; [reflexivity|].
    apply ratio_unit; [apply recommended_accepted_le | lia].
  - apply sorted_firstn, sorted_sort; intros; lia.
  - rewrite length_firstn. lia.
Qed.

(** ** Sales figures *)

Lemma filter_none {A} (f : A -> bool) (l : list A) :
  (forall x, In x l -> f x = false) -> filter f l = [].
Proof.
  induction l as [|x l IH]; intros H; [reflexivity|].
  cbn [filter]. rewrite (H x) by now left.
  apply IH. intros y Hy. apply H. now right.
Qed.

(** X18. The figures of [getMetrics] at the edges: the active
    conversations are never more than all conversations, the number of
    orders is the size of the order map, without a completed order the
    revenue and the average order value are 0 (nothing is divided by
    zero), and without a conversation the conversion rate is 0. *)
Theorem metrics_edge_cases (Number_ : string -> Q) (s : MemStorage) :
  let m := fst (getMetrics Number_ s) in
  Metrics.activeConversations m <= Metrics.totalConversations m
  /\ Metrics.totalConversations m = JsMap.size (conversations s)
  /\ Metrics.totalOrders m = JsMap.size (orders s)
  /\ ((forall order, In order (JsMap.values (orders s)) ->
         Order.status order <> "completed"%string) ->
      Metrics.totalRevenue m = 0%Q /\ Metrics.averageOrderValue m = 0%Q)
  /\ (JsMap.size (conversations s) = 0 -> Metrics.conversionRate m = 0%Q)
  /\ snd (getMetrics Number_ s) = s.
Proof.
  intros m. subst m. unfold getMetrics, read.
  cbn [fst snd Metrics.activeConversations Metrics.totalConversations
       Metrics.totalOrders Metrics.totalRevenue Metrics.averageOrderValue
       Metrics.conversionRate].
  split.
  { unfold JsMap.size. rewrite <- (length_map snd (conversations s)).
    apply filter_length_le. }
  split; [reflexivity|].
  split; [unfold JsMap.values, JsMap.size; apply length_map|].
  split.
  { intros Hnone.
    rewrite filter_none; [split; reflexivity|].
    intros o Ho. apply String.eqb_neq. now apply Hnone. }
  split; [|reflexivity].
  intros E. rewrite E. reflexivity.
Qed.

(** The revenue figure of [getMetrics] is that sum, read in the rationals. *)
Lemma getMetrics_totalRevenue (Number_ : string -> Q) (s : MemStorage) :
  Metrics.totalRevenue (fst (getMetrics Number_ s))
  = completedRevenue 0%Q Qplus Number_ s.
Proof. reflexivity. Qed.

(** X19. In any store reached from the empty one, creating an order
    raises the number of orders by one and leaves the conversation
    figures.  The sum [getMetrics] takes over the completed orders, read
    with any addition (that of IEEE doubles, as in the code, included),
    becomes the sum before plus [Number(totalAmount)], in that order, when
    the status of the new order is [completed], and stays as it was
    otherwise; the number of completed orders, by which the average
    divides, rises by one in the first case only. *)
Theorem create_order_moves_the_figures
    (Num : Type) (zero : Num) (plus : Num -> Num -> Num) (Number_ : string -> Num)
    (NumberQ : string -> Q)
    (calls : list Call) (insertOrder : InsertOrder.t) (now : Date) :
  let s := run calls newMemStorage in
  let created := snd (createOrder insertOrder now s) in
  let before := fst (getMetrics NumberQ s) in
  let after := fst (getMetrics NumberQ created) in
  Metrics.totalOrders after = S (Metrics.totalOrders before)
  /\ completedRevenue zero plus Number_ created
     = (if String.eqb (InsertOrder.status insertOrder) "completed"
        then plus (completedRevenue zero plus Number_ s)
                  (Number_ (InsertOrder.totalAmount insertOrder))
        else completedRevenue zero plus Number_ s)
  /\ length (filter is_completed (JsMap.values (orders created)))
     = length (filter is_completed (JsMap.values (orders s)))
       + (if String.eqb (InsertOrder.status insertOrder) "completed" then 1 else 0)
  /\ Metrics.activeConversations after = Metrics.activeConversations before
  /\ Metrics.totalConversations after = Metrics.totalConversations before.
Proof.
  intros s created before after. subst created before after.
  assert (Hinv : ids_inv s) by (apply run_ids_inv, newMemStorage_ids_inv).
  destruct (counter_unused Hinv) as (_ & _ & _ & _ & U5 & _).
  unfold getMetrics, completedRevenue, read. run_method.
  cbn [Metrics.activeConversations Metrics.totalConversations Metrics.totalOrders].
  rewrite (@set_fresh _ (orders s) (currentId s) _ U5). unfold JsMap.values.
  rewrite map_app, filter_app, !length_app. cbn [map snd].
  match goal with
  | |- context [filter is_completed [?o]] =>
      change (filter is_completed [o])
        with (if String.eqb (InsertOrder.status insertOrder) "completed"
              then [o] else [])
  end.
  split; [cbn [length]; lia|].
  destruct (String.eqb (InsertOrder.status insertOrder) "completed").
  - rewrite fold_left_app. cbn [fold_left length Order.totalAmount].
    split; [reflexivity|]. split; [lia|]. split; reflexivity.
  - rewrite app_nil_r. cbn [length].
    split; [reflexivity|]. split; [lia|]. split; reflexivity.
Qed.

(** ** Product synchronisation, seen by a caller *)

Lemma syncStep_keys td m c :
  Forall (fun k => k < c) (JsMap.keys m) ->
  let st := syncStep td (m, c) in
  Forall (fun k => k < snd st) (JsMap.keys (fst st))
  /\ ((JsMap.keys (fst st) = JsMap.keys m /\ snd st = c)
      \/ (JsMap.keys (fst st) = JsMap.keys m ++ [c] /\ snd st = S c)).
Proof.
  intros Hb. destruct td as [t d]. unfold syncStep.
  destruct (find _ _) as [e|].
  - destruct (JsMap.get (Product.id e) m) as [p|] eqn:Eg; cbn [fst snd].
    + rewrite JsMapFacts.keys_set_present by (eapply get_Some_key; exact Eg). auto.
    + auto.
  - cbn [fst snd].
    assert (Hc : ~ In c (JsMap.keys m)).
    { intros Hin. rewrite Forall_forall in Hb. specialize (Hb _ Hin). lia. }
    rewrite JsMapFacts.keys_set_absent by exact Hc. split; [|auto].
    apply Forall_app. split; [|repeat constructor].
    eapply Forall_impl; [|exact Hb]. cbn. intros; lia.
Qed.

Lemma syncSteps_keys tds :
  forall m c,
    Forall (fun k => k < c) (JsMap.keys m) ->
    exists n,
      n <= length tds
      /\ JsMap.keys (fst (syncSteps tds (m, c))) = JsMap.keys m ++ seq c n
      /\ snd (syncSteps tds (m, c)) = c + n.
Proof.
  induction tds as [|td tds IH]; intros m c Hb.
  - exists 0. cbn [syncSteps fold_left fst snd seq length].
    rewrite app_nil_r. repeat split; lia.
  - change (syncSteps (td :: tds) (m, c)) with (syncSteps tds (syncStep td (m, c))).
    destruct (@syncStep_keys td m c Hb) as [Hb' Hk]. cbv zeta in Hb', Hk.
    destruct (syncStep td (m, c)) as [m1 c1]. cbn [fst snd] in *.
    destruct (IH m1 c1 Hb') as (n & Hn & Hkeys & Hc).
    destruct Hk as [[Ek Ec]|[Ek Ec]]; subst c1.
    + exists n. rewrite Hkeys, Hc, Ek. cbn [length]. repeat split; lia.
    + exists (S n). rewrite Hkeys, Hc, Ek, <- app_assoc. cbn [length seq app].
      repeat split; lia.
Qed.

Lemma syncLoop_pushes_at_most tds :
  forall pushed s,
    length (fst (syncLoop tds pushed s)) <= length pushed + length tds.
Proof.
  induction tds as [|[t d] tds IH]; intros pushed s.
  - cbn. lia.
  - cbn [syncLoop]. unfold bind at 1.
    destruct (syncOne d t s) as [r s']. etransitivity; [apply IH|].
    destruct r; rewrite ?length_app; cbn [length]; lia.
Qed.

(** X20. In any store reached from the empty one, [syncProducts] only
    appends to the product map: the keys that were there stay, in their
    order, and the new products take the next values of the counter, at
    most one per draft; it returns at most one product per draft and
    touches no other map. *)
Theorem sync_products_only_appends
    (calls : list Call) (clock : nat -> Date) (drafts : list InsertProduct.t) :
  let s := run calls newMemStorage in
  let r := syncProducts clock drafts s in
  (exists n,
     n <= length drafts
     /\ JsMap.keys (products (snd r)) = JsMap.keys (products s) ++ seq (currentId s) n
     /\ currentId (snd r) = currentId s + n)
  /\ length (fst r) <= length drafts
  /\ users (snd r) = users s /\ conversations (snd r) = conversations s
  /\ messages (snd r) = messages s /\ orders (snd r) = orders s
  /\ recommendations (snd r) = recommendations s /\ webhooks (snd r) = webhooks s.
Proof.
  intros s r. subst r. unfold syncProducts.
  assert (Hinv : ids_inv s) by (apply run_ids_inv, newMemStorage_ids_inv).
  assert (Hb : Forall (fun k => k < currentId s) (JsMap.keys (products s))).
  { destruct Hinv as (_ & _ & Hk & _). unfold all_keys in Hk.
    rewrite !Forall_app in Hk. tauto. }
  rewrite syncLoop_install. unfold install. store_fields.
  split.
  { destruct (@syncSteps_keys (timed clock drafts) _ _ Hb) as (n & Hn & Hk & Hc).
    exists n. rewrite length_timed in Hn. auto. }
  split.
  { etransitivity; [apply syncLoop_pushes_at_most|].
    rewrite length_timed. cbn [length]. lia. }
  repeat split.
Qed.

(** What the loop of [syncProducts] leaves under an external id that one
    of its drafts carries: the first product with that id holds the title
    and the price of the last such draft. *)
Lemma syncSteps_last_wins (x : Nullable string) (d0 : InsertProduct.t) tds :
  forall m c,
    products_wf c m ->
    filter (hits x) (map snd tds) <> [] ->
    exists p,
      find (same_shopifyId x) (JsMap.values (fst (syncSteps tds (m, c)))) = Some p
      /\ Product.title p
         = InsertProduct.title (last (filter (hits x) (map snd tds)) d0)
      /\ Product.price p
         = InsertProduct.price (last (filter (hits x) (map snd tds)) d0).
Proof.
  induction tds as [|[t d] tds IH] using rev_ind; intros m c Hwf Hsome;
    [now contradiction Hsome|].
  unfold syncSteps. rewrite fold_left_app. cbn [fold_left]. fold (syncSteps tds (m, c)).
  pose proof (@products_wf_steps tds c m Hwf) as Hwf'.
  rewrite map_app, filter_app in *. cbn [map snd filter] in *.
  destruct (syncSteps tds (m, c)) as [m1 c1] eqn:Est. cbn [fst snd] in Hwf'.
  destruct (hits x d) eqn:Eh.
  - rewrite last_last. clear IH Hsome.
    apply eqb_nullable_string_eq in Eh. unfold syncStep. rewrite <- Eh.
    destruct (find (same_shopifyId x) (JsMap.values m1)) as [e|] eqn:Ef.
    + rewrite (found_is_filed _ Hwf' Ef). cbn [fst].
      exists (mergeProduct e (asPartialProduct d) t). split; [|split; reflexivity].
      apply (find_values_set_found _ _ Hwf' Ef).
      unfold same_shopifyId. apply eqb_nullable_string_eq.
      apply find_some in Ef. destruct Ef as [_ Ef]. unfold same_shopifyId in Ef.
      apply eqb_nullable_string_eq in Ef.
      rewrite hit_keeps_shopifyId; [exact Ef|]. unfold hits. rewrite Ef, <- Eh.
      apply eqb_nullable_string_refl.
    + cbn [fst].
      match goal with |- context [JsMap.set c1 ?v m1] => exists v end.
      split; [|split; reflexivity].
      apply find_values_set_new; [exact Ef|].
      unfold same_shopifyId. cbn [Product.shopifyId]. rewrite Eh.
      apply eqb_nullable_string_refl.
  - rewrite app_nil_r in *.
    destruct (IH m c Hwf Hsome) as (p & Hp & Ht & Hpr). rewrite Est in Hp.
    cbn [fst] in Hp. exists p. split; [|split; assumption].
    assert (Hne : x <> lookup_key d).
    { intros E. unfold hits in Eh. rewrite E, eqb_nullable_string_refl in Eh.
      discriminate. }
    unfold syncStep.
    destruct (find (same_shopifyId (lookup_key d)) (JsMap.values m1)) as [e|] eqn:Ef.
    + pose proof (found_is_filed _ Hwf' Ef) as Hg. rewrite Hg. cbn [fst].
      rewrite <- Hp.
      apply find_some in Ef. destruct Ef as [_ Ef]. unfold same_shopifyId in Ef.
      apply eqb_nullable_string_eq in Ef.
      assert (Hx : forall q, Product.shopifyId q = lookup_key d ->
                             same_shopifyId x q = false).
      { intros q Hq. unfold same_shopifyId.
        destruct (eqb_nullable String.eqb (Product.shopifyId q) x) eqn:E;
          [|reflexivity]. apply eqb_nullable_string_eq in E. congruence. }
      apply (@find_values_set_aside _ (same_shopifyId x) m1 (Product.id e) e _ Hg);
        apply Hx; [exact Ef|].
      rewrite hit_keeps_shopifyId; [exact Ef|].
      unfold hits. rewrite Ef. apply eqb_nullable_string_refl.
    + cbn [fst]. apply find_values_set_after; [|exact Hp].
      destruct Hwf' as [_ Hf]. intros Hin. unfold JsMap.keys in Hin.
      apply in_map_iff in Hin. destruct Hin as (e & He & Hin).
      rewrite Forall_forall in Hf. destruct (Hf _ Hin). lia.
Qed.

(** The product found under the external id of a draft after a run. *)
Lemma syncProducts_last_wins
    (clock : nat -> Date) (drafts : list InsertProduct.t) (s : MemStorage)
    (d : InsertProduct.t) :
  products_wf (currentId s) (products s) ->
  In d drafts ->
  let after := snd (syncProducts clock drafts s) in
  let same := filter (hits (lookup_key d)) drafts in
  exists p,
    fst (getProductByShopifyId (lookup_key d) after) = Some p
    /\ Product.shopifyId p = lookup_key d
    /\ Product.title p = InsertProduct.title (last same d)
    /\ Product.price p = InsertProduct.price (last same d).
Proof.
  intros Hwf Hin after same. subst after same.
  unfold syncProducts, getProductByShopifyId, read. rewrite syncLoop_install.
  unfold install. store_fields.
  assert (Hsome : filter (hits (lookup_key d)) (map snd (timed clock drafts)) <> []).
  { rewrite map_snd_timed. intros E.
    assert (Hd : In d (filter (hits (lookup_key d)) drafts)).
    { apply filter_In. split; [exact Hin|]. apply eqb_nullable_string_refl. }
    rewrite E in Hd. contradiction. }
  destruct (@syncSteps_last_wins (lookup_key d) d (timed clock drafts)
              (products s) (currentId s) Hwf Hsome) as (p & Hp & Ht & Hpr).
  rewrite map_snd_timed in Ht, Hpr.
  exists p. split; [exact Hp|]. split; [|split; assumption].
  apply find_some in Hp. destruct Hp as [_ Hp]. unfold same_shopifyId in Hp.
  now apply eqb_nullable_string_eq in Hp.
Qed.

(** X21. After [syncProducts] on a store whose products are filed under
    their ids, every draft of the batch can be looked up by its external
    id, and the product found has that external id and the title and the
    price of the last draft of the batch with the same external id: when
    an external id comes twice, the later draft wins. *)
Theorem sync_products_last_draft_wins
    (clock : nat -> Date) (drafts : list InsertProduct.t) (s : MemStorage)
    (d : InsertProduct.t) :
  products_wf (currentId s) (products s) ->
  In d drafts ->
  let after := snd (syncProducts clock drafts s) in
  let same := filter (hits (lookup_key d)) drafts in
  exists p,
    fst (getProductByShopifyId (lookup_key d) after) = Some p
    /\ Product.shopifyId p = lookup_key d
    /\ Product.title p = InsertProduct.title (last same d)
    /\ Product.price p = InsertProduct.price (last same d).
Proof. exact (@syncProducts_last_wins clock drafts s d). Qed.

Lemma sync_products_last_draft_wins_witness :
  products_wf (currentId newMemStorage) (products newMemStorage)
  /\ In (InsertProduct.mk (Some (Val "sku-1"%string)) "Mug" (Some (Val "blue"%string))
           "4.00" None None None (Some (Val 3%Z)) None (Some (Val true)))
        example_drafts
  /\ exists p,
       fst (getProductByShopifyId (Val "sku-1"%string)
              (snd (syncProducts (fun i => 100 + i) example_drafts newMemStorage)))
       = Some p
       /\ Product.shopifyId p = Val "sku-1"%string
       /\ Product.title p = "Mug, large"%string
       /\ Product.price p = "5.00"%string.
Proof.
  assert (W : products_wf (currentId newMemStorage) (products newMemStorage))
    by (split; constructor).
  assert (I : In (InsertProduct.mk (Some (Val "sku-1"%string)) "Mug"
                    (Some (Val "blue"%string)) "4.00" None None None
                    (Some (Val 3%Z)) None (Some (Val true)))
                 example_drafts) by (left; reflexivity).
  split; [exact W|]. split; [exact I|].
  exact (@sync_products_last_draft_wins (fun i => 100 + i) example_drafts
           newMemStorage _ W I).
Defined.

(** X22. In any store reached from the empty one by calls none of which
    patches the [id] of a product, every product is filed under its own
    [id], the keys of the product map are pairwise different and all
    below the counter; so [getProduct] on the [id] of a stored product
    returns that product. *)
Theorem products_stay_filed (calls : list Call) :
  Forall keeps_product_id calls ->
  let s := run calls newMemStorage in
  NoDup (JsMap.keys (products s))
  /\ Forall (fun e => Product.id (snd e) = fst e /\ fst e < currentId s) (products s)
  /\ forall p, In p (JsMap.values (products s)) ->
               fst (getProduct (Product.id p) s) = Some p.
Proof.
  intros Hk s. destruct (run_products_wf Hk) as [Hnd Hf]. fold s in Hnd, Hf.
  split; [exact Hnd|]. split; [exact Hf|].
  intros p Hin. unfold getProduct, read. cbn [fst].
  unfold JsMap.values in Hin. apply in_map_iff in Hin.
  destruct Hin as ([k q] & E & Hin). cbn [snd] in E. subst q.
  rewrite Forall_forall in Hf. destruct (Hf _ Hin) as [Hid _]. cbn [fst snd] in Hid.
  rewrite Hid. now apply In_get_NoDup.
Qed.

Lemma products_stay_filed_witness :
  Forall keeps_product_id
    [SyncProducts (fun i => 100 + i) example_drafts;
     UpdateProduct 1 (asPartialProduct (InsertProduct.mk None "Cup" None "3.00"
                                          None None None None None None)) 300]
  /\ NoDup (JsMap.keys (products
        (run [SyncProducts (fun i => 100 + i) example_drafts;
              UpdateProduct 1
                (asPartialProduct (InsertProduct.mk None "Cup" None "3.00"
                                     None None None None None None)) 300]
             newMemStorage))).
Proof.
  assert (K : Forall keeps_product_id
                [SyncProducts (fun i => 100 + i) example_drafts;
                 UpdateProduct 1
                   (asPartialProduct (InsertProduct.mk None "Cup" None "3.00"
                                        None None None None None None)) 300]).
  { repeat constructor. }
  split; [exact K|]. exact (proj1 (products_stay_filed K)).
Defined.

(** ** Lookups by a field the schema declares unique *)

(** X23. The store does not enforce the uniqueness the schema declares
    for user names, session ids and external product ids: in any store
    reached from the empty one a [create] with a value already taken is
    accepted like any other, and the lookup by that value keeps returning
    the record that was first; with a value not yet taken, the lookup
    returns the new record. *)
Theorem lookup_returns_the_first (calls : list Call) (now : Date) :
  let s := run calls newMemStorage in
  (forall d, let r := createUser d now s in
     fst (getUserByUsername (InsertUser.username d) (snd r))
     = match fst (getUserByUsername (InsertUser.username d) s) with
       | Some first => Some first
       | None => Some (fst r)
       end)
  /\ (forall d, let r := createConversation d now s in
     fst (getConversationBySessionId (InsertConversation.sessionId d) (snd r))
     = match fst (getConversationBySessionId (InsertConversation.sessionId d) s) with
       | Some first => Some first
       | None => Some (fst r)
       end)
  /\ (forall d, let r := createProduct d now s in
     fst (getProductByShopifyId (prop (InsertProduct.shopifyId d)) (snd r))
     = match fst (getProductByShopifyId (prop (InsertProduct.shopifyId d)) s) with
       | Some first => Some first
       | None => Some (fst r)
       end).
Proof.
  intros s.
  assert (Hinv : ids_inv s) by (apply run_ids_inv, newMemStorage_ids_inv).
  destruct (counter_unused Hinv) as (U1 & U2 & _ & U4 & _).
  split; [|split]; intros d r; subst r;
    unfold getUserByUsername, getConversationBySessionId, getProductByShopifyId;
    run_method.
  - rewrite find_values_appended by exact U1. cbn [User.username].
    now rewrite String.eqb_refl.
  - rewrite find_values_appended by exact U2. cbn [Conversation.sessionId].
    now rewrite String.eqb_refl.
  - rewrite find_values_appended by exact U4. unfold same_shopifyId.
    cbn [Product.shopifyId]. now rewrite eqb_nullable_string_refl.
Qed.

(** ** Switching a subscription off *)

Lemma filter_values_set_remove {V} (f : V -> bool) (m : JsMap.t V) k w u :
  JsMap.get k m = Some w -> f u = false ->
  filter f (JsMap.values (JsMap.set k u m)) = filter f (JsMap.values (JsMap.remove k m)).
Proof.
  unfold JsMap.values, JsMap.get.
  induction m as [|[j x] m IH]; intros Hg Hu; [discriminate|].
  cbn [find fst] in Hg. cbn [JsMap.set JsMap.remove fst].
  destruct (j =? k).
  - cbn [map snd filter]. now rewrite Hu.
  - cbn [map snd filter]. rewrite IH by assumption. reflexivity.
Qed.

Lemma remove_absent {V} (m : JsMap.t V) k :
  JsMap.get k m = None -> JsMap.remove k m = m.
Proof.
  unfold JsMap.get. induction m as [|[j x] m IH]; intros Hg; [reflexivity|].
  cbn [find fst] in Hg. cbn [JsMap.remove fst].
  destruct (j =? k); [discriminate|]. now rewrite IH.
Qed.

Lemma postOrder_reads stringify axios d now iso s s' :
  currentId s' = currentId s ->
  fst (getActiveWebhooks s') = fst (getActiveWebhooks s) ->
  fst (postOrder stringify axios d now iso s') = fst (postOrder stringify axios d now iso s).
Proof.
  unfold postOrder, getActiveWebhooks. run_method. intros Hc Hw.
  rewrite Hc, Hw.
  match goal with |- context [match ?x with Returns _ => _ | Throws _ => _ end] =>
    destruct x end; reflexivity.
Qed.

(** X24. For the orders endpoint, a subscription switched off by
    [updateWebhook], with a patch that sets [isActive] to anything but
    [true], counts as deleted: the next order is answered alike, and the
    same requests go out and the same lines are logged, as if
    [deleteWebhook] had been called instead. *)
Theorem switched_off_webhook_is_as_deleted
    (JSON_stringify : WebhookPayload -> string)
    (axios_post : nat -> HttpRequest -> Completion nat)
    (id : nat) (updates : PartialWebhook.t) (active : Nullable bool)
    (orderData : InsertOrder.t) (now : Date) (isoNow : string) (s : MemStorage) :
  PartialWebhook.isActive updates = Some active ->
  truthy_bool active = false ->
  fst (postOrder JSON_stringify axios_post orderData now isoNow
         (snd (updateWebhook id updates s)))
  = fst (postOrder JSON_stringify axios_post orderData now isoNow
           (snd (deleteWebhook id s))).
Proof.
  intros Hp Ha. apply postOrder_reads.
  - run_method. destruct (JsMap.get id (webhooks s)); reflexivity.
  - unfold getActiveWebhooks. run_method.
    destruct (JsMap.get id (webhooks s)) as [w|] eqn:E; store_fields.
    + eapply filter_values_set_remove; [exact E|].
      unfold mergeWebhook. cbn [Webhook.isActive]. rewrite Hp. exact Ha.
    + now rewrite remove_absent.
Qed.

Lemma switched_off_webhook_is_as_deleted_witness :
  fst (postOrder (fun _ => "{}"%string) (fun _ _ => Returns 200)
         (InsertOrder.mk None None None None "pending" "10.00" None None None)
         20 "2024-01-01T00:00:00.000Z"
         (snd (updateWebhook 1
                 (PartialWebhook.mk None None None None (Some (Val false))
                                    None None None)
                 (run [CreateWebhook
                         (InsertWebhook.mk "https://a.example/hook"
                            (JArr [JStr "order.created"]) "k1" (Some (Val true)) None)
                         10]
                      newMemStorage))))
  = fst (postOrder (fun _ => "{}"%string) (fun _ _ => Returns 200)
           (InsertOrder.mk None None None None "pending" "10.00" None None None)
           20 "2024-01-01T00:00:00.000Z"
           (snd (deleteWebhook 1
                   (run [CreateWebhook
                           (InsertWebhook.mk "https://a.example/hook"
                              (JArr [JStr "order.created"]) "k1" (Some (Val true)) None)
                           10]
                        newMemStorage)))).
Proof.
  apply (@switched_off_webhook_is_as_deleted (fun _ => "{}"%string)
           (fun _ _ => Returns 200) 1
           (PartialWebhook.mk None None None None (Some (Val false)) None None None)
           (Val false)); reflexivity.
Defined.

(** ** The Shopify listing *)

Lemma removeTags_from_In inside text c :
  In c (removeTags_from inside text) -> In c text.
Proof.
  revert inside. induction text as [|a rest IH]; intros inside; [tauto|].
  cbn [removeTags_from]. destruct inside.
  - intros H. right. eapply IH, H.
  - destruct (is_byte 60 a && existsb (is_byte 62) rest).
    + intros H. right. eapply IH, H.
    + intros [<-|H]; [now left | right; eapply IH, H].
Qed.

Lemma removeTags_from_no_gt inside text :
  existsb (is_byte 62) text = false ->
  existsb (is_byte 62) (removeTags_from inside text) = false.
Proof.
  intros H. destruct (existsb _ (removeTags_from inside text)) eqn:E; [|reflexivity].
  apply existsb_exists in E. destruct E as (c & Hin & Hc).
  apply removeTags_from_In in Hin.
  assert (existsb (is_byte 62) text = true)
    by (apply existsb_exists; now exists c).
  congruence.
Qed.

Lemma has_tag_removeTags_from inside text :
  has_tag (removeTags_from inside text) = false.
Proof.
  revert inside. induction text as [|a rest IH]; intros inside; [reflexivity|].
  cbn [removeTags_from]. destruct inside; [apply IH|].
  destruct (is_byte 60 a && existsb (is_byte 62) rest) eqn:E; [apply IH|].
  cbn [has_tag]. rewrite IH, orb_false_r.
  apply andb_false_iff in E. apply andb_false_iff.
  destruct E as [E|E]; [now left|right]. now apply removeTags_from_no_gt.
Qed.

Lemma removeTags_without_tag text : has_tag text = false -> removeTags text = text.
Proof.
  unfold removeTags. induction text as [|a rest IH]; intros H; [reflexivity|].
  cbn [has_tag] in H. apply orb_false_iff in H. destruct H as [H1 H2].
  cbn [removeTags_from]. rewrite H1. f_equal. now apply IH.
Qed.

Lemma removeTags_from_length inside text :
  length (removeTags_from inside text) <= length text.
Proof.
  revert inside. induction text as [|a rest IH]; intros inside; [reflexivity|].
  cbn [removeTags_from]. destruct inside.
  - cbn [length]. etransitivity; [apply IH|]. lia.
  - destruct (is_byte 60 a && existsb (is_byte 62) rest); cbn [length].
    + etransitivity; [apply IH|]. lia.
    + apply le_n_S, IH.
Qed.

Lemma has_tag_app a b :
  has_tag (a ++ b) = false -> has_tag a = false /\ has_tag b = false.
Proof.
  induction a as [|c a IH]; intros H; [now split|].
  cbn [app has_tag] in *. apply orb_false_iff in H. destruct H as [H1 H2].
  destruct (IH H2) as [Ha Hb]. split; [|exact Hb].
  rewrite Ha, orb_false_r. rewrite existsb_app in H1.
  destruct (is_byte 60 c); [|reflexivity]. cbn [andb] in *.
  now apply orb_false_iff in H1.
Qed.

Lemma trimStart_suffix text : exists spaces, text = spaces ++ trimStart text.
Proof.
  assert (G : forall n text, length text <= n ->
                             exists spaces, text = spaces ++ trimStart text).
  { clear text. induction n as [|n IH]; intros text Hn.
    - destruct text; [now exists [] | cbn in Hn; lia].
    - destruct text as [|a rest]; [now exists []|]. cbn [length] in Hn.
      cbn [trimStart]. destruct (space1 a).
      + destruct (IH rest) as [sp E]; [lia|]. exists (a :: sp). cbn [app]. now f_equal.
      + destruct rest as [|b rest2]; [now exists []|]. cbn [length] in Hn.
        destruct (space2 a b).
        * destruct (IH rest2) as [sp E]; [lia|]. exists (a :: b :: sp).
          cbn [app]. now do 2 f_equal.
        * destruct rest2 as [|c rest3]; [now exists []|]. cbn [length] in Hn.
          destruct (space3 a b c); [|now exists []].
          destruct (IH rest3) as [sp E]; [lia|]. exists (a :: b :: c :: sp).
          cbn [app]. now do 3 f_equal. }
  apply (G (length text)). lia.
Qed.

Lemma trimStart_rev_suffix text : exists spaces, text = spaces ++ trimStart_rev text.
Proof.
  assert (G : forall n text, length text <= n ->
                             exists spaces, text = spaces ++ trimStart_rev text).
  { clear text. induction n as [|n IH]; intros text Hn.
    - destruct text; [now exists [] | cbn in Hn; lia].
    - destruct text as [|a rest]; [now exists []|]. cbn [length] in Hn.
      cbn [trimStart_rev]. destruct (space1 a).
      + destruct (IH rest) as [sp E]; [lia|]. exists (a :: sp). cbn [app]. now f_equal.
      + destruct rest as [|b rest2]; [now exists []|]. cbn [length] in Hn.
        destruct (space2 b a).
        * destruct (IH rest2) as [sp E]; [lia|]. exists (a :: b :: sp).
          cbn [app]. now do 2 f_equal.
        * destruct rest2 as [|c rest3]; [now exists []|]. cbn [length] in Hn.
          destruct (space3 c b a); [|now exists []].
          destruct (IH rest3) as [sp E]; [lia|]. exists (a :: b :: c :: sp).
          cbn [app]. now do 3 f_equal. }
  apply (G (length text)). lia.
Qed.

(** Trimming cuts at both ends and nowhere else. *)
Lemma trim_bytes_infix text :
  exists before after, text = before ++ trim_bytes text ++ after.
Proof.
  unfold trim_bytes, trimEnd.
  destruct (trimStart_suffix text) as [before E1].
  destruct (trimStart_rev_suffix (rev (trimStart text))) as [after E2].
  exists before, (rev after).
  rewrite <- rev_app_distr, <- E2, rev_involutive. exact E1.
Qed.

Lemma has_tag_trim_bytes text : has_tag text = false -> has_tag (trim_bytes text) = false.
Proof.
  intros H. destruct (trim_bytes_infix text) as (before & after & E).
  rewrite E in H. apply has_tag_app in H. destruct H as [_ H].
  now apply has_tag_app in H.
Qed.

Lemma length_trim_bytes text : length (trim_bytes text) <= length text.
Proof.
  destruct (trim_bytes_infix text) as (before & after & E).
  rewrite E at 2. rewrite !length_app. lia.
Qed.

Lemma length_list_ascii (s : string) : length (list_ascii_of_string s) = String.length s.
Proof. induction s as [|c s IH]; cbn; [reflexivity | now rewrite IH]. Qed.

(** X25. What [stripHtml] returns holds no tag: no [<] with a [>]
    somewhere after it.  A text that holds no tag is only trimmed, so an
    opening [<] that is never closed stays, with the text after it.  The
    result is never longer than the text. *)
Theorem stripHtml_leaves_no_tag (html : string) :
  has_tag (list_ascii_of_string (stripHtml html)) = false
  /\ (has_tag (list_ascii_of_string html) = false -> stripHtml html = trim html)
  /\ String.length (stripHtml html) <= String.length html.
Proof.
  unfold stripHtml. destruct (String.eqb html "") eqn:E.
  - apply String.eqb_eq in E. subst html. repeat split. cbn. lia.
  - rewrite list_ascii_of_string_of_list_ascii.
    split; [apply has_tag_trim_bytes, has_tag_removeTags_from|]. split.
    + intros H. unfold trim. now rewrite removeTags_without_tag.
    + rewrite <- !length_list_ascii, list_ascii_of_string_of_list_ascii.
      etransitivity; [apply length_trim_bytes | apply removeTags_from_length].
Qed.

Lemma toString_inj (a b : nat) : toString a = toString b -> a = b.
Proof.
  unfold toString. intros H. apply Unsigned.to_uint_inj.
  assert (E : Some (Nat.to_uint a) = Some (Nat.to_uint b))
    by (rewrite <- !NilEmpty.usu; now rewrite H).
  now inversion E.
Qed.



Lemma hits_listing (a b : ShopifyProduct.t) :
  hits (lookup_key (toInsertProduct a)) (toInsertProduct b)
  = (ShopifyProduct.id b =? ShopifyProduct.id a).
Proof.
  unfold hits, lookup_key, toInsertProduct. cbn [InsertProduct.shopifyId prop eqb_nullable].
  destruct (ShopifyProduct.id b =? ShopifyProduct.id a) eqn:E.
  - apply Nat.eqb_eq in E. rewrite E. apply String.eqb_refl.
  - apply String.eqb_neq. intros H. apply toString_inj in H.
    apply Nat.eqb_neq in E. congruence.
Qed.


(** ** POST /api/products/sync *)

Lemma filter_map_comm {A B} (f : A -> B) (p : B -> bool) (l : list A) :
  filter p (map f l) = map f (filter (fun x => p (f x)) l).
Proof.
  induction l as [|x l IH]; [reflexivity|]. cbn [map filter].
  destruct (p (f x)); cbn [map]; now rewrite IH.
Qed.

Lemma last_map_default {A B} (f : A -> B) (l : list A) (d : A) :
  last (map f l) (f d) = f (last l d).
Proof.
  induction l as [|x l IH]; [reflexivity|].
  destruct l as [|y l]; [reflexivity|]. exact IH.
Qed.

(** X27. The product sync endpoint answers 500 and leaves the store as it
    was when the listing cannot be read.  Otherwise, on a store whose
    products are filed under their ids, it answers 200 with as many
    products as the listing has entries, and afterwards every product of
    the listing is found by the decimal text of its id, with the title of
    the last entry of the listing that has this id. *)
Theorem products_sync_imports_the_listing
    (fetched : Completion (list ShopifyProduct.t)) (clock : nat -> Date)
    (s : MemStorage) :
  products_wf (currentId s) (products s) ->
  let r := postProductsSync fetched clock s in
  match fetched with
  | Throws error => r = (mkSyncResponse 500 (SyncError (FailedToSync error)), s)
  | Returns listing =>
      (exists synced,
         fst r = mkSyncResponse 200 (SyncDone (length listing) synced)
         /\ length synced = length listing)
      /\ (forall entry, In entry listing ->
            exists p,
              fst (getProductByShopifyId (Val (toString (ShopifyProduct.id entry)))
                                         (snd r)) = Some p
              /\ Product.shopifyId p = Val (toString (ShopifyProduct.id entry))
              /\ Product.title p
                 = ShopifyProduct.title
                     (last (filter (fun x => ShopifyProduct.id x =? ShopifyProduct.id entry)
                                   listing) entry))
      /\ users (snd r) = users s /\ conversations (snd r) = conversations s
      /\ messages (snd r) = messages s /\ orders (snd r) = orders s
      /\ recommendations (snd r) = recommendations s /\ webhooks (snd r) = webhooks s
  end.
Proof.
  intros Hwf r. subst r. unfold postProductsSync, shopifySyncProducts.
  destruct fetched as [listing|error]; [|reflexivity].
  unfold recordApiMetric, ret.
  pose proof (@syncLoop_pushes (timed clock (map toInsertProduct listing)) [] s Hwf)
    as Hlen.
  rewrite length_timed, length_map in Hlen. cbn [length] in Hlen.
  fold (syncProducts clock (map toInsertProduct listing)) in Hlen.
  destruct (syncProducts clock (map toInsertProduct listing) s) as [synced s1] eqn:E.
  cbn [fst snd] in *.
  assert (Es : s1 = snd (syncProducts clock (map toInsertProduct listing) s))
    by now rewrite E.
  split.
  { exists synced. rewrite Hlen. split; reflexivity. }
  split.
  - intros entry Hin. rewrite Es.
    destruct (@syncProducts_last_wins clock (map toInsertProduct listing) s
                (toInsertProduct entry) Hwf (in_map _ _ _ Hin))
      as (p & Hp & Hid & Ht & _).
    exists p. split; [exact Hp|]. split; [exact Hid|].
    rewrite Ht, filter_map_comm, last_map_default. cbn [toInsertProduct InsertProduct.title].
    do 2 f_equal. apply filter_ext. intros x. apply hits_listing.
  - rewrite Es. unfold syncProducts. rewrite syncLoop_install. unfold install.
    store_fields. repeat split.
Qed.

Lemma products_sync_imports_the_listing_witness :
  products_wf (currentId newMemStorage) (products newMemStorage)
  /\ (exists synced,
        fst (postProductsSync (Returns example_listing) (fun i => 100 + i) newMemStorage)
        = mkSyncResponse 200 (SyncDone 3 synced)
        /\ length synced = 3).
Proof.
  assert (W : products_wf (currentId newMemStorage) (products newMemStorage))
    by (split; constructor).
  split; [exact W|].
  exact (proj1 (@products_sync_imports_the_listing (Returns example_listing)
                  (fun i => 100 + i) newMemStorage W)).
Defined.

(** ** What [syncProducts] returns *)

Lemma syncOne_returns d t s :
  products_wf (currentId s) (products s) ->
  exists p,
    fst (syncOne d t s) = Some p
    /\ Product.shopifyId p = lookup_key d
    /\ Product.title p = InsertProduct.title d
    /\ Product.price p = InsertProduct.price d
    /\ Product.syncedAt p = t.
Proof.
  intros Hwf. unfold syncOne, getProductByShopifyId, bind, read.
  fold (lookup_key d).
  destruct (find (same_shopifyId (lookup_key d)) (JsMap.values (products s)))
    as [e|] eqn:Ef.
  - pose proof (found_is_filed _ Hwf Ef) as Hg.
    unfold updateProduct, bind, read, update, ret. rewrite Hg. cbn [fst].
    eexists. split; [reflexivity|]. split; [|repeat split].
    apply find_some in Ef. destruct Ef as [_ Ef]. unfold same_shopifyId in Ef.
    apply eqb_nullable_string_eq in Ef.
    rewrite hit_keeps_shopifyId; [exact Ef|].
    unfold hits. rewrite Ef. apply eqb_nullable_string_refl.
  - run_method. eexists. split; [reflexivity|]. repeat split.
Qed.

Lemma syncLoop_returns tds :
  forall pushed s,
    products_wf (currentId s) (products s) ->
    exists ps,
      fst (syncLoop tds pushed s) = pushed ++ ps
      /\ map Product.shopifyId ps = map (fun td => lookup_key (snd td)) tds
      /\ map Product.title ps = map (fun td => InsertProduct.title (snd td)) tds
      /\ map Product.price ps = map (fun td => InsertProduct.price (snd td)) tds
      /\ map Product.syncedAt ps = map fst tds.
Proof.
  induction tds as [|[t d] tds IH]; intros pushed s Hwf.
  - exists []. cbn. rewrite app_nil_r. repeat split.
  - cbn [syncLoop]. unfold bind at 1.
    destruct (@syncOne_returns d t s Hwf) as (p & Hp & H1 & H2 & H3 & H4).
    pose proof (@syncOne_wf d t s Hwf) as Hwf'.
    destruct (syncOne d t s) as [r s']. cbn [fst snd] in *. subst r.
    destruct (IH (pushed ++ [p]) s' Hwf') as (ps & E & I1 & I2 & I3 & I4).
    exists (p :: ps). rewrite E, <- app_assoc. cbn [app map fst snd].
    rewrite H1, H2, H3, H4, I1, I2, I3, I4. repeat split.
Qed.

Lemma map_fst_timed clock l : map fst (timed clock l) = map clock (seq 0 (length l)).
Proof.
  unfold timed. generalize 0.
  induction l as [|x l IH]; intros n; [reflexivity|].
  cbn [length seq map combine fst]. now rewrite IH.
Qed.

(** X28. On a store whose products are filed under their ids,
    [syncProducts] returns one product per draft, in the order of the
    drafts: the product created or updated for that draft, with the
    draft's external id, title and price, stamped with the time of its
    turn. *)
Theorem sync_products_returns_one_per_draft
    (clock : nat -> Date) (drafts : list InsertProduct.t) (s : MemStorage) :
  products_wf (currentId s) (products s) ->
  let synced := fst (syncProducts clock drafts s) in
  map Product.shopifyId synced = map lookup_key drafts
  /\ map Product.title synced = map InsertProduct.title drafts
  /\ map Product.price synced = map InsertProduct.price drafts
  /\ map Product.syncedAt synced = map clock (seq 0 (length drafts)).
Proof.
  intros Hwf synced. subst synced. unfold syncProducts.
  destruct (@syncLoop_returns (timed clock drafts) [] s Hwf)
    as (ps & E & H1 & H2 & H3 & H4).
  rewrite E. cbn [app].
  rewrite H1, H2, H3, H4, <- !(map_map snd), map_snd_timed.
  repeat split. apply map_fst_timed.
Qed.

Lemma sync_products_returns_one_per_draft_witness :
  products_wf (currentId newMemStorage) (products newMemStorage)
  /\ map Product.title
         (fst (syncProducts (fun i => 100 + i) example_drafts newMemStorage))
     = ["Mug"; "Cap"; "Mug, large"]%string.
Proof.
  assert (W : products_wf (currentId newMemStorage) (products newMemStorage))
    by (split; constructor).
  split; [exact W|].
  exact (proj1 (proj2 (@sync_products_returns_one_per_draft (fun i => 100 + i)
                          example_drafts newMemStorage W))).
Defined.

(** ** A chat request, then the list of conversations *)

Lemma listConversations_lists (s : MemStorage) (conversation : Conversation.t) :
  In conversation (JsMap.values (conversations s)) ->
  is_active conversation = true ->
  In (fst (summarize conversation s)) (fst (listConversations s)).
Proof.
  intros Hin Ha. unfold listConversations, getActiveConversations, bind, read.
  cbv beta iota. rewrite forEach_reads by reflexivity. cbn [fst].
  apply in_map_iff. exists conversation. split; [reflexivity|].
  apply filter_In. now split.
Qed.

(** Messages attached to stored conversations are not attached to the
    counter, which is the key of no conversation. *)
Lemma no_message_for_the_counter (s : MemStorage) :
  ids_inv s -> message_integrity s = true ->
  filter (fun msg => Message.conversationId msg =? currentId s)
         (JsMap.values (messages s)) = [].
Proof.
  intros Hinv Hi. destruct (counter_unused Hinv) as (_ & U2 & _).
  apply filter_none. intros msg Hin.
  unfold message_integrity in Hi. rewrite forallb_forall in Hi.
  specialize (Hi _ Hin). unfold references_conversation in Hi.
  apply Nat.eqb_neq. intros E. rewrite E in Hi.
  apply JsMapFacts.has_In in Hi. contradiction.
Qed.

(** X29. A verified chat request for a session that is not yet known,
    answered by the language model with a text that is not empty, on a
    store with sound ids whose messages are attached to stored
    conversations: the list of conversations then shows the new
    conversation, active, with two messages, and with the model's answer
    as last message, when the clock does not run backwards between the
    two messages. *)
Theorem chat_then_list_shows_the_exchange
    (JSON_stringify_body : ChatBody -> string)
    (processMessage : string -> AiContext -> Completion AiResponse)
    (chat : ChatBody) (secret : string) (clock : nat -> Date)
    (text session : string) (reply : AiResponse) (s : MemStorage) :
  ids_inv s ->
  message_integrity s = true ->
  secret <> ""%string ->
  message chat = Val text -> text <> ""%string ->
  session_id chat = Val session -> session <> ""%string ->
  fst (getConversationBySessionId session s) = None ->
  (forall ctx, processMessage text ctx = Returns reply) ->
  ai_message reply <> ""%string ->
  clock 1 <= clock 2 ->
  let after :=
    snd (webhookChat JSON_stringify_body processMessage
           (mkChatRequest
              (Some (generateSignature (JSON_stringify_body chat) secret))
              (Some secret) chat) clock s) in
  In (mkSummary
        (Conversation.mk (currentId s) session (customer_id chat) Undefined
           (Val "active"%string) (Val text) (context chat) (clock 0) (clock 0))
        (Val (ai_message reply)) 2)
     (fst (listConversations after)).
Proof.
  intros Hinv Hi Hs Hm Hmn Hsid Hsn Hnew Hai Hreply Hclock after.
  destruct (@webhookChat_answered JSON_stringify_body processMessage chat secret clock
              text session reply s Hs Hm Hmn Hsid Hsn Hai)
    as (_ & Hc & Hmsg & _).
  cbv zeta in Hc, Hmsg. fold after in Hc, Hmsg.
  unfold chatConversation, chatMessageKey in Hc, Hmsg. rewrite Hnew in Hc, Hmsg.
  cbn [Conversation.id] in Hmsg.
  set (c := currentId s) in *.
  set (conv := Conversation.mk c session (customer_id chat) Undefined
                 (Val "active"%string) (Val text) (context chat) (clock 0) (clock 0))
    in *.
  set (um := Message.mk (S c) c "user" text Undefined (clock 1)) in *.
  set (am := Message.mk (S (S c)) c "assistant" (ai_message reply)
               (Val (metadataOf reply)) (clock 2)) in *.
  assert (Hkeys : Forall (fun k => k < c) (JsMap.keys (messages s))).
  { destruct Hinv as (_ & _ & Hk & _). unfold all_keys in Hk.
    rewrite !Forall_app in Hk. tauto. }
  assert (Hvalues : JsMap.values (messages after)
                    = JsMap.values (messages s) ++ [um; am]).
  { rewrite Hmsg. rewrite (@set_fresh _ (messages s) (S c) um).
    - rewrite set_fresh.
      + unfold JsMap.values. rewrite !map_app, <- app_assoc. reflexivity.
      + unfold JsMap.keys. rewrite map_app, in_app_iff. cbn [map fst In].
        intros [Hin|[E|[]]]; [|lia].
        rewrite Forall_forall in Hkeys. specialize (Hkeys _ Hin). lia.
    - intros Hin. rewrite Forall_forall in Hkeys. specialize (Hkeys _ Hin). lia. }
  assert (Hsum : fst (summarize conv after) = mkSummary conv (Val (ai_message reply)) 2).
  { unfold summarize, bind, ret, getMessagesByConversation, read. cbn [fst snd].
    change (Conversation.id conv) with c. rewrite Hvalues, filter_app.
    pose proof (no_message_for_the_counter Hinv Hi) as Hnone. fold c in Hnone.
    rewrite Hnone. unfold um, am. cbn [app filter Message.conversationId].
    rewrite Nat.eqb_refl. cbn [sort insert_sorted Message.timestamp].
    replace (Z.of_nat (clock 1%nat) - Z.of_nat (clock 2%nat) <=? 0)%Z with true
      by (symmetry; apply Z.leb_le; lia).
    unfold lastMessageOf. cbn [map last Message.content length].
    apply String.eqb_neq in Hreply. rewrite Hreply. reflexivity. }
  rewrite <- Hsum. apply listConversations_lists; [|reflexivity].
  rewrite Hc. unfold JsMap.values. apply in_map_iff. exists (c, conv).
  split; [reflexivity|]. apply JsMapFacts.get_Some_In, JsMapFacts.get_set_same.
Qed.

Lemma chat_then_list_shows_the_exchange_witness :
  ids_inv newMemStorage
  /\ message_integrity newMemStorage = true
  /\ In (mkSummary
           (Conversation.mk 1 "s1" Undefined Undefined (Val "active"%string)
              (Val "hello"%string) Undefined 100 100)
           (Val "hi"%string) 2)
        (fst (listConversations
           (snd (webhookChat (fun _ => "{}"%string)
                   (fun _ _ => Returns (mkAiResponse "hi" "general" "low" Undefined))
                   (mkChatRequest (Some (generateSignature "{}" "secret"))
                      (Some "secret"%string)
                      (mkChatBody Undefined (Val "hello"%string) Undefined
                                  (Val "s1"%string)))
                   (fun i => 100 + i) newMemStorage)))).
Proof.
  split; [apply newMemStorage_ids_inv|]. split; [reflexivity|].
  apply (@chat_then_list_shows_the_exchange (fun _ => "{}"%string)
           (fun _ _ => Returns (mkAiResponse "hi" "general" "low" Undefined))
           (mkChatBody Undefined (Val "hello"%string) Undefined (Val "s1"%string))
           "secret" (fun i => 100 + i) "hello" "s1"
           (mkAiResponse "hi" "general" "low" Undefined) newMemStorage);
    try discriminate; try reflexivity; try lia.
  apply newMemStorage_ids_inv.
Defined.

(** ** Orders, found again *)

Lemma filter_values_appended {V} (f : V -> bool) (m : JsMap.t V) k v :
  ~ In k (JsMap.keys m) ->
  filter f (JsMap.values (JsMap.set k v m))
  = filter f (JsMap.values m) ++ (if f v then [v] else []).
Proof.
  intros Hk. rewrite set_fresh by exact Hk. unfold JsMap.values.
  rewrite map_app, filter_app. reflexivity.
Qed.

(** X30. In any store reached from the empty one, an order just created
    is fetched by its id; the orders of a customer, and those of a
    conversation, are the ones found before, followed by the new order
    exactly when its [customerId], or its [conversationId], is the value
    asked for (an order without one is never among them); and the lookup
    by external id still returns the first order with that id, the new
    one only when there was none. *)
Theorem created_order_is_found_again
    (calls : list Call) (insertOrder : InsertOrder.t) (now : Date) :
  let s := run calls newMemStorage in
  let r := createOrder insertOrder now s in
  fst (getOrder (Order.id (fst r)) (snd r)) = Some (fst r)
  /\ (forall customerId,
        fst (getOrdersByCustomer customerId (snd r))
        = fst (getOrdersByCustomer customerId s)
          ++ (if eqb_nullable String.eqb (prop (InsertOrder.customerId insertOrder))
                              (Val customerId)
              then [fst r] else []))
  /\ (forall conversationId,
        fst (getOrdersByConversation conversationId (snd r))
        = fst (getOrdersByConversation conversationId s)
          ++ (if eqb_conversationId (prop (InsertOrder.conversationId insertOrder))
                                    (Val conversationId)
              then [fst r] else []))
  /\ (forall shopifyId,
        fst (getOrderByShopifyId shopifyId (snd r))
        = match fst (getOrderByShopifyId shopifyId s) with
          | Some first => Some first
          | None =>
              if eqb_nullable String.eqb (prop (InsertOrder.shopifyId insertOrder))
                              (Val shopifyId)
              then Some (fst r) else None
          end).
Proof.
  intros s r. subst r.
  assert (Hinv : ids_inv s) by (apply run_ids_inv, newMemStorage_ids_inv).
  destruct (counter_unused Hinv) as (_ & _ & _ & _ & U5 & _).
  unfold getOrder, getOrdersByCustomer, getOrdersByConversation, getOrderByShopifyId.
  run_method.
  split; [apply JsMapFacts.get_set_same|].
  split; [intros c; now rewrite filter_values_appended by exact U5|].
  split; [intros c; now rewrite filter_values_appended by exact U5|].
  intros x. now rewrite find_values_appended by exact U5.
Qed.
